(** * Fashion Finder: the search API ([src/api/search.js])

    A shallow embedding of the serverless search handler: the field
    normalizers ([cleanPrice], [cleanTitle], [cleanImageUrl]), the
    record-to-product formatter, the validity filter, the six source
    adapters, the store dispatcher and the request handler.

    JavaScript strings are sequences of UTF-16 code units, numbers are
    IEEE-754 binary64 values, regular expressions are run by a small
    backtracking matcher with the priorities of the ECMAScript one, and
    exceptions are an explicit [completion] type. *)

From Stdlib Require Import List ZArith NArith Bool Lia Ascii String.
From Stdlib Require Import Floats.SpecFloat.
Import ListNotations.

Set Warnings "-register-all".

(* ================================================================== *)
(** ** Strings *)
(* ================================================================== *)

(** A JavaScript string: its UTF-16 code units. *)
Definition jsstring := list N.

(** An ASCII literal of the source as a [jsstring]. *)
Definition js (s : string) : jsstring := map N_of_ascii (list_ascii_of_string s).

Fixpoint str_eqb (a b : jsstring) : bool :=
  match a, b with
  | [], [] => true
  | x :: a', y :: b' => N.eqb x y && str_eqb a' b'
  | _, _ => false
  end.

(** WhiteSpace and LineTerminator code units: what [String.prototype.trim]
    strips and what [\s] matches. *)
Definition isSpace (c : N) : bool :=
  ((9 <=? c) && (c <=? 13) || (c =? 32) || (c =? 160) || (c =? 5760)
   || (8192 <=? c) && (c <=? 8202) || (c =? 8232) || (c =? 8233)
   || (c =? 8239) || (c =? 8287) || (c =? 12288) || (c =? 65279))%N.

Definition isDigit (c : N) : bool := ((48 <=? c) && (c <=? 57))%N.

Fixpoint dropWhile (p : N -> bool) (s : jsstring) : jsstring :=
  match s with
  | c :: s' => if p c then dropWhile p s' else s
  | [] => []
  end.

Definition trimStart (s : jsstring) : jsstring := dropWhile isSpace s.
Definition trimEnd (s : jsstring) : jsstring := rev (dropWhile isSpace (rev s)).
(** [s.trim()] *)
Definition trim (s : jsstring) : jsstring := trimEnd (trimStart s).

(** [s.startsWith(p)] *)
Fixpoint startsWith (p s : jsstring) : bool :=
  match p, s with
  | [], _ => true
  | x :: p', y :: s' => N.eqb x y && startsWith p' s'
  | _ :: _, [] => false
  end.

(** [s.includes(p)] *)
Fixpoint includes (p s : jsstring) : bool :=
  startsWith p s || match s with [] => false | _ :: s' => includes p s' end.

(** [s.split(sep)[0]] for a non-empty separator: the text before the first
    occurrence of [sep], the whole string when there is none. *)
Fixpoint split_head (sep s : jsstring) : jsstring :=
  match s with
  | [] => []
  | c :: s' => if startsWith sep s then [] else c :: split_head sep s'
  end.

(** [s.substring(0, n)] and [s.slice(0, n)] for a constant [n >= 0]. *)
Definition substring0 (n : nat) (s : jsstring) : jsstring := firstn n s.

(** [s.substring(i, j)] for [i <= j]. *)
Definition substring (i j : nat) (s : jsstring) : jsstring := firstn (j - i) (skipn i s).

Definition isUpperAscii (c : N) : bool := ((65 <=? c) && (c <=? 90))%N.
Definition isLowerAscii (c : N) : bool := ((97 <=? c) && (c <=? 122))%N.

(** [String.prototype.toLowerCase], code unit by code unit.  The source
    only asks whether the lowered text includes the ASCII word [from]; the
    code units whose lower case contains an ASCII letter are the Basic Latin
    capitals, U+0130 (lowered to [i] followed by U+0307) and U+212A (the
    Kelvin sign, lowered to [k]); Latin-1 capitals are lowered too; every
    other code unit is lowered to code units outside ASCII and is kept here
    as it is. *)
Definition lowerUnit (c : N) : jsstring :=
  if isUpperAscii c then [c + 32]%N
  else if ((192 <=? c) && (c <=? 222) && negb (c =? 215))%N then [c + 32]%N
  else if (c =? 304)%N then [105; 775]%N
  else if (c =? 8490)%N then [107]%N
  else if (c =? 8491)%N then [229]%N
  else [c].

Definition toLowerCase (s : jsstring) : jsstring := flat_map lowerUnit s.

(* ================================================================== *)
(** ** Regular expressions *)
(* ================================================================== *)

Module Re.

(** The fragment of ECMAScript patterns the source uses.  Quantifiers are
    applied to character classes only ([\s*], [[\d,]+], [[\s\S]*?]) or are
    the optional [r?]. *)
Inductive regex : Type :=
| Eps
| Cls (p : N -> bool)          (* one code unit of a class *)
| Seq (r1 r2 : regex)
| Alt (r1 r2 : regex)          (* r1|r2, r1 tried first *)
| Star (p : N -> bool)         (* greedy  [p]*  *)
| StarLazy (p : N -> bool)     (* lazy    [p]*? *)
| Opt (r : regex)              (* greedy  r?    *)
| Grp (n : nat) (r : regex)    (* capture group number n *)
| Bol                          (* ^ without the m flag *)
| Eol.                         (* $ without the m flag *)

(** Captures: group number, start and end index in the subject. *)
Definition caps := list (nat * (nat * nat)).

Definition result := option (nat * caps).
Definition cont := nat -> jsstring -> caps -> result.

Fixpoint star (p : N -> bool) (i : nat) (s : jsstring) (c : caps) (k : cont)
  {struct s} : result :=
  match s with
  | x :: s' =>
      if p x then
        match star p (S i) s' c k with
        | Some r => Some r
        | None => k i s c
        end
      else k i s c
  | [] => k i s c
  end.

Fixpoint star_lazy (p : N -> bool) (i : nat) (s : jsstring) (c : caps) (k : cont)
  {struct s} : result :=
  match k i s c with
  | Some r => Some r
  | None =>
      match s with
      | x :: s' => if p x then star_lazy p (S i) s' c k else None
      | [] => None
      end
  end.

(** [rmatch r i s c k]: match [r] against the suffix [s] that starts at index
    [i] of the subject, then continue with [k]; alternatives are explored in
    the order of a backtracking matcher. *)
Fixpoint rmatch (r : regex) (i : nat) (s : jsstring) (c : caps) (k : cont)
  {struct r} : result :=
  match r with
  | Eps => k i s c
  | Cls p =>
      match s with
      | x :: s' => if p x then k (S i) s' c else None
      | [] => None
      end
  | Seq r1 r2 => rmatch r1 i s c (fun i' s' c' => rmatch r2 i' s' c' k)
  | Alt r1 r2 =>
      match rmatch r1 i s c k with
      | Some x => Some x
      | None => rmatch r2 i s c k
      end
  | Star p => star p i s c k
  | StarLazy p => star_lazy p i s c k
  | Opt r1 =>
      match rmatch r1 i s c k with
      | Some x => Some x
      | None => k i s c
      end
  | Grp n r1 => rmatch r1 i s c (fun i' s' c' => k i' s' ((n, (i, i')) :: c'))
  | Bol => match i with O => k i s c | S _ => None end
  | Eol => match s with [] => k i s c | _ :: _ => None end
  end.

(** A match that starts exactly at index [i]: its end index and captures. *)
Definition match_at (r : regex) (i : nat) (s : jsstring) : result :=
  rmatch r i s [] (fun j _ c => Some (j, c)).

(** The leftmost match at or after index [i] ([s] is the suffix at [i]). *)
Fixpoint search (r : regex) (i : nat) (s : jsstring) : option (nat * nat * caps) :=
  match match_at r i s with
  | Some (j, c) => Some (i, j, c)
  | None =>
      match s with
      | [] => None
      | _ :: s' => search r (S i) s'
      end
  end.

(** [re.test(s)] *)
Definition test (r : regex) (s : jsstring) : bool :=
  match search r 0 s with Some _ => true | None => false end.

(** [s.match(re)[0]] for a pattern without the g flag, [None] for [null]. *)
Definition match0 (r : regex) (s : jsstring) : option jsstring :=
  match search r 0 s with
  | Some (i, j, _) => Some (substring i j s)
  | None => None
  end.

(** [s.match(re)[n]]: the text of capture group [n] of the first match. *)
Fixpoint cap_lookup (n : nat) (c : caps) : option (nat * nat) :=
  match c with
  | [] => None
  | (m, ij) :: c' => if Nat.eqb m n then Some ij else cap_lookup n c'
  end.

Definition group_text (s : jsstring) (c : caps) (n : nat) : jsstring :=
  match cap_lookup n c with
  | Some (i, j) => substring i j s
  | None => []
  end.

Definition match_group (r : regex) (n : nat) (s : jsstring) : option jsstring :=
  match search r 0 s with
  | Some (_, _, c) => Some (group_text s c n)
  | None => None
  end.

(** A replacement text: literal pieces and [$n] references. *)
Inductive piece : Type :=
| Lit (t : jsstring)
| Ref (n : nat).

Definition expand (tpl : list piece) (subject : jsstring) (c : caps) : jsstring :=
  flat_map (fun p => match p with Lit t => t | Ref n => group_text subject c n end) tpl.

(** [s.replace(re, tpl)] with the g flag.  [skip] counts the code units of
    the current match still to be dropped; after an empty match the matcher
    moves on by one code unit, which is copied. *)
Fixpoint replace_go (r : regex) (tpl : list piece) (subject : jsstring)
  (i : nat) (s : jsstring) (skip : nat) {struct s} : jsstring :=
  match skip with
  | S n =>
      match s with
      | _ :: s' => replace_go r tpl subject (S i) s' n
      | [] => []
      end
  | O =>
      match match_at r i s with
      | Some (j, c) =>
          expand tpl subject c ++
          match s with
          | [] => []
          | x :: s' =>
              if Nat.eqb j i then x :: replace_go r tpl subject (S i) s' 0
              else replace_go r tpl subject (S i) s' (j - i - 1)
          end
      | None =>
          match s with
          | [] => []
          | x :: s' => x :: replace_go r tpl subject (S i) s' 0
          end
      end
  end.

Definition replace_all (r : regex) (tpl : list piece) (s : jsstring) : jsstring :=
  replace_go r tpl s 0 s 0.

(** [s.replace(re, tpl)] without the g flag: the first match only. *)
Definition replace_first (r : regex) (tpl : list piece) (s : jsstring) : jsstring :=
  match search r 0 s with
  | Some (i, j, c) => firstn i s ++ expand tpl s c ++ skipn j s
  | None => s
  end.

(** [s.match(re)] with the g flag: the texts of the successive matches
    ([[]] stands for [null]). *)
Fixpoint match_all_go (r : regex) (subject : jsstring)
  (i : nat) (s : jsstring) (skip : nat) {struct s} : list jsstring :=
  match skip with
  | S n =>
      match s with
      | _ :: s' => match_all_go r subject (S i) s' n
      | [] => []
      end
  | O =>
      match match_at r i s with
      | Some (j, _) =>
          substring i j subject ::
          match s with
          | [] => []
          | _ :: s' => match_all_go r subject (S i) s' (j - i - 1)
          end
      | None =>
          match s with
          | [] => []
          | _ :: s' => match_all_go r subject (S i) s' 0
          end
      end
  end.

Definition match_all (r : regex) (s : jsstring) : list jsstring :=
  match_all_go r s 0 s 0.

(** Pattern builders. *)
Definition chr (c : N) : regex := Cls (N.eqb c).
Definition plus (p : N -> bool) : regex := Seq (Cls p) (Star p).

(** Case folding of the i flag on patterns without the u flag: a code unit
    matches an ASCII letter of the pattern when it is that letter in either
    case (a code unit outside ASCII is never folded to an ASCII one). *)
Definition foldCase (c : N) : N := if isLowerAscii c then (c - 32)%N else c.
Definition chr_i (c : N) : regex := Cls (fun x => N.eqb (foldCase x) (foldCase c)).

Fixpoint seq_of (l : list regex) : regex :=
  match l with
  | [] => Eps
  | [r] => r
  | r :: l' => Seq r (seq_of l')
  end.

Definition lit (s : string) : regex := seq_of (map chr (js s)).
Definition lit_i (s : string) : regex := seq_of (map chr_i (js s)).

Fixpoint alt_of (l : list regex) : regex :=
  match l with
  | [] => Eps
  | [r] => r
  | r :: l' => Alt r (alt_of l')
  end.

End Re.

(* ================================================================== *)
(** ** Numbers *)
(* ================================================================== *)

Module Num.

(** A Number: an IEEE-754 binary64 value. *)
Definition number := spec_float.

Definition prec : Z := 53.
Definition emax : Z := 1024.

Definition NaN : number := S754_nan.

(** Decimal digits. *)
Fixpoint uint_digits (u : Decimal.uint) : jsstring :=
  match u with
  | Decimal.Nil => []
  | Decimal.D0 u' => 48%N :: uint_digits u'
  | Decimal.D1 u' => 49%N :: uint_digits u'
  | Decimal.D2 u' => 50%N :: uint_digits u'
  | Decimal.D3 u' => 51%N :: uint_digits u'
  | Decimal.D4 u' => 52%N :: uint_digits u'
  | Decimal.D5 u' => 53%N :: uint_digits u'
  | Decimal.D6 u' => 54%N :: uint_digits u'
  | Decimal.D7 u' => 55%N :: uint_digits u'
  | Decimal.D8 u' => 56%N :: uint_digits u'
  | Decimal.D9 u' => 57%N :: uint_digits u'
  end.

(** The decimal numeral of a natural number, without leading zeros. *)
Definition digits_of_N (n : N) : jsstring := uint_digits (N.to_uint n).

(** The value of a run of decimal digits. *)
Definition value_of_digits (ds : jsstring) : N :=
  fold_left (fun acc d => (acc * 10 + (d - 48))%N) ds 0%N.

(** The binary64 value nearest to [m * 10^e] (ties to even), with sign
    [neg]: the rounding of a decimal literal. *)
Definition of_decimal (neg : bool) (m : N) (e : Z) : number :=
  match m with
  | N0 => S754_zero neg
  | Npos p =>
      match e with
      | Zneg k => SFdiv prec emax (S754_finite neg p 0) (S754_finite false (Pos.pow 10 k) 0)
      | Z0 => binary_round prec emax neg p 0
      | Zpos k => binary_round prec emax neg (p * Pos.pow 10 k) 0
      end
  end.

Definition of_N (n : N) : number := of_decimal false n 0.

(** [x < y], [x <= y], [x > y], [x >= y]: false when either side is NaN. *)
Definition ltb (x y : number) : bool := SFltb x y.
Definition leb (x y : number) : bool := SFleb x y.
Definition gtb (x y : number) : bool := SFltb y x.
Definition geb (x y : number) : bool := SFleb y x.

Definition isNaN (x : number) : bool :=
  match x with S754_nan => true | _ => false end.

(** [x / y] *)
Definition div (x y : number) : number := SFdiv prec emax x y.

(** [Number.isInteger(x)] *)
Definition isInteger (x : number) : bool :=
  match x with
  | S754_zero _ => true
  | S754_finite _ m e =>
      match e with
      | Zneg k => (Z.pos m mod Z.pow 2 (Z.pos k) =? 0)%Z
      | _ => true
      end
  | _ => false
  end.

(** The exact value of a positive finite number [m * 2^e] as a fraction. *)
Definition numerator (m : positive) (e : Z) : Z :=
  match e with Zneg _ => Z.pos m | _ => (Z.pos m * Z.pow 2 e)%Z end.
Definition denominator (e : Z) : Z :=
  match e with Zneg k => Z.pow 2 (Z.pos k) | _ => 1%Z end.

Fixpoint takeWhile (p : N -> bool) (s : jsstring) : jsstring :=
  match s with
  | c :: s' => if p c then c :: takeWhile p s' else []
  | [] => []
  end.

(** The ExponentPart of a StrDecimalLiteral at the head of [s], 0 when
    there is none. *)
Definition exponent_part (s : jsstring) : Z :=
  match s with
  | c :: r =>
      if ((c =? 101) || (c =? 69))%N then
        let '(neg, r') :=
          match r with
          | 43%N :: t => (false, t)
          | 45%N :: t => (true, t)
          | _ => (false, r)
          end in
        match takeWhile isDigit r' with
        | [] => 0%Z
        | ds => let v := Z.of_N (value_of_digits ds) in if neg then (- v)%Z else v
        end
      else 0%Z
  | [] => 0%Z
  end.

(** [parseFloat(s)]: leading white space is skipped, then the longest
    prefix that is a StrDecimalLiteral is converted; NaN when there is no
    such prefix. *)
Definition parseFloat (s : jsstring) : number :=
  let s0 := trimStart s in
  let '(neg, s1) :=
    match s0 with
    | 43%N :: t => (false, t)
    | 45%N :: t => (true, t)
    | _ => (false, s0)
    end in
  if startsWith (js "Infinity") s1 then S754_infinity neg
  else
    let ip := takeWhile isDigit s1 in
    let s2 := dropWhile isDigit s1 in
    let '(fp, s3) :=
      match s2 with
      | 46%N :: t => (takeWhile isDigit t, dropWhile isDigit t)
      | _ => ([], s2)
      end in
    match ip ++ fp with
    | [] => NaN
    | ds => of_decimal neg (value_of_digits ds)
              (exponent_part s3 - Z.of_nat (List.length fp))
    end.

(** Rounding of the fraction [num/den] to an integer. *)
Definition round_half_up (num den : Z) : Z := ((2 * num + den) / (2 * den))%Z.

Definition same_number (x y : number) : bool :=
  match x, y with
  | S754_finite s m e, S754_finite s' m' e' => Bool.eqb s s' && Pos.eqb m m' && Z.eqb e e'
  | S754_zero s, S754_zero s' => Bool.eqb s s'
  | S754_infinity s, S754_infinity s' => Bool.eqb s s'
  | S754_nan, S754_nan => true
  | _, _ => false
  end.

(** The decimal exponent [n] of a positive fraction: [10^(n-1) <= num/den < 10^n]. *)
Fixpoint small_exponent (fuel : nat) (num den : Z) (j : Z) : Z :=
  match fuel with
  | O => (1 - j)%Z
  | S f => if (den <=? num * 10 ^ j)%Z then (1 - j)%Z else small_exponent f num den (j + 1)
  end.

Definition decimal_exponent (num den : Z) : Z :=
  if (den <=? num)%Z then Z.of_nat (List.length (digits_of_N (Z.to_N (num / den))))
  else small_exponent 400 num den 1.

(** The [k]-digit decimals next to [num/den], nearest first (the even one
    first when both are as near), each with its decimal exponent. *)
Definition candidates (num den n : Z) (k : Z) : list (Z * Z) :=
  let '(a, b) := if (0 <=? n - k)%Z then (num, den * 10 ^ (n - k))%Z else (num * 10 ^ (k - n), den)%Z in
  let lo := (a / b)%Z in
  let r := (a mod b)%Z in
  let fix_top (s : Z) := if (s =? 10 ^ k)%Z then (10 ^ (k - 1), n + 1)%Z else (s, n) in
  let l := fix_top lo in
  let h := fix_top (lo + 1)%Z in
  match (2 * r ?= b)%Z with
  | Lt => [l; h]
  | Gt => [h; l]
  | Eq => if Z.even lo then [l; h] else [h; l]
  end.

Fixpoint first_roundtrip (x : number) (k : Z) (cs : list (Z * Z)) : option (Z * Z) :=
  match cs with
  | [] => None
  | (s, n) :: cs' =>
      if same_number (of_decimal false (Z.to_N s) (n - k)) x then Some (s, n)
      else first_roundtrip x k cs'
  end.

(** The shortest digits [s] (with [k] digits) and exponent [n] such that
    [s * 10^(n-k)] converts back to [m * 2^e]. *)
Fixpoint shortest (fuel : nat) (m : positive) (e : Z) (n : Z) (k : Z) : Z * Z :=
  match first_roundtrip (S754_finite false m e) k
          (candidates (numerator m e) (denominator e) n k) with
  | Some sn => sn
  | None =>
      match fuel with
      | O => (round_half_up (numerator m e * 10 ^ (k - n)) (denominator e), n)
      | S f => shortest f m e n (k + 1)
      end
  end.

Definition zeros (n : nat) : jsstring := repeat 48%N n.

(** Number::toString(x) in radix 10. *)
Definition toString (x : number) : jsstring :=
  match x with
  | S754_nan => js "NaN"
  | S754_zero _ => js "0"
  | S754_infinity s => (if s then js "-" else []) ++ js "Infinity"
  | S754_finite sg m e =>
      let n0 := decimal_exponent (numerator m e) (denominator e) in
      let '(s, n) := shortest 20 m e n0 1 in
      let ds := digits_of_N (Z.to_N s) in
      let k := Z.of_nat (List.length ds) in
      (if sg then js "-" else []) ++
      (if (k <=? n)%Z && (n <=? 21)%Z then ds ++ zeros (Z.to_nat (n - k))
       else if (0 <? n)%Z && (n <=? 21)%Z then
         firstn (Z.to_nat n) ds ++ js "." ++ skipn (Z.to_nat n) ds
       else if (-6 <? n)%Z && (n <=? 0)%Z then
         js "0." ++ zeros (Z.to_nat (- n)) ++ ds
       else
         let ex := (n - 1)%Z in
         let tail := (if (ex <? 0)%Z then js "e-" else js "e+") ++ digits_of_N (Z.abs_N ex) in
         match ds with
         | [d] => d :: tail
         | d :: rest => d :: js "." ++ rest ++ tail
         | [] => tail
         end)
  end.

(** [x.toFixed(f)] *)
Definition toFixed (f : nat) (x : number) : jsstring :=
  match x with
  | S754_finite sg m e =>
      if SFleb (of_decimal false 1 21) (S754_finite false m e) then toString x
      else
        let n := round_half_up (numerator m e * 10 ^ Z.of_nat f) (denominator e) in
        let ds := digits_of_N (Z.to_N n) in
        let ds := zeros (S f - List.length ds) ++ ds in
        let k := List.length ds in
        (if sg then js "-" else []) ++
        match f with
        | O => ds
        | _ => firstn (k - f) ds ++ js "." ++ skipn (k - f) ds
        end
  | S754_zero _ =>
      match f with
      | O => js "0"
      | _ => js "0." ++ zeros f
      end
  | _ => toString x
  end.

End Num.

(* ================================================================== *)
(** ** Values and exceptions *)
(* ================================================================== *)

(** A number as it reaches the program: the decimal literal of a JSON
    text, [(-1)^neg * mantissa * 10^exp10]; [JSON.parse] rounds it to the
    nearest binary64 value. *)
Record json_number : Type := JsonNumber {
  neg : bool;
  mantissa : N;
  exp10 : Z
}.

Definition number_of (n : json_number) : Num.number :=
  Num.of_decimal (neg n) (mantissa n) (exp10 n).

(** The values the program receives from request bodies and upstream
    responses: [undefined] and the values of [JSON.parse].  An object keeps
    its members in the order of the JSON text; [VNative] is a built-in
    method reached through a prototype. *)
Inductive value : Type :=
| VUndefined
| VNull
| VBool (b : bool)
| VNum (n : json_number)
| VStr (s : jsstring)
| VArr (items : list value)
| VObj (members : list (jsstring * value))
| VNative (name : jsstring).

(** A thrown Error object: its constructor name and its [message]. *)
Record js_error : Type := Thrown {
  error_name : jsstring;
  message : jsstring
}.

Definition TypeError (msg : string) : js_error := Thrown (js "TypeError") (js msg).
Definition URIError (msg : string) : js_error := Thrown (js "URIError") (js msg).
Definition PlainError (msg : jsstring) : js_error := Thrown (js "Error") msg.

(** The outcome of evaluating an expression, or of an awaited promise. *)
Inductive completion (A : Type) : Type :=
| Normal (a : A)
| Throw (e : js_error).

Arguments Normal {A} a.
Arguments Throw {A} e.

Definition bind {A B : Type} (c : completion A) (k : A -> completion B) : completion B :=
  match c with
  | Normal a => k a
  | Throw e => Throw e
  end.

Notation "x <- c ;; k" := (bind c (fun x => k))
  (at level 61, c at next level, right associativity).

(** [try { c } catch (e) { h e }] *)
Definition try_catch {A : Type} (c : completion A) (h : js_error -> completion A) : completion A :=
  match c with
  | Normal a => Normal a
  | Throw e => h e
  end.

(** [arr.map(f)] where [f] may throw, with the index of each element. *)
Fixpoint mapM_from {A B : Type} (f : nat -> A -> completion B) (i : nat) (l : list A)
  : completion (list B) :=
  match l with
  | [] => Normal []
  | a :: l' => b <- f i a ;; bs <- mapM_from f (S i) l' ;; Normal (b :: bs)
  end.

Definition mapM {A B : Type} (f : nat -> A -> completion B) (l : list A) : completion (list B) :=
  mapM_from f 0 l.

(** ToBoolean *)
Definition truthy (v : value) : bool :=
  match v with
  | VUndefined | VNull => false
  | VBool b => b
  | VNum n => match number_of n with S754_zero _ | S754_nan => false | _ => true end
  | VStr s => match s with [] => false | _ :: _ => true end
  | VArr _ | VObj _ | VNative _ => true
  end.

(** [typeof v === 'string'] *)
Definition is_string (v : value) : bool :=
  match v with VStr _ => true | _ => false end.

(** [a || b] *)
Definition or_else (a b : value) : value := if truthy a then a else b.

(** [a ?? b] *)
Definition nullish (v : value) : bool :=
  match v with VUndefined | VNull => true | _ => false end.
Definition coalesce (a b : value) : value := if nullish a then b else a.

(** The own property [name] of an object parsed from JSON: the last member
    of that name. *)
Fixpoint own_property (name : jsstring) (members : list (jsstring * value)) : option value :=
  match members with
  | [] => None
  | (k, v) :: rest =>
      match own_property name rest with
      | Some v' => Some v'
      | None => if str_eqb k name then Some v else None
      end
  end.

(** [v.name] for a property name that is no array index.  Own properties
    of objects, [length] of strings and arrays; of the members of the built-in
    prototypes only [String.prototype.link] bears a name the source reads
    (no other name it reads is a member of [Object.prototype],
    [Array.prototype], [String.prototype], [Number.prototype] or
    [Boolean.prototype]). *)
Definition get (v : value) (name : string) : completion value :=
  match v with
  | VUndefined | VNull => Throw (TypeError "Cannot read properties of undefined or null")
  | VObj members =>
      match own_property (js name) members with
      | Some x => Normal x
      | None => Normal VUndefined
      end
  | VStr s =>
      if str_eqb (js name) (js "length")
      then Normal (VNum (JsonNumber false (N.of_nat (List.length s)) 0))
      else if str_eqb (js name) (js "link") then Normal (VNative (js "link"))
      else Normal VUndefined
  | VArr items =>
      if str_eqb (js name) (js "length")
      then Normal (VNum (JsonNumber false (N.of_nat (List.length items)) 0))
      else Normal VUndefined
  | VNative f =>
      if str_eqb (js name) (js "name") then Normal (VStr f)
      else Normal VUndefined
  | VBool _ | VNum _ => Normal VUndefined
  end.

(** [v?.name] *)
Definition get_opt (v : value) (name : string) : value :=
  match v with
  | VUndefined | VNull => VUndefined
  | _ => match get v name with Normal x => x | Throw _ => VUndefined end
  end.

(** [v?.[0]] *)
Definition first_opt (v : value) : value :=
  match v with
  | VArr (x :: _) => x
  | VStr (c :: _) => VStr [c]
  | VObj members =>
      match own_property (js "0") members with
      | Some x => x
      | None => VUndefined
      end
  | _ => VUndefined
  end.

(** ToString.  A plain object with an own member [toString] has no
    callable conversion left and throws; an array joins its elements, with
    [undefined] and [null] as the empty string. *)
Fixpoint toString (v : value) : completion jsstring :=
  match v with
  | VUndefined => Normal (js "undefined")
  | VNull => Normal (js "null")
  | VBool true => Normal (js "true")
  | VBool false => Normal (js "false")
  | VNum n => Normal (Num.toString (number_of n))
  | VStr s => Normal s
  | VArr items =>
      (fix join (l : list value) : completion jsstring :=
         match l with
         | [] => Normal []
         | x :: l' =>
             a <- match x with
                  | VUndefined | VNull => Normal []
                  | _ => toString x
                  end ;;
             match l' with
             | [] => Normal a
             | _ :: _ => b <- join l' ;; Normal (a ++ js "," ++ b)
             end
         end) items
  | VObj members =>
      match own_property (js "toString") members with
      | Some _ => Throw (TypeError "Cannot convert object to primitive value")
      | None => Normal (js "[object Object]")
      end
  | VNative name => Normal (js "function " ++ name ++ js "() { [native code] }")
  end.

(** [recv.trim()] on a receiver of any type. *)
Definition String_trim (recv : value) : completion jsstring :=
  match recv with
  | VStr s => Normal (trim s)
  | VUndefined | VNull => Throw (TypeError "Cannot read properties of undefined or null")
  | _ => Throw (TypeError "trim is not a function")
  end.

(** [recv.startsWith(p)] on a receiver of any type. *)
Definition String_startsWith (recv : value) (p : jsstring) : completion bool :=
  match recv with
  | VStr s => Normal (startsWith p s)
  | VUndefined | VNull => Throw (TypeError "Cannot read properties of undefined or null")
  | _ => Throw (TypeError "startsWith is not a function")
  end.

(** The receiver of [recv.replace(re, ...)], which must be a string. *)
Definition String_receiver (recv : value) : completion jsstring :=
  match recv with
  | VStr s => Normal s
  | VUndefined | VNull => Throw (TypeError "Cannot read properties of undefined or null")
  | _ => Throw (TypeError "replace is not a function")
  end.

(** [encodeURIComponent(s)]: unreserved code units are kept, every other
    code point is written as the percent-escapes of its UTF-8 bytes; a lone
    surrogate throws a URIError. *)
Definition isAlphaAscii (c : N) : bool := isUpperAscii c || isLowerAscii c.

Definition uriUnreserved (c : N) : bool :=
  isAlphaAscii c || isDigit c ||
  existsb (N.eqb c) (js "-_.!~*'()").

Definition hexDigit (n : N) : N := (if n <? 10 then 48 + n else 55 + n)%N.
Definition percent (b : N) : jsstring := [37; hexDigit (b / 16); hexDigit (b mod 16)]%N.

Definition utf8 (cp : N) : list N :=
  (if cp <? 128 then [cp]
   else if cp <? 2048 then [192 + cp / 64; 128 + cp mod 64]
   else if cp <? 65536 then [224 + cp / 4096; 128 + (cp / 64) mod 64; 128 + cp mod 64]
   else [240 + cp / 262144; 128 + (cp / 4096) mod 64; 128 + (cp / 64) mod 64; 128 + cp mod 64])%N.

Definition isHighSurrogate (c : N) : bool := ((55296 <=? c) && (c <=? 56319))%N.
Definition isLowSurrogate (c : N) : bool := ((56320 <=? c) && (c <=? 57343))%N.

Fixpoint encodeURIComponent (s : jsstring) : completion jsstring :=
  match s with
  | [] => Normal []
  | c :: s' =>
      if uriUnreserved c then r <- encodeURIComponent s' ;; Normal (c :: r)
      else if isLowSurrogate c then Throw (URIError "URI malformed")
      else if isHighSurrogate c then
        match s' with
        | d :: s'' =>
            if isLowSurrogate d then
              r <- encodeURIComponent s'' ;;
              Normal (flat_map percent (utf8 ((c - 55296) * 1024 + (d - 56320) + 65536)%N) ++ r)
            else Throw (URIError "URI malformed")
        | [] => Throw (URIError "URI malformed")
        end
      else r <- encodeURIComponent s' ;; Normal (flat_map percent (utf8 c) ++ r)
  end.

(* ================================================================== *)
(** ** Configuration *)
(* ================================================================== *)

Definition MAX_RESULTS : nat := 12.

(** The double quote, which a literal of this file cannot hold. *)
Definition dq : jsstring := [34%N].

Definition PLACEHOLDER_SVG : jsstring :=
  js "<svg xmlns=" ++ dq ++ js "http://www.w3.org/2000/svg" ++ dq ++
  js " width=" ++ dq ++ js "400" ++ dq ++ js " height=" ++ dq ++ js "500" ++ dq ++
  js " fill=" ++ dq ++ js "%23f5f5f5" ++ dq ++ js "><rect width=" ++ dq ++ js "400" ++ dq ++
  js " height=" ++ dq ++ js "500" ++ dq ++ js "/><text x=" ++ dq ++ js "200" ++ dq ++
  js " y=" ++ dq ++ js "240" ++ dq ++ js " text-anchor=" ++ dq ++ js "middle" ++ dq ++
  js " fill=" ++ dq ++ js "%239ca3af" ++ dq ++ js " font-family=" ++ dq ++ js "sans-serif" ++ dq ++
  js " font-size=" ++ dq ++ js "16" ++ dq ++ js ">No image</text></svg>".

Definition PLACEHOLDER_IMAGE : jsstring :=
  js "data:image/svg+xml," ++
  match encodeURIComponent PLACEHOLDER_SVG with
  | Normal s => s
  | Throw _ => []
  end.

(** An entry of [STORE_CONFIG]: Tier 1 entries have a [domain], Tier 2
    entries a [type]. *)
Record StoreConfig : Type := {
  cfg_name : jsstring;
  cfg_domain : option jsstring;
  cfg_type : option jsstring
}.

Definition shopify (n d : string) : StoreConfig :=
  {| cfg_name := js n; cfg_domain := Some (js d); cfg_type := None |}.
Definition api (n t : string) : StoreConfig :=
  {| cfg_name := js n; cfg_domain := None; cfg_type := Some (js t) |}.

Definition STORE_CONFIG : list (jsstring * StoreConfig) :=
  [ (js "whitefox", shopify "White Fox" "www.whitefoxboutique.com");
    (js "princesspolly", shopify "Princess Polly" "us.princesspolly.com");
    (js "reformation", shopify "Reformation" "www.thereformation.com");
    (js "showpo", shopify "Showpo" "www.showpo.com");
    (js "vici", shopify "Vici" "www.vicicollection.com");
    (js "altardstate", shopify "Altar'd State" "www.altardstate.com");
    (js "francescas", shopify "Francesca's" "www.francescas.com");
    (js "windsor", shopify "Windsor" "www.windsorstore.com");
    (js "asos", api "ASOS" "asos");
    (js "hm", api "H&M" "hm");
    (js "lulus", api "Lulus" "lulus");
    (js "nordstrom", api "Nordstrom" "nordstrom");
    (js "shein", api "SHEIN" "shein") ].

(** The property names [STORE_CONFIG] inherits from [Object.prototype]:
    each is a function or an object, hence truthy. *)
Definition OBJECT_PROTOTYPE : list jsstring :=
  map js [ "constructor"; "__defineGetter__"; "__defineSetter__"; "hasOwnProperty";
           "__lookupGetter__"; "__lookupSetter__"; "isPrototypeOf";
           "propertyIsEnumerable"; "toString"; "valueOf"; "__proto__";
           "toLocaleString" ]%string.

(** What [STORE_CONFIG[key]] evaluates to. *)
Inductive config_entry : Type :=
| Own (c : StoreConfig)
| Inherited (key : jsstring)
| Missing.

Fixpoint assoc {A : Type} (key : jsstring) (l : list (jsstring * A)) : option A :=
  match l with
  | [] => None
  | (k, a) :: l' => if str_eqb k key then Some a else assoc key l'
  end.

Definition lookup_config (key : jsstring) : config_entry :=
  match assoc key STORE_CONFIG with
  | Some c => Own c
  | None => if existsb (str_eqb key) OBJECT_PROTOTYPE then Inherited key else Missing
  end.

(** [STORE_CONFIG[storeId]]: the key is ToPropertyKey of [storeId]. *)
Definition STORE_CONFIG_get (storeId : value) : completion config_entry :=
  key <- toString storeId ;; Normal (lookup_config key).

(** [STORE_CONFIG[storeId]?.name || storeId]: the [name] of an inherited
    method is its own name, that of [constructor] is [Object], and
    [Object.prototype] itself has none. *)
Definition display_name (e : config_entry) (storeId : value) : value :=
  match e with
  | Own c => or_else (VStr (cfg_name c)) storeId
  | Inherited key =>
      if str_eqb key (js "constructor") then VStr (js "Object")
      else if str_eqb key (js "__proto__") then storeId
      else VStr key
  | Missing => storeId
  end.

(* ================================================================== *)
(** ** The platform *)
(* ================================================================== *)

(** The library functions the program calls and this development does not
    define: [JSON.parse], the [URL] constructor, and cheerio (the document
    loaded from a page, its selections in document order, and the accessors
    of an element).  Nothing is assumed about them. *)
Record Platform : Type := {
  JSON_parse : jsstring -> completion value;
  new_URL : jsstring -> completion unit;
  Doc : Type;
  Elem : Type;
  cheerio_load : value -> completion Doc;
  cheerio_select : Doc -> jsstring -> list Elem;
  cheerio_find : Elem -> jsstring -> list Elem;
  cheerio_html : Elem -> option jsstring;
  cheerio_attr : Elem -> jsstring -> option jsstring;
  cheerio_text : Elem -> jsstring
}.

(** What [axios.get] does with a request: it rejects without a response
    (timeout, DNS failure, connection refused, ...), or a response arrives
    with a status and a body ([data], a string or the parsed JSON). *)
Inductive axios_outcome : Type :=
| NetworkError (msg : jsstring)
| Response (status : N) (data : value).

(** The surroundings of one store's task: what the network answers to a
    GET of a URL, and the identifiers [generateProductId] returns, by the
    position of the formatted record. *)
Record TaskEnv : Type := {
  axios_get : jsstring -> axios_outcome;
  generateProductId : nat -> jsstring
}.

(* ================================================================== *)
(** ** Helper functions *)
(* ================================================================== *)

Definition isCurrencySymbol (c : N) : bool := ((c =? 36) || (c =? 163) || (c =? 8364))%N.
Definition isDigitOrComma (c : N) : bool := isDigit c || (c =? 44)%N.
Definition isDigitOrDot (c : N) : bool := isDigit c || (c =? 46)%N.

(** [/from/gi] *)
Definition re_from : Re.regex := Re.lit_i "from".
(** [/usd|us\$|aud|gbp|eur|cad/gi] *)
Definition re_currency : Re.regex :=
  Re.alt_of [Re.lit_i "usd"; Re.lit_i "us$"; Re.lit_i "aud"; Re.lit_i "gbp";
             Re.lit_i "eur"; Re.lit_i "cad"].
(** [/[\$£€]?\s*[\d,]+\.?\d*/] *)
Definition re_price : Re.regex :=
  Re.seq_of [Re.Opt (Re.Cls isCurrencySymbol); Re.Star isSpace; Re.plus isDigitOrComma;
             Re.Opt (Re.chr 46); Re.Star isDigit].
(** [/,/g] *)
Definition re_comma : Re.regex := Re.chr 44.
(** [/^[\$£€]/] *)
Definition re_symbol_start : Re.regex := Re.Seq Re.Bol (Re.Cls isCurrencySymbol).
(** [/[^0-9.]/g] *)
Definition re_not_numeric : Re.regex := Re.Cls (fun c => negb (isDigitOrDot c)).

(** The text the price pattern is matched against: the trimmed input
    without the upper bound of a range, the word [from] and the currency
    codes. *)
Definition price_text (cleaned : jsstring) : jsstring :=
  let cleaned :=
    if includes (js " - ") cleaned then trim (split_head (js " - ") cleaned)
    else cleaned in
  let cleaned :=
    if includes (js "from") (toLowerCase cleaned)
    then trim (Re.replace_all re_from [] cleaned)
    else cleaned in
  trim (Re.replace_all re_currency [] cleaned).

(** [price], from [match[0]]. *)
Definition price_display (m0 : jsstring) : jsstring :=
  let price := Re.replace_all re_comma [] (trim m0) in
  if negb (Re.test re_symbol_start price) then js "$" ++ price else price.

(** [numVal] *)
Definition price_value (price : jsstring) : Num.number :=
  Num.parseFloat (Re.replace_all re_not_numeric [] price).

(** [cleanPrice] once [priceStr] is known to be a string and trimmed. *)
Definition cleanPrice_trimmed (cleaned : jsstring) : value :=
  match cleaned with
  | [] => VNull
  | _ :: _ =>
      match Re.match0 re_price (price_text cleaned) with
      | Some m0 =>
          let price := price_display m0 in
          let numVal := price_value price in
          if Num.gtb numVal (Num.of_N 0) && Num.ltb numVal (Num.of_N 50000)
          then VStr price
          else VNull
      | None => VNull
      end
  end.

Definition cleanPrice (priceStr : value) : completion value :=
  if negb (truthy priceStr) || negb (is_string priceStr) then Normal VNull
  else
    cleaned <- String_trim priceStr ;;
    Normal (cleanPrice_trimmed cleaned).

Definition isBreak (c : N) : bool := ((c =? 10) || (c =? 13) || (c =? 9))%N.

(** [/[\n\r\t]+/g] *)
Definition re_breaks : Re.regex := Re.plus isBreak.
(** [/\s+/g] *)
Definition re_spaces : Re.regex := Re.plus isSpace.
(** [/^(new|sale|hot|best seller)[:\s-]*/gi] *)
Definition re_promo : Re.regex :=
  Re.seq_of [Re.Bol;
             Re.Grp 1 (Re.alt_of [Re.lit_i "new"; Re.lit_i "sale"; Re.lit_i "hot";
                                  Re.lit_i "best seller"]);
             Re.Star (fun c => (c =? 58)%N || isSpace c || (c =? 45)%N)].

Definition space : list Re.piece := [Re.Lit (js " ")].

(** [cleanTitle] once [title] is known to be a string and trimmed. *)
Definition cleanTitle_trimmed (maxLength : nat) (trimmed : jsstring) : jsstring :=
  let cleaned := Re.replace_all re_spaces space (Re.replace_all re_breaks space trimmed) in
  let cleaned := trim (Re.replace_all re_promo [] cleaned) in
  if maxLength <? List.length cleaned
  then substring0 (maxLength - 3) cleaned ++ js "..."
  else cleaned.

Definition cleanTitle_max (title : value) (maxLength : nat) : completion jsstring :=
  if negb (truthy title) || negb (is_string title) then Normal (js "Unknown Product")
  else
    trimmed <- String_trim title ;;
    Normal (cleanTitle_trimmed maxLength trimmed).

(** [cleanTitle(title)]: every call of the source leaves [maxLength] at its
    default, 120. *)
Definition cleanTitle (title : value) : completion jsstring := cleanTitle_max title 120.

(** [/placeholder|blank\.gif|1x1|spacer/i] *)
Definition re_placeholder : Re.regex :=
  Re.alt_of [Re.lit_i "placeholder"; Re.lit_i "blank.gif"; Re.lit_i "1x1"; Re.lit_i "spacer"].

Section Program.

Variable P : Platform.

Definition cleanImageUrl (url : value) : completion value :=
  if negb (truthy url) || negb (is_string url) then Normal VNull
  else
    cleaned <- String_trim url ;;
    let cleaned := if startsWith (js "//") cleaned then js "https:" ++ cleaned else cleaned in
    if startsWith (js "data:") cleaned then Normal VNull
    else if Re.test re_placeholder cleaned then Normal VNull
    else try_catch (_ <- new_URL P cleaned ;; Normal (VStr cleaned))
                   (fun _ => Normal VNull).

(** The object literal handed to [formatProduct]. *)
Record Candidate : Type := {
  data_title : value;
  data_price : value;
  data_image : value;
  data_link : value
}.

Record Product : Type := {
  id : jsstring;
  store : value;
  storeName : jsstring;
  title : jsstring;
  price : value;
  image : jsstring;
  link : value
}.

(** [formatProduct(data, storeName, storeId)]; [None] is [null], and
    [fresh] is what [generateProductId()] returns for this call. *)
Definition formatProduct (fresh : jsstring) (data : Candidate) (storeName : jsstring)
  (storeId : value) : completion (option Product) :=
  if negb (truthy (data_title data)) && negb (truthy (data_link data)) then Normal None
  else
    t <- cleanTitle (data_title data) ;;
    p <- cleanPrice (data_price data) ;;
    i <- cleanImageUrl (data_image data) ;;
    Normal (Some {|
      id := fresh;
      store := storeId;
      storeName := storeName;
      title := match t with [] => js "Unknown Product" | _ :: _ => t end;
      price := or_else (or_else p (data_price data)) (VStr (js "See price"));
      image := match i with VStr s => match s with [] => PLACEHOLDER_IMAGE | _ :: _ => s end
                          | _ => PLACEHOLDER_IMAGE end;
      link := or_else (data_link data) (VStr (js "#"))
    |}).

Definition value_is (v : value) (s : jsstring) : bool :=
  match v with VStr t => str_eqb t s | _ => false end.

(** The predicate of [filterValidProducts]:
    [p !== null && p.title && p.title !== 'Unknown Product' && p.link && p.link !== '#']. *)
Definition validProduct (p : option Product) : bool :=
  match p with
  | None => false
  | Some p =>
      match title p with [] => false | _ :: _ => true end
      && negb (str_eqb (title p) (js "Unknown Product"))
      && truthy (link p)
      && negb (value_is (link p) (js "#"))
  end.

Fixpoint filterValidProducts (products : list (option Product)) : list Product :=
  match products with
  | [] => []
  | None :: rest => filterValidProducts rest
  | Some p :: rest =>
      if validProduct (Some p) then p :: filterValidProducts rest
      else filterValidProducts rest
  end.

(** [axios.get(url, { ..., validateStatus: s => s < 500 })]: a status of
    500 or more is rejected by axios itself. *)
Definition axios_request (env : TaskEnv) (url : jsstring) : completion (N * value) :=
  match axios_get env url with
  | NetworkError msg => Throw (Thrown (js "AxiosError") msg)
  | Response status data =>
      if (500 <=? status)%N
      then Throw (Thrown (js "AxiosError")
                    (js "Request failed with status code " ++ Num.digits_of_N status))
      else Normal (status, data)
  end.

Definition fetchJSON (env : TaskEnv) (url : jsstring) : completion value :=
  response <- axios_request env url ;;
  let '(status, data) := response in
  if (400 <=? status)%N then Throw (PlainError (js "HTTP " ++ Num.digits_of_N status))
  else
    match data with
    | VStr s => JSON_parse P s
    | _ => Normal data
    end.

Definition fetchHTML (env : TaskEnv) (url : jsstring) : completion (Doc P) :=
  response <- axios_request env url ;;
  let '(status, data) := response in
  if (400 <=? status)%N then Throw (PlainError (js "HTTP " ++ Num.digits_of_N status))
  else cheerio_load P data.

(* ------------------------------------------------------------------ *)
(** *** Shopify stores (Tier 1) *)

Definition notLineTerminator (c : N) : bool :=
  negb ((c =? 10) || (c =? 13) || (c =? 8232) || (c =? 8233))%N.

(** [/(_\d+x\d+)?\.(jpg|png|webp)Q?$/] where [Q] is the group [(\?.* )] without the blank. *)
Definition re_image_size : Re.regex :=
  Re.seq_of [Re.Opt (Re.Grp 1 (Re.seq_of [Re.chr 95; Re.plus isDigit; Re.chr 120; Re.plus isDigit]));
             Re.chr 46;
             Re.Grp 2 (Re.alt_of [Re.lit "jpg"; Re.lit "png"; Re.lit "webp"]);
             Re.Opt (Re.Grp 3 (Re.Seq (Re.chr 63) (Re.Star notLineTerminator)));
             Re.Eol].

(** The price mapping of the Tier 1 adapter, for [rawPrice = p.price ??
    p.price_min ?? null]. *)
Definition shopifyPrice (rawPrice : value) : completion jsstring :=
  if nullish rawPrice then Normal (js "See price")
  else
    s <- toString rawPrice ;;
    let numPrice := Num.parseFloat s in
    if negb (Num.isNaN numPrice) && Num.gtb numPrice (Num.of_N 0) then
      priceStr <- toString rawPrice ;;
      let isCents :=
        Num.isInteger numPrice && Num.gtb numPrice (Num.of_N 100)
        && negb (includes (js ".") priceStr) in
      let dollars := if isCents then Num.div numPrice (Num.of_N 100) else numPrice in
      Normal (js "$" ++ Num.toFixed 2 dollars)
    else Normal (js "See price").

(** The callback of [products.slice(0, MAX_RESULTS).map(...)]. *)
Definition shopifyItem (env : TaskEnv) (baseUrl storeName : jsstring) (storeId : value)
  (k : nat) (p : value) : completion (option Product) :=
  p_image <- get p "image" ;;
  featured <- get p "featured_image" ;;
  let image :=
    or_else (or_else (or_else p_image (get_opt featured "url")) featured) (VStr []) in
  image <-
    (if truthy image then
       http <- String_startsWith image (js "http") ;;
       s <- String_receiver image ;;
       let s := if negb http then js "https:" ++ s else s in
       Normal (Re.replace_first re_image_size
                 [Re.Lit (js "_600x."); Re.Ref 2; Re.Ref 3] s)
     else Normal []) ;;
  p_price <- get p "price" ;;
  p_price_min <- get p "price_min" ;;
  price <- shopifyPrice (coalesce (coalesce p_price p_price_min) VNull) ;;
  p_title <- get p "title" ;;
  p_url <- get p "url" ;;
  url <- toString p_url ;;
  formatProduct (generateProductId env k)
    {| data_title := p_title;
       data_price := VStr price;
       data_image := VStr image;
       data_link := VStr (baseUrl ++ url) |}
    storeName storeId.

Definition max_results_text : jsstring := Num.digits_of_N (N.of_nat MAX_RESULTS).

Definition shopifyUrl (baseUrl query : jsstring) : completion jsstring :=
  q <- encodeURIComponent query ;;
  Normal (baseUrl ++ js "/search/suggest.json?q=" ++ q
          ++ js "&resources[type]=product&resources[limit]=" ++ max_results_text
          ++ js "&resources[options][unavailable_products]=hide").

(** [scrapeShopifyStore(query, storeId)].  When [products] is truthy and
    no array, either its [length] is not above 0 or [slice(...).map] is no
    function and the TypeError is caught: the result is [[]] both ways. *)
Definition scrapeShopifyStore (env : TaskEnv) (query : jsstring) (storeId : value)
  : completion (list Product) :=
  config <- STORE_CONFIG_get storeId ;;
  match config with
  | Own c =>
      match cfg_domain c with
      | Some ((_ :: _) as domain) =>
          let storeName := cfg_name c in
          let baseUrl := js "https://" ++ domain in
          try_catch
            (apiUrl <- shopifyUrl baseUrl query ;;
             data <- fetchJSON env apiUrl ;;
             let products :=
               or_else (get_opt (get_opt (get_opt data "resources") "results") "products")
                       (VArr []) in
             match products with
             | VArr ((_ :: _) as items) =>
                 formatted <- mapM (shopifyItem env baseUrl storeName storeId)
                                (firstn MAX_RESULTS items) ;;
                 Normal (filterValidProducts formatted)
             | _ => Normal []
             end)
            (fun e => Normal [])
      | _ => Normal []
      end
  | Inherited _ | Missing => Normal []
  end.

(* ------------------------------------------------------------------ *)
(** *** API stores (Tier 2) *)

Definition asosUrl (query : jsstring) : completion jsstring :=
  q <- encodeURIComponent query ;;
  Normal (js "https://www.asos.com/api/product/search/v2/categories/4209?q=" ++ q
          ++ js "&store=US&lang=en-US&currency=USD&rowlength=4&channel=mobile-web&country=US&limit="
          ++ max_results_text ++ js "&offset=0").

(** [/^\/\//] *)
Definition re_leading_slashes : Re.regex := Re.seq_of [Re.Bol; Re.chr 47; Re.chr 47].

Definition asosItem (env : TaskEnv) (storeName : jsstring) (storeId : value)
  (k : nat) (p : value) : completion (option Product) :=
  imageUrl <- get p "imageUrl" ;;
  images <- get p "images" ;;
  let imageBase := or_else (or_else imageUrl (get_opt (first_opt images) "url")) (VStr []) in
  image <-
    (if truthy imageBase then
       s <- String_receiver imageBase ;;
       Normal (js "https://" ++ Re.replace_first re_leading_slashes [] s)
     else Normal []) ;;
  p_name <- get p "name" ;;
  title <-
    (if truthy p_name then Normal p_name
     else
       brandName <- get p "brandName" ;;
       b <- toString brandName ;;
       description <- get p "description" ;;
       d <- toString description ;;
       Normal (VStr (b ++ js " " ++ d))) ;;
  p_price <- get p "price" ;;
  let current := get_opt p_price "current" in
  price <-
    (if truthy (get_opt current "text") then Normal (get_opt current "text")
     else
       v <- toString (or_else (get_opt current "value") (VStr [])) ;;
       Normal (VStr (js "$" ++ v))) ;;
  p_url <- get p "url" ;;
  path <-
    (if truthy p_url then toString p_url
     else
       p_id <- get p "id" ;;
       i <- toString p_id ;;
       Normal (js "us/prd/" ++ i)) ;;
  formatProduct (generateProductId env k)
    {| data_title := title;
       data_price := price;
       data_image := VStr image;
       data_link := VStr (js "https://www.asos.com/" ++ path) |}
    storeName storeId.

Definition scrapeASOS (env : TaskEnv) (query : jsstring) : completion (list Product) :=
  let storeName := js "ASOS" in
  let storeId := VStr (js "asos") in
  try_catch
    (apiUrl <- asosUrl query ;;
     data <- fetchJSON env apiUrl ;;
     let products := or_else (get_opt data "products") (VArr []) in
     match products with
     | VArr ((_ :: _) as items) =>
         formatted <- mapM (asosItem env storeName storeId) (firstn MAX_RESULTS items) ;;
         Normal (filterValidProducts formatted)
     | _ => Normal []
     end)
    (fun e => Normal []).

(** The loop [for (const item of items) { if (products.length >=
    MAX_RESULTS) break; products.push(f(item)); }] inside a [try] whose
    [catch] skips the rest: the records pushed before a throw stay in
    [products]. *)
Fixpoint push_each (f : nat -> value -> completion (option Product)) (items : list value)
  (products : list (option Product)) : list (option Product) :=
  match items with
  | [] => products
  | item :: rest =>
      if MAX_RESULTS <=? List.length products then products
      else
        match f (List.length products) item with
        | Normal p => push_each f rest (products ++ [p])
        | Throw _ => products
        end
  end.

(** [$(el).html() || ''] *)
Definition script_text (el : Elem P) : jsstring :=
  match cheerio_html P el with
  | Some s => s
  | None => []
  end.

Definition hmUrl (query : jsstring) : completion jsstring :=
  q <- encodeURIComponent query ;;
  Normal (js "https://www2.hm.com/en_us/search-results.html?q=" ++ q).

Definition quoted (s : string) : jsstring := dq ++ js s ++ dq.

(** [/"products"\s*:\s*(\[[\s\S]*?\])\s*[,}]/] *)
Definition re_hm_products : Re.regex :=
  Re.seq_of (map Re.chr (quoted "products") ++
             [Re.Star isSpace; Re.chr 58; Re.Star isSpace;
              Re.Grp 1 (Re.seq_of [Re.chr 91; Re.StarLazy (fun _ => true); Re.chr 93]);
              Re.Star isSpace;
              Re.Cls (fun c => (c =? 44) || (c =? 125))%N]).

Definition hmItem (env : TaskEnv) (storeName : jsstring) (storeId : value)
  (k : nat) (item : value) : completion (option Product) :=
  i_title <- get item "title" ;;
  i_name <- get item "name" ;;
  i_price <- get item "price" ;;
  whitePrice <- get item "whitePrice" ;;
  redPrice <- get item "redPrice" ;;
  i_image <- get item "image" ;;
  images <- get item "images" ;;
  defaultArticle <- get item "defaultArticle" ;;
  swatchesLink <- get item "swatchesLink" ;;
  i_link <- get item "link" ;;
  link <-
    (if truthy (or_else swatchesLink i_link) then
       l <- toString (or_else swatchesLink i_link) ;;
       Normal (js "https://www2.hm.com" ++ l)
     else Normal []) ;;
  formatProduct (generateProductId env k)
    {| data_title := or_else i_title i_name;
       data_price := or_else (or_else i_price (get_opt whitePrice "formattedValue"))
                             (get_opt redPrice "formattedValue");
       data_image := or_else (or_else i_image (get_opt (first_opt images) "src"))
                             (get_opt (first_opt (get_opt defaultArticle "images")) "src");
       data_link := VStr link |}
    storeName storeId.

(** The items a [for ... of] loop draws from a value parsed from a text
    that starts with a bracket: those of the array. *)
Definition array_items (v : value) : list value :=
  match v with
  | VArr items => items
  | _ => []
  end.

(** One script element of the H&M page. *)
Definition hmScript (env : TaskEnv) (storeName : jsstring) (storeId : value)
  (products : list (option Product)) (el : Elem P) : list (option Product) :=
  let text := script_text el in
  if includes (js "productArticleDetails") text || includes (quoted "products") text then
    match Re.match_group re_hm_products 1 text with
    | Some json =>
        match JSON_parse P json with
        | Normal items => push_each (hmItem env storeName storeId) (array_items items) products
        | Throw _ => products
        end
    | None => products
    end
  else products.

Definition scrapeHM (env : TaskEnv) (query : jsstring) : completion (list Product) :=
  let storeName := js "H&M" in
  let storeId := VStr (js "hm") in
  try_catch
    (apiUrl <- hmUrl query ;;
     doc <- fetchHTML env apiUrl ;;
     let products := fold_left (hmScript env storeName storeId) (cheerio_select P doc (js "script")) [] in
     Normal (filterValidProducts products))
    (fun e => Normal []).

Definition lulusUrl (query : jsstring) : completion jsstring :=
  q <- encodeURIComponent query ;;
  Normal (js "https://www.lulus.com/search?q=" ++ q).

(** [$el.find(sel).first().attr(name)]: [undefined] on an empty selection
    or a missing attribute. *)
Definition first_attr (els : list (Elem P)) (a : string) : value :=
  match els with
  | el :: _ => match cheerio_attr P el (js a) with Some s => VStr s | None => VUndefined end
  | [] => VUndefined
  end.

(** [$el.find(sel).first().text()]: empty on an empty selection. *)
Definition first_text (els : list (Elem P)) : jsstring :=
  match els with
  | el :: _ => cheerio_text P el
  | [] => []
  end.

Definition string_of (v : value) : jsstring :=
  match v with VStr s => s | _ => [] end.

Definition lulusSelectors : list jsstring :=
  [ js ".product-card"; js ".product-tile";
    js "[class*=" ++ quoted "product-card" ++ js "]";
    js "a[href*=" ++ quoted "/product/" ++ js "]" ].

(** The callback of [$(sel).each((i, el) => ...)]: the record pushed for
    one element, if any.  Every value it handles is a string. *)
Definition lulusElement (env : TaskEnv) (storeName : jsstring) (storeId : value)
  (k : nat) (el : Elem P) : completion (list (option Product)) :=
  let link :=
    string_of
      (or_else (or_else (first_attr (cheerio_find P el (js "a[href*=" ++ quoted "/product/" ++ js "]")) "href")
                        (match cheerio_attr P el (js "href") with Some s => VStr s | None => VUndefined end))
               (VStr [])) in
  let link :=
    match link with
    | [] => link
    | _ :: _ => if negb (startsWith (js "http") link) then js "https://www.lulus.com" ++ link else link
    end in
  let title :=
    string_of
      (or_else (or_else (VStr (trim (first_text (cheerio_find P el (js ".product-name, .product-title, h3")))))
                        (first_attr (cheerio_find P el (js "a")) "title"))
               (VStr [])) in
  let price := trim (first_text (cheerio_find P el (js ".price, [class*=" ++ quoted "price" ++ js "]"))) in
  let image :=
    string_of
      (or_else (or_else (first_attr (cheerio_find P el (js "img")) "src")
                        (first_attr (cheerio_find P el (js "img")) "data-src"))
               (VStr [])) in
  let image := if startsWith (js "//") image then js "https:" ++ image else image in
  match title, link with
  | _ :: _, _ :: _ =>
      p <- formatProduct (generateProductId env k)
             {| data_title := VStr title; data_price := VStr price;
                data_image := VStr image; data_link := VStr link |}
             storeName storeId ;;
      Normal [p]
  | _, _ => Normal []
  end.

(** [$(sel).each((i, el) => { if (i >= MAX_RESULTS) return; ... })] *)
Fixpoint lulusEach (env : TaskEnv) (storeName : jsstring) (storeId : value)
  (i : nat) (els : list (Elem P)) (products : list (option Product))
  : completion (list (option Product)) :=
  match els with
  | [] => Normal products
  | el :: rest =>
      if MAX_RESULTS <=? i then lulusEach env storeName storeId (S i) rest products
      else
        pushed <- lulusElement env storeName storeId (List.length products) el ;;
        lulusEach env storeName storeId (S i) rest (products ++ pushed)
  end.

(** [for (const sel of selectors) { if (products.length > 0) break; ... }] *)
Fixpoint lulusSelect (env : TaskEnv) (storeName : jsstring) (storeId : value)
  (doc : Doc P) (selectors : list jsstring) (products : list (option Product))
  : completion (list (option Product)) :=
  match selectors with
  | [] => Normal products
  | sel :: rest =>
      match products with
      | _ :: _ => Normal products
      | [] =>
          products' <- lulusEach env storeName storeId 0 (cheerio_select P doc sel) products ;;
          lulusSelect env storeName storeId doc rest products'
      end
  end.

Definition scrapeLulus (env : TaskEnv) (query : jsstring) : completion (list Product) :=
  let storeName := js "Lulus" in
  let storeId := VStr (js "lulus") in
  try_catch
    (searchUrl <- lulusUrl query ;;
     doc <- fetchHTML env searchUrl ;;
     products <- lulusSelect env storeName storeId doc lulusSelectors [] ;;
     Normal (filterValidProducts products))
    (fun e => Normal []).

Definition nordstromUrl (query : jsstring) : completion jsstring :=
  q <- encodeURIComponent query ;;
  Normal (js "https://www.nordstrom.com/sr?origin=keywordsearch&keyword=" ++ q
          ++ js "&filterByGender=Women").

(** A property key that is an array index: the canonical numeral of an
    integer below [2^32 - 1]. *)
Definition array_index (k : jsstring) : option N :=
  match k with
  | [] => None
  | c :: rest =>
      if forallb isDigit k
         && (negb (c =? 48)%N || match rest with [] => true | _ :: _ => false end)
         && (Num.value_of_digits k <? 4294967295)%N
      then Some (Num.value_of_digits k)
      else None
  end.

Fixpoint distinct_keys (seen : list jsstring) (members : list (jsstring * value))
  : list jsstring :=
  match members with
  | [] => []
  | (k, _) :: rest =>
      if existsb (str_eqb k) seen then distinct_keys seen rest
      else k :: distinct_keys (k :: seen) rest
  end.

Fixpoint insert_index (k : jsstring) (n : N) (sorted : list (jsstring * N))
  : list (jsstring * N) :=
  match sorted with
  | [] => [(k, n)]
  | (k', n') :: rest =>
      if (n <? n')%N then (k, n) :: sorted else (k', n') :: insert_index k n rest
  end.

(** The own property keys of an object in the order [Object.values]
    enumerates them: array indices in ascending order, then the other keys in
    the order they were first created. *)
Definition own_keys (members : list (jsstring * value)) : list jsstring :=
  let keys := distinct_keys [] members in
  let indices :=
    fold_left (fun acc k => match array_index k with
                            | Some n => insert_index k n acc
                            | None => acc
                            end) keys [] in
  map fst indices ++
  filter (fun k => match array_index k with Some _ => false | None => true end) keys.

(** [Object.values(v)] for a value that is neither [undefined] nor [null]. *)
Definition Object_values (v : value) : list value :=
  match v with
  | VObj members =>
      flat_map (fun k => match own_property k members with Some x => [x] | None => [] end)
               (own_keys members)
  | VArr items => items
  | VStr s => map (fun c => VStr [c]) s
  | _ => []
  end.

Definition nordstromItem (env : TaskEnv) (storeName : jsstring) (storeId : value)
  (k : nat) (item : value) : completion (option Product) :=
  product <- get item "product" ;;
  let p := or_else product item in
  brandName <- get p "brandName" ;;
  productName <- get p "productName" ;;
  p_name <- get p "name" ;;
  brand <- toString (or_else brandName (VStr [])) ;;
  pname <- toString (or_else (or_else productName p_name) (VStr [])) ;;
  currentPriceString <- get p "currentPriceString" ;;
  priceString <- get p "priceString" ;;
  currentPrice <- get p "currentPrice" ;;
  p_price <- get p "price" ;;
  price <-
    (if truthy (or_else currentPriceString priceString)
     then Normal (or_else currentPriceString priceString)
     else
       v <- toString (or_else (or_else currentPrice p_price) (VStr [])) ;;
       Normal (VStr (js "$" ++ v))) ;;
  imageUrl <- get p "imageUrl" ;;
  mediaUrl <- get p "mediaUrl" ;;
  images <- get p "images" ;;
  productPageUrl <- get p "productPageUrl" ;;
  link <-
    (if truthy productPageUrl then
       u <- toString productPageUrl ;;
       Normal (js "https://www.nordstrom.com" ++ u)
     else
       p_id <- get p "id" ;;
       i <- toString (or_else p_id (VStr [])) ;;
       Normal (js "https://www.nordstrom.com/s/" ++ i)) ;;
  formatProduct (generateProductId env k)
    {| data_title := VStr (trim (brand ++ js " " ++ pname));
       data_price := price;
       data_image := or_else (or_else (or_else imageUrl mediaUrl)
                                      (get_opt (first_opt images) "url")) (VStr []);
       data_link := VStr link |}
    storeName storeId.

(** [JSON.parse($(el).html())]: a [null] argument is converted to the
    text [null]. *)
Definition parse_html (el : Elem P) : completion value :=
  match cheerio_html P el with
  | Some s => JSON_parse P s
  | None => JSON_parse P (js "null")
  end.

(** One script element of the Nordstrom page. *)
Definition nordstromScript (env : TaskEnv) (storeName : jsstring) (storeId : value)
  (products : list (option Product)) (el : Elem P) : list (option Product) :=
  match parse_html el with
  | Normal data =>
      let pageProps := get_opt (get_opt data "props") "pageProps" in
      let searchResults :=
        or_else (or_else (get_opt (get_opt pageProps "searchResults") "productsById")
                         (get_opt pageProps "products"))
                (VObj []) in
      push_each (nordstromItem env storeName storeId) (Object_values searchResults) products
  | Throw _ => products
  end.

Definition scrapeNordstrom (env : TaskEnv) (query : jsstring) : completion (list Product) :=
  let storeName := js "Nordstrom" in
  let storeId := VStr (js "nordstrom") in
  try_catch
    (searchUrl <- nordstromUrl query ;;
     doc <- fetchHTML env searchUrl ;;
     let products :=
       fold_left (nordstromScript env storeName storeId)
         (cheerio_select P doc (js "script#__NEXT_DATA__, script[type=" ++ quoted "application/json" ++ js "]"))
         [] in
     Normal (filterValidProducts products))
    (fun e => Normal []).

Definition sheinUrl (query : jsstring) : completion jsstring :=
  q <- encodeURIComponent query ;;
  Normal (js "https://us.shein.com/pdsearch/" ++ q ++ js "/").

Definition notBracket (c : N) : bool := negb ((c =? 91) || (c =? 93))%N.

(** [/\[\{[^[\]]*"key"[^[\]]*\}\]/g] *)
Definition re_shein (key : string) : Re.regex :=
  Re.seq_of ([Re.chr 91; Re.chr 123; Re.Star notBracket] ++ map Re.chr (quoted key) ++
             [Re.Star notBracket; Re.chr 125; Re.chr 93]).

Definition sheinItem (env : TaskEnv) (storeName : jsstring) (storeId : value)
  (k : nat) (item : value) : completion (option Product) :=
  goods_name <- get item "goods_name" ;;
  i_title <- get item "title" ;;
  i_name <- get item "name" ;;
  salePrice <- get item "salePrice" ;;
  sale_price <- get item "sale_price" ;;
  retail_price <- get item "retail_price" ;;
  price <-
    (if truthy (get_opt salePrice "amount") then
       amount <- get salePrice "amount" ;;
       a <- toString amount ;;
       Normal (VStr (js "$" ++ a))
     else Normal (or_else (or_else sale_price retail_price) (VStr []))) ;;
  goods_img <- get item "goods_img" ;;
  i_image <- get item "image" ;;
  goods_url_name <- get item "goods_url_name" ;;
  goods_id <- get item "goods_id" ;;
  link <-
    (if truthy goods_url_name then
       n <- toString goods_url_name ;;
       i <- toString goods_id ;;
       Normal (js "https://us.shein.com/" ++ n ++ js "-p-" ++ i ++ js ".html")
     else
       i <- toString (or_else goods_id (VStr [])) ;;
       Normal (js "https://us.shein.com/p-" ++ i ++ js ".html")) ;;
  formatProduct (generateProductId env k)
    {| data_title := or_else (or_else goods_name i_title) i_name;
       data_price := price;
       data_image := or_else (or_else goods_img i_image) (VStr []);
       data_link := VStr link |}
    storeName storeId.

(** [for (const match of matches) { try { ... } catch { } }] *)
Definition sheinMatch (env : TaskEnv) (storeName : jsstring) (storeId : value)
  (products : list (option Product)) (m : jsstring) : list (option Product) :=
  match JSON_parse P m with
  | Normal items => push_each (sheinItem env storeName storeId) (array_items items) products
  | Throw _ => products
  end.

(** One script element of the SHEIN page. *)
Definition sheinScript (env : TaskEnv) (storeName : jsstring) (storeId : value)
  (products : list (option Product)) (el : Elem P) : list (option Product) :=
  let text := script_text el in
  if includes (js "productListData") text || includes (js "goods_id") text then
    let matches :=
      match Re.match_all (re_shein "goods_id") text with
      | (_ :: _) as ms => ms
      | [] => Re.match_all (re_shein "goods_sn") text
      end in
    fold_left (sheinMatch env storeName storeId) matches products
  else products.

Definition scrapeShein (env : TaskEnv) (query : jsstring) : completion (list Product) :=
  let storeName := js "SHEIN" in
  let storeId := VStr (js "shein") in
  try_catch
    (searchUrl <- sheinUrl query ;;
     doc <- fetchHTML env searchUrl ;;
     let products := fold_left (sheinScript env storeName storeId) (cheerio_select P doc (js "script")) [] in
     Normal (filterValidProducts products))
    (fun e => Normal []).

(* ------------------------------------------------------------------ *)
(** *** Main search router *)

Definition searchStore (env : TaskEnv) (storeId : value) (query : jsstring)
  : completion (list Product) :=
  config <- STORE_CONFIG_get storeId ;;
  match config with
  | Missing => Normal []
  | Inherited _ => Normal []
  | Own c =>
      match cfg_domain c with
      | Some (_ :: _) => scrapeShopifyStore env query storeId
      | _ =>
          match cfg_type c with
          | Some t =>
              if str_eqb t (js "asos") then scrapeASOS env query
              else if str_eqb t (js "hm") then scrapeHM env query
              else if str_eqb t (js "lulus") then scrapeLulus env query
              else if str_eqb t (js "nordstrom") then scrapeNordstrom env query
              else if str_eqb t (js "shein") then scrapeShein env query
              else Normal []
          | None => Normal []
          end
      end
  end.

(* ------------------------------------------------------------------ *)
(** *** Vercel handler *)

Record Request : Type := {
  method : jsstring;
  body : value
}.

Record StoreResult : Type := {
  store_id : value;
  store_name : value;
  results : list Product;
  error : value;
  count : nat
}.

Record SearchResponse : Type := {
  query : jsstring;
  category : value;
  timestamp : jsstring;
  stores : list StoreResult
}.

Inductive Payload : Type :=
| NoBody
| ErrorBody (msg : jsstring)
| SearchBody (r : SearchResponse).

(** What the handler sends: the CORS headers are set on every response. *)
Record HttpResponse : Type := {
  headers : list (jsstring * jsstring);
  status : N;
  payload : Payload
}.

Definition CORS : list (jsstring * jsstring) :=
  [ (js "Access-Control-Allow-Origin", js "*");
    (js "Access-Control-Allow-Methods", js "POST, OPTIONS");
    (js "Access-Control-Allow-Headers", js "Content-Type") ].

Definition respond (code : N) (p : Payload) : HttpResponse :=
  {| headers := CORS; status := code; payload := p |}.

(** [stores.filter(id => STORE_CONFIG[id])] *)
Fixpoint validStores (ids : list value) : completion (list value) :=
  match ids with
  | [] => Normal []
  | storeId :: rest =>
      config <- STORE_CONFIG_get storeId ;;
      valid <- validStores rest ;;
      match config with
      | Missing => Normal valid
      | Own _ | Inherited _ => Normal (storeId :: valid)
      end
  end.

(** What a settled store task leaves in [storeResults]:
    [.then(results => ({ storeId, results, error: null }))] and
    [.catch(error => ({ storeId, results: [], error: error.message }))]. *)
Definition settle (task : completion (list Product)) : list Product * value :=
  match task with
  | Normal results => (results, VNull)
  | Throw e => ([], VStr (message e))
  end.

(** One entry of [response.stores]. *)
Definition storeResult (storeId : value) (settled : list Product * value)
  : completion StoreResult :=
  config <- STORE_CONFIG_get storeId ;;
  Normal {| store_id := storeId;
            store_name := display_name config storeId;
            results := fst settled;
            error := snd settled;
            count := match List.length (fst settled) with O => 0 | S n => S n end |}.

(** [/[<>{}]/g] *)
Definition re_brackets : Re.regex :=
  Re.Cls (fun c => (c =? 60) || (c =? 62) || (c =? 123) || (c =? 125))%N.

Definition sanitize (query : jsstring) : jsstring :=
  substring0 200 (Re.replace_all re_brackets [] (trim query)).

(** The handler over any store task [search i storeId query], [i] being
    the position of the task among the valid stores; [now] is
    [new Date().toISOString()].  The tasks share nothing, so they are run
    here one after the other. *)
Definition handler_with (search : nat -> value -> jsstring -> completion (list Product))
  (now : jsstring) (req : Request) : completion HttpResponse :=
  if str_eqb (method req) (js "OPTIONS") then Normal (respond 200 NoBody)
  else if negb (str_eqb (method req) (js "POST"))
  then Normal (respond 405 (ErrorBody (js "Method not allowed")))
  else
    query <- get (body req) "query" ;;
    stores <- get (body req) "stores" ;;
    category <- get (body req) "category" ;;
    match query with
    | VStr q =>
        match trim q with
        | [] => Normal (respond 400 (ErrorBody (js "Search query is required")))
        | _ :: _ =>
            match stores with
            | VArr ((_ :: _) as ids) =>
                let sanitizedQuery := sanitize q in
                valid <- validStores ids ;;
                try_catch
                  (let storeResults :=
                     map (fun t => (snd t, settle (search (fst t) (snd t) sanitizedQuery)))
                         (combine (seq 0 (List.length valid)) valid) in
                   entries <- mapM (fun _ r => storeResult (fst r) (snd r)) storeResults ;;
                   Normal (respond 200 (SearchBody
                     {| query := sanitizedQuery;
                        category := or_else category VNull;
                        timestamp := now;
                        stores := entries |})))
                  (fun e => Normal (respond 500 (ErrorBody (js "Search failed. Please try again."))))
            | _ => Normal (respond 400 (ErrorBody (js "At least one store must be selected")))
            end
        end
    | _ => Normal (respond 400 (ErrorBody (js "Search query is required")))
    end.

(** The surroundings of one request: those of each store task and the
    clock. *)
Record World : Type := {
  task : nat -> TaskEnv;
  clock : jsstring
}.

Definition handler (w : World) (req : Request) : completion HttpResponse :=
  handler_with (fun i storeId query => searchStore (task w i) storeId query) (clock w) req.


End Program.

(* ================================================================== *)
(** ** Vocabulary of the statements *)
(* ================================================================== *)

(** The thirteen keys of [STORE_CONFIG]. *)
Definition known_store (storeId : value) : Prop :=
  exists key, storeId = VStr key /\ In key (map fst STORE_CONFIG).

(** A product that carries neither sentinel. *)
Definition no_sentinel (p : Product) : Prop :=
  title p <> js "Unknown Product" /\ link p <> VStr (js "#").

(** A transport failure of a GET: no response at all, or a status of 400
    or more. *)
Definition transport_failure (o : axios_outcome) : Prop :=
  match o with
  | NetworkError _ => True
  | Response status _ => (400 <= status)%N
  end.

(** [kept] is [l] with some elements left out, the others in the same
    order. *)
Inductive Subseq {A : Type} : list A -> list A -> Prop :=
| Subseq_nil : Subseq [] []
| Subseq_skip (x : A) (kept l : list A) : Subseq kept l -> Subseq kept (x :: l)
| Subseq_keep (x : A) (kept l : list A) : Subseq kept l -> Subseq (x :: kept) (x :: l).

(** The products are made from some of the items, one product per item
    kept, in the order of the items. *)
Definition in_order_of {A : Type} (made_from : A -> Product -> Prop)
  (items : list A) (products : list Product) : Prop :=
  exists kept, Subseq kept items /\ Forall2 made_from kept products.

(* ================================================================== *)
(** ** Example surroundings *)
(* ================================================================== *)

(** A platform for the examples: a page loads to a document whose every
    selection is the given script elements, each with its text and the tree
    [JSON.parse] reads from that text; any other text is no JSON; the [URL]
    constructor accepts the absolute http URLs. *)
Definition page_platform (scripts : list (jsstring * value)) : Platform :=
  {| JSON_parse := fun s =>
       match assoc s scripts with
       | Some v => Normal v
       | None => Throw (Thrown (js "SyntaxError") (js "Unexpected token"))
       end;
     new_URL := fun s =>
       if startsWith (js "http://") s || startsWith (js "https://") s then Normal tt
       else Throw (TypeError "Invalid URL");
     Doc := unit;
     Elem := jsstring;
     cheerio_load := fun _ => Normal tt;
     cheerio_select := fun _ _ => map fst scripts;
     cheerio_find := fun _ _ => [];
     cheerio_html := fun el => Some el;
     cheerio_attr := fun _ _ => None;
     cheerio_text := fun _ => [] |}.

Definition plain_platform : Platform := page_platform [].

Definition example_ids (k : nat) : jsstring := js "prod_" ++ Num.digits_of_N (N.of_nat k).

(** Every request times out. *)
Definition offline : TaskEnv :=
  {| axios_get := fun _ => NetworkError (js "timeout of 15000ms exceeded");
     generateProductId := example_ids |}.

(** Every request is answered by the same response. *)
Definition answering (status : N) (data : value) : TaskEnv :=
  {| axios_get := fun _ => Response status data;
     generateProductId := example_ids |}.

Definition integer (n : N) : value := VNum (JsonNumber false n 0).

Definition post (query : string) (ids : list string) : Request :=
  {| method := js "POST";
     body := VObj [ (js "query", VStr (js query));
                    (js "stores", VArr (map (fun i => VStr (js i)) ids)) ] |}.

(* ================================================================== *)
(** ** Further vocabulary and examples *)
(* ================================================================== *)

(** A scraped record whose price text holds no number, and the product
    [formatProduct] makes of it. *)
Definition call_for_price : Candidate :=
  {| data_title := VStr (js "Wrap Dress");
     data_price := VStr (js "Call for price");
     data_image := VUndefined;
     data_link := VStr (js "https://www.lulus.com/product/wrap-dress") |}.

Definition call_for_price_product : Product :=
  {| id := js "prod_0";
     store := VStr (js "lulus");
     storeName := js "Lulus";
     title := js "Wrap Dress";
     price := VStr (js "Call for price");
     image := PLACEHOLDER_IMAGE;
     link := VStr (js "https://www.lulus.com/product/wrap-dress") |}.



(** What every adapter returns: nothing, or what the validity filter let
    through. *)
Definition filtered (l : list Product) : Prop :=
  l = [] \/ exists products, l = filterValidProducts products.

(** The URL the adapter of a configured store requests.  A store with
    neither a domain nor a type is answered with the empty list before any
    request. *)
Definition requestUrl (c : StoreConfig) (query : jsstring) : completion jsstring :=
  match cfg_domain c with
  | Some domain => shopifyUrl (js "https://" ++ domain) query
  | None =>
      match cfg_type c with
      | Some t =>
          if str_eqb t (js "asos") then asosUrl query
          else if str_eqb t (js "hm") then hmUrl query
          else if str_eqb t (js "lulus") then lulusUrl query
          else if str_eqb t (js "nordstrom") then nordstromUrl query
          else sheinUrl query
      | None => Throw (PlainError (js "no request"))
      end
  end.

(** The instant of the example searches. *)
Definition midnight : jsstring := js "2026-01-01T00:00:00.000Z".

(** A product of a [suggest.json] answer. *)
Definition suggest_item (t : string) (rawPrice : value) (u img : string) : value :=
  VObj [ (js "title", VStr (js t)); (js "price", rawPrice);
         (js "url", VStr (js u)); (js "image", VStr (js img)) ].

(** A [suggest.json] answer with three products, the second without a
    title. *)
Definition catalogue : value :=
  VObj [ (js "resources",
          VObj [ (js "results",
                  VObj [ (js "products",
                          VArr [ suggest_item "New: Floral Dress" (integer 4500)
                                   "/products/floral" "//cdn.shopify.com/floral_100x200.jpg?v=1";
                                 suggest_item "" (VStr (js "12.00")) "/products/untitled" "";
                                 suggest_item "Linen Top" (VStr (js "39.90"))
                                   "/products/linen-top" "" ]) ]) ]) ].

(** A search of White Fox against [catalogue], and its answer: the first
    price is in cents, the untitled product is filtered out. *)
Definition whitefox_world : World :=
  {| task := fun _ => answering 200 catalogue; clock := midnight |}.

Definition whitefox_product (k : nat) (t display img path : string) : Product :=
  {| id := example_ids k;
     store := VStr (js "whitefox");
     storeName := js "White Fox";
     title := js t;
     price := VStr (js display);
     image := match img with EmptyString => PLACEHOLDER_IMAGE | _ => js img end;
     link := VStr (js "https://www.whitefoxboutique.com" ++ js path) |}.

Definition whitefox_response : SearchResponse :=
  {| query := js "dress";
     category := VNull;
     timestamp := midnight;
     stores :=
       [ {| store_id := VStr (js "whitefox");
            store_name := VStr (js "White Fox");
            results :=
              [ whitefox_product 0 "Floral Dress" "$45.00"
                  "https://cdn.shopify.com/floral_600x.jpg?v=1" "/products/floral";
                whitefox_product 2 "Linen Top" "$39.90" "" "/products/linen-top" ];
            error := VNull;
            count := 2 |} ] |}.

(** Three store tasks: the first rejects, the second returns a product,
    the third returns nothing. *)
Definition three_tasks (i : nat) (storeId : value) (query : jsstring)
  : completion (list Product) :=
  match i with
  | 0 => Throw (PlainError (js "socket hang up"))
  | 1 => Normal [call_for_price_product]
  | _ => Normal []
  end.

(** The stores the three tasks stand for. *)
Definition three_stores : list value :=
  [VStr (js "asos"); VStr (js "lulus"); VStr (js "hm")].

(** No upstream answers; the request White Fox would have received. *)
Definition offline_world : World := {| task := fun _ => offline; clock := midnight |}.

Definition whitefox_url : jsstring :=
  js "https://www.whitefoxboutique.com/search/suggest.json?q=dress&resources[type]=product&resources[limit]=12&resources[options][unavailable_products]=hide".

(** [s'] is what is left of [s] after some code units. *)
Definition suffix_of (s' s : jsstring) : Prop := exists pre, s = pre ++ s'.

(** No white space at either end. *)
Definition trimmed (s : jsstring) : Prop :=
  match s with
  | [] => True
  | x :: _ => isSpace x = false /\ isSpace (last s 0%N) = false
  end.

(** Every white space code unit is a single U+0020 between two others. *)
Fixpoint collapsed (s : jsstring) : Prop :=
  match s with
  | [] => True
  | x :: s' =>
      (isSpace x = true ->
       x = 32%N /\ match s' with y :: _ => isSpace y = false | [] => True end)
      /\ collapsed s'
  end.

(** The number of code units of a class at the head of a string. *)
Fixpoint leading (p : N -> bool) (s : jsstring) : nat :=
  match s with
  | x :: s' => if p x then S (leading p s') else 0
  | [] => 0
  end.

(** The first code unit, if any, is not white space. *)
Definition head_not_space (s : jsstring) : Prop :=
  match s with x :: _ => isSpace x = false | [] => True end.

(** The product was formatted from the item by [f], at some position. *)
Definition made_by {A : Type} (f : nat -> A -> completion (option Product))
  (item : A) (p : Product) : Prop :=
  exists k, f k item = Normal (Some p).

(** The upstream items each adapter walks through, in the order it meets
    them. *)
Definition shopifyProducts (data : value) : list value :=
  array_items (or_else (get_opt (get_opt (get_opt data "resources") "results") "products")
                       (VArr [])).

(** ASOS: the [products] array of the answer. *)
Definition asosProducts (data : value) : list value :=
  array_items (or_else (get_opt data "products") (VArr [])).

(** H&M: the array embedded in one script of the page. *)
Definition hmItems (P : Platform) (el : Elem P) : list value :=
  let text := script_text P el in
  if includes (js "productArticleDetails") text || includes (quoted "products") text then
    match Re.match_group re_hm_products 1 text with
    | Some json =>
        match JSON_parse P json with
        | Normal items => array_items items
        | Throw _ => []
        end
    | None => []
    end
  else [].

(** Nordstrom: the product map, or the product list, of the page data. *)
Definition nordstromResults (data : value) : value :=
  let pageProps := get_opt (get_opt data "props") "pageProps" in
  or_else (or_else (get_opt (get_opt pageProps "searchResults") "productsById")
                   (get_opt pageProps "products"))
          (VObj []).

(** The products of a Nordstrom script in the order [Object.values]
    enumerates them. *)
Definition nordstromItems (P : Platform) (el : Elem P) : list value :=
  match parse_html P el with
  | Normal data => Object_values (nordstromResults data)
  | Throw _ => []
  end.

(** SHEIN: the arrays of one script that hold a goods identifier. *)
Definition sheinMatches (text : jsstring) : list jsstring :=
  match Re.match_all (re_shein "goods_id") text with
  | (_ :: _) as ms => ms
  | [] => Re.match_all (re_shein "goods_sn") text
  end.

Definition sheinItems (P : Platform) (el : Elem P) : list value :=
  let text := script_text P el in
  if includes (js "productListData") text || includes (js "goods_id") text then
    flat_map (fun m => match JSON_parse P m with
                       | Normal items => array_items items
                       | Throw _ => []
                       end) (sheinMatches text)
  else [].

(** The scripts the Nordstrom adapter reads. *)
Definition nordstromSelector : jsstring :=
  js "script#__NEXT_DATA__, script[type=" ++ quoted "application/json" ++ js "]".

(** The products of a configured store follow the order of the upstream
    items, whenever the upstream answered. *)
Definition follows_upstream (P : Platform) (env : TaskEnv) (key : jsstring)
  (c : StoreConfig) (query : jsstring) (result : list Product) : Prop :=
  match cfg_domain c with
  | Some domain =>
      forall url data,
        shopifyUrl (js "https://" ++ domain) query = Normal url ->
        fetchJSON P env url = Normal data ->
        in_order_of (made_by (shopifyItem P env (js "https://" ++ domain) (cfg_name c) (VStr key)))
          (shopifyProducts data) result
  | None =>
      match cfg_type c with
      | Some t =>
          if str_eqb t (js "asos") then
            forall url data,
              asosUrl query = Normal url -> fetchJSON P env url = Normal data ->
              in_order_of (made_by (asosItem P env (js "ASOS") (VStr (js "asos"))))
                (asosProducts data) result
          else if str_eqb t (js "hm") then
            forall url doc,
              hmUrl query = Normal url -> fetchHTML P env url = Normal doc ->
              in_order_of (made_by (hmItem P env (js "H&M") (VStr (js "hm"))))
                (flat_map (hmItems P) (cheerio_select P doc (js "script"))) result
          else if str_eqb t (js "lulus") then
            forall url doc,
              lulusUrl query = Normal url -> fetchHTML P env url = Normal doc ->
              exists sel, In sel lulusSelectors /\
                in_order_of
                  (fun el p => exists k, lulusElement P env (js "Lulus") (VStr (js "lulus")) k el
                                         = Normal [Some p])
                  (cheerio_select P doc sel) result
          else if str_eqb t (js "nordstrom") then
            forall url doc,
              nordstromUrl query = Normal url -> fetchHTML P env url = Normal doc ->
              in_order_of (made_by (nordstromItem P env (js "Nordstrom") (VStr (js "nordstrom"))))
                (flat_map (nordstromItems P) (cheerio_select P doc nordstromSelector)) result
          else
            forall url doc,
              sheinUrl query = Normal url -> fetchHTML P env url = Normal doc ->
              in_order_of (made_by (sheinItem P env (js "SHEIN") (VStr (js "shein"))))
                (flat_map (sheinItems P) (cheerio_select P doc (js "script"))) result
      | None => True
      end
  end.

(** [step] appends to the records pushed so far records formatted from
    some of the items, in their order, and never goes beyond the cap. *)
Definition pushes (f : nat -> value -> completion (option Product)) (items : list value)
  (step : list (option Product) -> list (option Product)) : Prop :=
  forall acc,
    (exists kept new,
        step acc = acc ++ new
        /\ Subseq kept items
        /\ Forall2 (fun item b => exists k, f k item = Normal b) kept new)
    /\ (List.length acc <= MAX_RESULTS -> List.length (step acc) <= MAX_RESULTS).

(** A Nordstrom product as the page data holds it. *)
Definition nordstrom_item (n displayed path : string) : value :=
  VObj [ (js "productName", VStr (js n));
         (js "currentPriceString", VStr (js displayed));
         (js "productPageUrl", VStr (js path)) ].

Definition item_bee : value := nordstrom_item "Bee Wrap Dress" "$89.00" "/s/bee-wrap-dress/20".

Definition item_ay : value := nordstrom_item "Ay Slip Dress" "$59.00" "/s/ay-slip-dress/10".

(** The tree of [nordstrom_text]: the product map lists product 20 first
    and product 10 second. *)
Definition nordstrom_tree : value :=
  VObj [ (js "props",
          VObj [ (js "pageProps",
                  VObj [ (js "searchResults",
                          VObj [ (js "productsById",
                                  VObj [ (js "20", item_bee); (js "10", item_ay) ]) ]) ]) ]) ].

(** The JSON text of [nordstrom_item]. *)
Definition json_item (n displayed path : string) : jsstring :=
  js "{" ++ quoted "productName" ++ js ":" ++ quoted n ++ js ","
  ++ quoted "currentPriceString" ++ js ":" ++ quoted displayed ++ js ","
  ++ quoted "productPageUrl" ++ js ":" ++ quoted path ++ js "}".

(** The text of the page's data script. *)
Definition nordstrom_text : jsstring :=
  js "{" ++ quoted "props" ++ js ":{" ++ quoted "pageProps" ++ js ":{"
  ++ quoted "searchResults" ++ js ":{" ++ quoted "productsById" ++ js ":{"
  ++ quoted "20" ++ js ":" ++ json_item "Bee Wrap Dress" "$89.00" "/s/bee-wrap-dress/20"
  ++ js ","
  ++ quoted "10" ++ js ":" ++ json_item "Ay Slip Dress" "$59.00" "/s/ay-slip-dress/10"
  ++ js "}}}}}".

(** A platform whose parser knows [nordstrom_text], and a Nordstrom that
    answers with a page holding it. *)
Definition nordstrom_platform : Platform := page_platform [(nordstrom_text, nordstrom_tree)].

Definition nordstrom_page : TaskEnv :=
  answering 200
    (VStr (js "<html><body><script id=" ++ quoted "__NEXT_DATA__" ++ js " type="
           ++ quoted "application/json" ++ js ">" ++ nordstrom_text
           ++ js "</script></body></html>")).

(** The products the adapter makes of the two items. *)
Definition nordstrom_product (k : nat) (t displayed path : string) : Product :=
  {| id := example_ids k;
     store := VStr (js "nordstrom");
     storeName := js "Nordstrom";
     title := js t;
     price := VStr (js displayed);
     image := PLACEHOLDER_IMAGE;
     link := VStr (js "https://www.nordstrom.com" ++ js path) |}.

Definition product_bee (k : nat) : Product :=
  nordstrom_product k "Bee Wrap Dress" "$89.00" "/s/bee-wrap-dress/20".

Definition product_ay (k : nat) : Product :=
  nordstrom_product k "Ay Slip Dress" "$59.00" "/s/ay-slip-dress/10".

(* ================================================================== *)
(** ** Vocabulary and examples of the further properties *)
(* ================================================================== *)

(** [STORE_CONFIG[storeId]] is truthy: the test of [stores.filter] in the
    handler.  Own entries pass, and so do the names [STORE_CONFIG] inherits
    from [Object.prototype]. *)
Definition accepted_store (storeId : value) : bool :=
  match STORE_CONFIG_get storeId with
  | Normal (Own _) | Normal (Inherited _) => true
  | _ => false
  end.

(** The request of the examples with another method. *)
Definition with_method (m : string) (req : Request) : Request :=
  {| method := js m; body := body req |}.

(** A POST whose body never arrived. *)
Definition post_without_body : Request := {| method := js "POST"; body := VUndefined |}.

(** The answer to a search of an unknown store, Lulus and an inherited
    name while no upstream answers: the unknown store has no entry, and the
    inherited name has one. *)
Definition mixed_response : SearchResponse :=
  {| query := js "dress";
     category := VNull;
     timestamp := midnight;
     stores :=
       [ {| store_id := VStr (js "lulus");
            store_name := VStr (js "Lulus");
            results := [];
            error := VNull;
            count := 0 |};
         {| store_id := VStr (js "constructor");
            store_name := VStr (js "Object");
            results := [];
            error := VNull;
            count := 0 |} ] |}.

(** The texts a pattern can match, whatever surrounds them: the language of
    the pattern, the anchors standing for the empty text. *)
Fixpoint matches (r : Re.regex) (w : jsstring) : Prop :=
  match r with
  | Re.Eps | Re.Bol | Re.Eol => w = []
  | Re.Cls p => exists x, w = [x] /\ p x = true
  | Re.Seq r1 r2 => exists w1 w2, w = w1 ++ w2 /\ matches r1 w1 /\ matches r2 w2
  | Re.Alt r1 r2 => matches r1 w \/ matches r2 w
  | Re.Star p | Re.StarLazy p => Forall (fun x => p x = true) w
  | Re.Opt r1 => w = [] \/ matches r1 w
  | Re.Grp _ r1 => matches r1 w
  end.


(** What the links of a store's products start with: the base URL each
    adapter puts before the path of a product.  The Lulus adapter keeps an
    absolute link as it is, so only the scheme is known there. *)
Definition store_site (c : StoreConfig) : jsstring :=
  match cfg_domain c with
  | Some domain => js "https://" ++ domain
  | None =>
      match cfg_type c with
      | Some t =>
          if str_eqb t (js "asos") then js "https://www.asos.com/"
          else if str_eqb t (js "hm") then js "https://www2.hm.com"
          else if str_eqb t (js "lulus") then js "http"
          else if str_eqb t (js "nordstrom") then js "https://www.nordstrom.com"
          else js "https://us.shein.com/"
      | None => []
      end
  end.

(** A product of the store [storeId], named [name], whose link is the
    sentinel or starts with [site]. *)
Definition from_store (storeId : value) (name site : jsstring) (p : Product) : Prop :=
  store p = storeId /\ storeName p = name
  /\ (link p = VStr (js "#") \/ exists rest, link p = VStr (site ++ rest)).

(** A [suggest.json] answer whose second product is [null]. *)
Definition broken_catalogue : value :=
  VObj [ (js "resources",
          VObj [ (js "results",
                  VObj [ (js "products",
                          VArr [ suggest_item "Floral Dress" (VStr (js "45.00"))
                                   "/products/floral" "";
                                 VNull ]) ]) ]) ].

(** A lone high surrogate: no well-formed UTF-16. *)
Definition lone_surrogate : jsstring := js "dress " ++ [55357%N].

(* ================================================================== *)
(** ** Theorems *)
(* ================================================================== *)

(* ------------------------------------------------------------------ *)
(** *** Proof tools *)

Lemma bind_normal {A B : Type} (c : completion A) (k : A -> completion B) (b : B) :
  bind c k = Normal b -> exists a, c = Normal a /\ k a = Normal b.
Proof. destruct c as [a|e]; simpl; intros H; [eauto | discriminate]. Qed.

(** Splits an equation [x <- c ;; k = Normal b] of the context. *)
Ltac inv_bind :=
  repeat match goal with
  | H : bind ?c ?k = Normal ?b |- _ =>
      let a := fresh "a" in
      let Ha := fresh "Ha" in
      apply bind_normal in H; destruct H as [a [Ha H]]
  | H : Normal _ = Normal _ |- _ => injection H as H; subst
  | H : Throw _ = Normal _ |- _ => discriminate H
  end.

Ltac case_if :=
  match goal with
  | |- context [if ?b then _ else _] => destruct b eqn:?
  end.

(* ------------------------------------------------------------------ *)
(** *** The field normalizers return *)

Lemma cleanPrice_trimmed_shape (s : jsstring) :
  cleanPrice_trimmed s = VNull \/ exists p, cleanPrice_trimmed s = VStr p.
Proof.
  unfold cleanPrice_trimmed. destruct s as [|c s]; [now left|].
  destruct (Re.match0 re_price _) as [m0|]; [|now left].
  cbv zeta. destruct (_ && _); [right; eauto | now left].
Qed.

Lemma cleanPrice_returns (v : value) :
  cleanPrice v = Normal VNull \/ exists p, cleanPrice v = Normal (VStr p).
Proof.
  unfold cleanPrice. destruct v as [| |b|n|s|items|members|f]; simpl;
    rewrite ?orb_true_r; try (now left).
  destruct s as [|c s]; simpl; [now left|].
  destruct (cleanPrice_trimmed_shape (trim (c :: s))) as [H|[p H]]; rewrite H; eauto.
Qed.

Lemma cleanTitle_returns (v : value) : exists t, cleanTitle v = Normal t.
Proof.
  unfold cleanTitle, cleanTitle_max. destruct v as [| |b|n|s|items|members|f]; simpl;
    rewrite ?orb_true_r; eauto.
  destruct s; simpl; eauto.
Qed.

Lemma cleanImageUrl_returns (P : Platform) (v : value) :
  cleanImageUrl P v = Normal VNull \/ exists u, cleanImageUrl P v = Normal (VStr u).
Proof.
  unfold cleanImageUrl. destruct v as [| |b|n|s|items|members|f]; simpl;
    rewrite ?orb_true_r; try (now left).
  destruct s as [|c s]; simpl; [now left|].
  repeat case_if; try (now left).
  all: destruct (new_URL P _); simpl; eauto.
Qed.

(** C5. Each field normalizer is total: on every input value, of any
    shape, [cleanPrice] returns [null] or a string, [cleanTitle] returns a
    string and [cleanImageUrl] returns [null] or a string; none of them
    throws, whatever the [URL] constructor does. *)
Theorem normalizers_total (P : Platform) (v : value) :
  (cleanPrice v = Normal VNull \/ exists p, cleanPrice v = Normal (VStr p))
  /\ (exists t, cleanTitle v = Normal t)
  /\ (cleanImageUrl P v = Normal VNull \/ exists u, cleanImageUrl P v = Normal (VStr u)).
Proof.
  split; [apply cleanPrice_returns|].
  split; [apply cleanTitle_returns | apply cleanImageUrl_returns].
Qed.

(* ------------------------------------------------------------------ *)
(** *** The formatter *)

Lemma price_display_nonempty (m0 : jsstring) : price_display m0 <> [].
Proof.
  unfold price_display. cbv zeta.
  destruct (Re.replace_all re_comma [] (trim m0)) as [|c s].
  - vm_compute. discriminate.
  - destruct (negb _); discriminate.
Qed.

Lemma cleanPrice_null_or_text (v : value) :
  cleanPrice v = Normal VNull \/ exists p, p <> [] /\ cleanPrice v = Normal (VStr p).
Proof.
  unfold cleanPrice. destruct v as [| |b|n|s|items|members|f]; simpl;
    rewrite ?orb_true_r; try (now left).
  destruct s as [|c s]; simpl; [now left|].
  unfold cleanPrice_trimmed. destruct (trim (c :: s)); [now left|].
  destruct (Re.match0 re_price _) as [m0|]; [|now left].
  cbv zeta. destruct (_ && _); [|now left].
  right. exists (price_display m0). split; [apply price_display_nonempty | reflexivity].
Qed.

(** C3, as the code has it. The [price] of a formatted Product is the
    output of [cleanPrice] when that is a string (never an empty one);
    when [cleanPrice] yields [null] it is the raw price itself if that is
    truthy, and the sentinel [See price] otherwise. *)
Theorem product_price_source (P : Platform) (fresh : jsstring) (data : Candidate)
  (storeName : jsstring) (storeId : value) (p : Product) :
  formatProduct P fresh data storeName storeId = Normal (Some p) ->
  (exists s, s <> [] /\ cleanPrice (data_price data) = Normal (VStr s) /\ price p = VStr s)
  \/ (cleanPrice (data_price data) = Normal VNull /\
      price p = if truthy (data_price data) then data_price data else VStr (js "See price")).
Proof.
  unfold formatProduct. intros H.
  destruct (negb (truthy (data_title data)) && negb (truthy (data_link data)));
    [discriminate|].
  inv_bind. simpl.
  destruct (cleanPrice_null_or_text (data_price data)) as [E|[s [Hs E]]];
    rewrite E in Ha0; injection Ha0 as <-.
  - right. split; [exact E|]. unfold or_else. simpl.
    destruct (truthy (data_price data)) eqn:T; reflexivity.
  - left. exists s. repeat split; auto.
    unfold or_else. simpl. destruct s; [contradiction|reflexivity].
Qed.

Lemma format_call_for_price :
  formatProduct plain_platform (js "prod_0") call_for_price (js "Lulus") (VStr (js "lulus"))
  = Normal (Some call_for_price_product).
Proof. vm_compute. reflexivity. Qed.

(** [product_price_source] at a raw price without digits. *)
Lemma product_price_source_witness :
  (exists s, s <> [] /\ cleanPrice (data_price call_for_price) = Normal (VStr s)
             /\ price call_for_price_product = VStr s)
  \/ (cleanPrice (data_price call_for_price) = Normal VNull /\
      price call_for_price_product =
        if truthy (data_price call_for_price) then data_price call_for_price
        else VStr (js "See price")).
Proof.
  exact (product_price_source plain_platform (js "prod_0") call_for_price (js "Lulus")
           (VStr (js "lulus")) call_for_price_product format_call_for_price).
Defined.

(** C3, as stated, fails: the raw text [Call for price] is no output of
    the price normalizer and is not the sentinel, and it is the [price] of
    the formatted Product. *)
Lemma raw_price_text_is_kept :
  cleanPrice (VStr (js "Call for price")) = Normal VNull
  /\ js "Call for price" <> js "See price"
  /\ formatProduct plain_platform (js "prod_0") call_for_price (js "Lulus") (VStr (js "lulus"))
       = Normal (Some call_for_price_product)
  /\ price call_for_price_product = VStr (js "Call for price").
Proof.
  split; [vm_compute; reflexivity|].
  split; [vm_compute; discriminate|].
  split; [apply format_call_for_price | reflexivity].
Qed.

(* ------------------------------------------------------------------ *)
(** *** The price mapping of the Tier 1 adapter *)


(* ------------------------------------------------------------------ *)
(** *** The handler *)

Lemma mapM_from_Forall2 {A B : Type} (f : nat -> A -> completion B) (l : list A) :
  forall (i : nat) (l' : list B),
    mapM_from f i l = Normal l' ->
    Forall2 (fun a b => exists k, f k a = Normal b) l l'.
Proof.
  induction l as [|a l IH]; simpl; intros i l' H.
  - injection H as <-. constructor.
  - inv_bind. constructor; eauto.
Qed.

(** What the handler's response holds when it is a Search Response: one
    entry per valid store, each built by [storeResult] from the settled task
    of that store. *)
Lemma handler_with_entries (search : nat -> value -> jsstring -> completion (list Product))
  (now : jsstring) (req : Request) (r : HttpResponse) (resp : SearchResponse) :
  handler_with search now req = Normal r ->
  payload r = SearchBody resp ->
  exists q ids valid,
    get (body req) "query" = Normal (VStr q)
    /\ get (body req) "stores" = Normal (VArr ids)
    /\ validStores ids = Normal valid
    /\ query resp = sanitize q
    /\ mapM (fun _ t => storeResult (fst t) (snd t))
         (map (fun t => (snd t, settle (search (fst t) (snd t) (sanitize q))))
              (combine (seq 0 (List.length valid)) valid))
       = Normal (stores resp).
Proof.
  unfold handler_with. intros H Hp.
  destruct (str_eqb (method req) (js "OPTIONS")).
  { injection H as <-. discriminate Hp. }
  destruct (negb (str_eqb (method req) (js "POST"))).
  { injection H as <-. discriminate Hp. }
  inv_bind.
  destruct a as [| |b|n|q|items|members|f]; try (injection H as <-; discriminate Hp).
  destruct (trim q) as [|c0 tq] eqn:Hq; [injection H as <-; discriminate Hp|].
  destruct a0 as [| |b'|n'|s'|ids|members'|f']; try (injection H as <-; discriminate Hp).
  destruct ids as [|i0 ids]; [injection H as <-; discriminate Hp|].
  inv_bind. rename a into valid.
  unfold try_catch in H.
  destruct (bind _ _) as [r'|e] eqn:Hb in H.
  - injection H as <-. inv_bind. simpl in Hp. injection Hp as <-. simpl.
    exists q, (i0 :: ids), valid. repeat split; auto.
  - injection H as <-. discriminate Hp.
Qed.

Lemma storeResult_fields (storeId : value) (settled : list Product * value) (sr : StoreResult) :
  storeResult storeId settled = Normal sr ->
  store_id sr = storeId /\ results sr = fst settled /\ error sr = snd settled
  /\ count sr = List.length (fst settled).
Proof.
  unfold storeResult. intros H. inv_bind. simpl.
  repeat split. destruct (List.length (fst settled)); reflexivity.
Qed.

(** Every Store Result of a Search Response holds the settled outcome of
    one store task. *)
Lemma handler_with_results (search : nat -> value -> jsstring -> completion (list Product))
  (now : jsstring) (req : Request) (r : HttpResponse) (resp : SearchResponse) :
  handler_with search now req = Normal r ->
  payload r = SearchBody resp ->
  Forall (fun sr => exists i storeId q,
            results sr = fst (settle (search i storeId q))
            /\ error sr = snd (settle (search i storeId q))
            /\ count sr = List.length (results sr))
         (stores resp).
Proof.
  intros H Hp.
  destruct (handler_with_entries search now req r resp H Hp) as (q & ids & valid & _ & _ & _ & _ & Hm).
  apply mapM_from_Forall2 in Hm.
  remember (combine (seq 0 (List.length valid)) valid) as ts. clear Heqts.
  remember (stores resp) as entries. clear Heqentries.
  revert entries Hm. induction ts as [|t ts IH]; intros entries Hm; inversion Hm; subst.
  - constructor.
  - constructor; [|apply IH; assumption].
    match goal with
    | Hx : exists k, _ |- _ =>
        destruct Hx as [k Hk]; apply storeResult_fields in Hk;
        destruct Hk as (_ & Hr & He & Hc)
    end. simpl in *.
    exists (fst t), (snd t), (sanitize q). rewrite Hc, Hr. auto.
Qed.

(** C10. In every Store Result of a Search Response the handler sends,
    [count] is the length of that store's [results]. *)
Theorem count_is_results_length (P : Platform) (w : World) (req : Request)
  (r : HttpResponse) (resp : SearchResponse) :
  handler P w req = Normal r ->
  payload r = SearchBody resp ->
  Forall (fun sr => count sr = List.length (results sr)) (stores resp).
Proof.
  intros H Hp. unfold handler in H.
  eapply Forall_impl; [|exact (handler_with_results _ _ _ _ _ H Hp)].
  intros sr (i & storeId & q & _ & _ & Hc). exact Hc.
Qed.

Lemma known_store_config (storeId : value) :
  known_store storeId ->
  exists key c, storeId = VStr key /\ STORE_CONFIG_get storeId = Normal (Own c).
Proof.
  intros (key & -> & Hin). exists key.
  unfold STORE_CONFIG_get, lookup_config. simpl toString. cbn [bind].
  simpl in Hin.
  repeat (destruct Hin as [<-|Hin]; [eexists; split; [reflexivity|vm_compute; reflexivity]|]).
  contradiction.
Qed.

Lemma validStores_known (ids : list value) :
  Forall known_store ids -> validStores ids = Normal ids.
Proof.
  induction 1 as [|storeId ids Hk _ IH]; simpl; [reflexivity|].
  destruct (known_store_config storeId Hk) as (key & c & _ & ->).
  cbn [bind]. rewrite IH. reflexivity.
Qed.

(** The entries the handler builds for known stores, from position
    [start] on. *)
Lemma entries_of_known (search : nat -> value -> jsstring -> completion (list Product))
  (q : jsstring) (ids : list value) :
  Forall known_store ids ->
  forall (start k : nat),
  exists entries,
    mapM_from (fun _ t => storeResult (fst t) (snd t)) k
      (map (fun t => (snd t, settle (search (fst t) (snd t) q)))
           (combine (seq start (List.length ids)) ids))
    = Normal entries
    /\ map store_id entries = ids
    /\ forall i storeId, nth_error ids i = Some storeId ->
         exists sr, nth_error entries i = Some sr
                    /\ results sr = fst (settle (search (start + i) storeId q))
                    /\ error sr = snd (settle (search (start + i) storeId q)).
Proof.
  induction 1 as [|storeId ids Hk _ IH]; intros start k; simpl.
  - exists []. repeat split; auto. intros [|i] s; discriminate.
  - destruct (IH (S start) (S k)) as (entries & Hm & Hids & Hnth).
    destruct (known_store_config storeId Hk) as (key & c & _ & Hc).
    unfold storeResult at 1. rewrite Hc. cbn [bind]. rewrite Hm. cbn [bind].
    eexists. split; [reflexivity|]. split; [simpl; rewrite Hids; reflexivity|].
    intros [|i] s Hs; simpl in Hs.
    + injection Hs as <-. eexists. split; [reflexivity|]. simpl.
      rewrite Nat.add_0_r. auto.
    + destruct (Hnth i s Hs) as (sr & H1 & H2 & H3). exists sr.
      rewrite <- plus_n_Sm. simpl. auto.
Qed.

(** C1. For every POST request that passes validation and whose [stores]
    hold known store ids only, the handler answers 200 with a Search
    Response that holds one Store Result per requested store, in request
    order; the Store Result at position [i] holds what the task of that store
    settled to, and nothing else: the products it returned with [error]
    [null], or no product and the rejection's message when it rejected. *)
Theorem router_isolates_store_failures
  (search : nat -> value -> jsstring -> completion (list Product))
  (now : jsstring) (req : Request) (members : list (jsstring * value))
  (q : jsstring) (ids : list value) :
  method req = js "POST" ->
  body req = VObj members ->
  own_property (js "query") members = Some (VStr q) ->
  trim q <> [] ->
  own_property (js "stores") members = Some (VArr ids) ->
  ids <> [] ->
  Forall known_store ids ->
  exists resp,
    handler_with search now req = Normal (respond 200 (SearchBody resp))
    /\ map store_id (stores resp) = ids
    /\ forall i storeId, nth_error ids i = Some storeId ->
         exists sr, nth_error (stores resp) i = Some sr
           /\ match search i storeId (sanitize q) with
              | Normal products => results sr = products /\ error sr = VNull
              | Throw e => results sr = [] /\ error sr = VStr (message e)
              end.
Proof.
  intros Hm Hb Hq Hne Hs Hids Hk.
  unfold handler_with. rewrite Hm, Hb.
  change (str_eqb (js "POST") (js "OPTIONS")) with false.
  change (negb (str_eqb (js "POST") (js "POST"))) with false. cbv iota.
  unfold get. change (js "query") with (js "query") in Hq. rewrite Hq, Hs. cbn [bind].
  destruct (own_property (js "category") members) as [cat|]; cbn [bind];
    (destruct (trim q) as [|c0 tq]; [contradiction|]);
    (destruct ids as [|i0 ids]; [contradiction|]);
    rewrite (validStores_known _ Hk); cbn [bind]; unfold mapM;
    destruct (entries_of_known search (sanitize q) _ Hk 0 0) as (entries & He & Hi & Hn);
    rewrite He; cbn [bind try_catch];
    (eexists; split; [reflexivity|]; split; [exact Hi|]);
    intros i storeId Hnth; destruct (Hn i storeId Hnth) as (sr & H1 & H2 & H3);
    exists sr; (split; [exact H1|]); simpl in H2, H3;
    destruct (search i storeId (sanitize q)); simpl in H2, H3; auto.
Qed.

(* ------------------------------------------------------------------ *)
(** *** The validity filter and the adapters *)

Lemma str_eqb_eq (a b : jsstring) : str_eqb a b = true <-> a = b.
Proof.
  revert b. induction a as [|x a IH]; intros [|y b]; simpl; split; intros H;
    try discriminate; try reflexivity.
  - apply andb_true_iff in H. destruct H as [Hx Hab].
    apply N.eqb_eq in Hx. apply IH in Hab. now subst.
  - injection H as -> ->. rewrite N.eqb_refl. simpl. now apply IH.
Qed.

Lemma validProduct_no_sentinel (p : Product) :
  validProduct (Some p) = true -> no_sentinel p.
Proof.
  unfold validProduct, no_sentinel. intros H.
  repeat (apply andb_true_iff in H; destruct H as [H ?]).
  split.
  - intros E. apply str_eqb_eq in E.
    match goal with Hn : negb (str_eqb (title p) _) = true |- _ => rewrite E in Hn; discriminate Hn end.
  - intros E.
    match goal with Hn : negb (value_is (link p) _) = true |- _ => rewrite E in Hn; discriminate Hn end.
Qed.

Lemma filterValidProducts_no_sentinel (products : list (option Product)) :
  Forall no_sentinel (filterValidProducts products).
Proof.
  induction products as [|[p|] rest IH]; cbn [filterValidProducts]; auto.
  destruct (validProduct (Some p)) eqn:Hv; auto.
  constructor; [now apply validProduct_no_sentinel | exact IH].
Qed.

Lemma try_catch_empty {A : Type} (c : completion (list A)) (l : list A) :
  try_catch c (fun _ => Normal []) = Normal l -> c = Normal l \/ l = [].
Proof. destruct c; simpl; intros H; injection H as <-; auto. Qed.

Lemma scrapeShopifyStore_filtered (P : Platform) (env : TaskEnv) (q : jsstring)
  (storeId : value) (l : list Product) :
  scrapeShopifyStore P env q storeId = Normal l -> filtered l.
Proof.
  unfold scrapeShopifyStore. intros H. inv_bind.
  destruct a as [c| |]; try (injection H as <-; now left).
  destruct (cfg_domain c) as [[|d0 d]|]; try (injection H as <-; now left).
  apply try_catch_empty in H. destruct H as [H|H]; [|now left].
  inv_bind.
  destruct (or_else _ _) as [| | | | |[|i0 items]| |]; try (injection H as <-; now left).
  inv_bind. right. eauto.
Qed.

Lemma scrapeASOS_filtered (P : Platform) (env : TaskEnv) (q : jsstring) (l : list Product) :
  scrapeASOS P env q = Normal l -> filtered l.
Proof.
  unfold scrapeASOS. intros H.
  apply try_catch_empty in H. destruct H as [H|H]; [|now left].
  inv_bind.
  destruct (or_else _ _) as [| | | | |[|i0 items]| |]; try (injection H as <-; now left).
  inv_bind. right. eauto.
Qed.

Lemma scrapeHM_filtered (P : Platform) (env : TaskEnv) (q : jsstring) (l : list Product) :
  scrapeHM P env q = Normal l -> filtered l.
Proof.
  unfold scrapeHM. intros H.
  apply try_catch_empty in H. destruct H as [H|H]; [|now left].
  inv_bind. right. eauto.
Qed.

Lemma scrapeLulus_filtered (P : Platform) (env : TaskEnv) (q : jsstring) (l : list Product) :
  scrapeLulus P env q = Normal l -> filtered l.
Proof.
  unfold scrapeLulus. intros H.
  apply try_catch_empty in H. destruct H as [H|H]; [|now left].
  inv_bind. right. eauto.
Qed.

Lemma scrapeNordstrom_filtered (P : Platform) (env : TaskEnv) (q : jsstring) (l : list Product) :
  scrapeNordstrom P env q = Normal l -> filtered l.
Proof.
  unfold scrapeNordstrom. intros H.
  apply try_catch_empty in H. destruct H as [H|H]; [|now left].
  inv_bind. right. eauto.
Qed.

Lemma scrapeShein_filtered (P : Platform) (env : TaskEnv) (q : jsstring) (l : list Product) :
  scrapeShein P env q = Normal l -> filtered l.
Proof.
  unfold scrapeShein. intros H.
  apply try_catch_empty in H. destruct H as [H|H]; [|now left].
  inv_bind. right. eauto.
Qed.

Lemma searchStore_filtered (P : Platform) (env : TaskEnv) (storeId : value) (q : jsstring)
  (l : list Product) :
  searchStore P env storeId q = Normal l -> filtered l.
Proof.
  unfold searchStore. intros H. inv_bind.
  destruct a as [c| |]; try (injection H as <-; now left).
  destruct (cfg_domain c) as [[|d0 d]|].
  2: { eapply scrapeShopifyStore_filtered; eassumption. }
  all: destruct (cfg_type c) as [t|]; try (injection H as <-; now left).
  all: repeat match type of H with
       | (if ?b then _ else _) = _ => destruct b
       end;
       eauto using scrapeASOS_filtered, scrapeHM_filtered, scrapeLulus_filtered,
                   scrapeNordstrom_filtered, scrapeShein_filtered.
  all: injection H as <-; now left.
Qed.

Lemma filtered_no_sentinel (l : list Product) : filtered l -> Forall no_sentinel l.
Proof.
  intros [->|[products ->]]; [constructor | apply filterValidProducts_no_sentinel].
Qed.

(** C8. Every Product in the [results] of any Store Result of the Search
    Response the handler sends has a [title] other than [Unknown Product]
    and a [link] other than [#]: each adapter returns nothing or the output
    of the validity filter. *)
Theorem final_products_carry_no_sentinel (P : Platform) (w : World) (req : Request)
  (r : HttpResponse) (resp : SearchResponse) :
  handler P w req = Normal r ->
  payload r = SearchBody resp ->
  Forall (fun sr => Forall no_sentinel (results sr)) (stores resp).
Proof.
  intros H Hp. unfold handler in H.
  eapply Forall_impl; [|exact (handler_with_results _ _ _ _ _ H Hp)].
  intros sr (i & storeId & q & Hr & _ & _). rewrite Hr.
  destruct (searchStore P (task w i) storeId q) as [l|e] eqn:Hs; simpl.
  - apply filtered_no_sentinel. eapply searchStore_filtered. exact Hs.
  - constructor.
Qed.

(* ------------------------------------------------------------------ *)
(** *** Transport failures *)

Lemma axios_request_failure (env : TaskEnv) (url : jsstring) :
  transport_failure (axios_get env url) ->
  (exists e, axios_request env url = Throw e)
  \/ (exists status data, axios_request env url = Normal (status, data) /\ (400 <=? status)%N = true).
Proof.
  unfold transport_failure, axios_request.
  destruct (axios_get env url) as [msg|status data]; intros H.
  - left. eauto.
  - destruct (500 <=? status)%N; [left; eauto|].
    right. exists status, data. split; [reflexivity|]. now apply N.leb_le.
Qed.

Lemma fetchJSON_failure (P : Platform) (env : TaskEnv) (url : jsstring) :
  transport_failure (axios_get env url) -> exists e, fetchJSON P env url = Throw e.
Proof.
  intros H. unfold fetchJSON.
  destruct (axios_request_failure env url H) as [[e ->]|(status & data & -> & Hs)];
    cbn [bind]; [eauto|]. rewrite Hs. eauto.
Qed.

Lemma fetchHTML_failure (P : Platform) (env : TaskEnv) (url : jsstring) :
  transport_failure (axios_get env url) -> exists e, fetchHTML P env url = Throw e.
Proof.
  intros H. unfold fetchHTML.
  destruct (axios_request_failure env url H) as [[e ->]|(status & data & -> & Hs)];
    cbn [bind]; [eauto|]. rewrite Hs. eauto.
Qed.

Lemma assoc_In {A : Type} (key : jsstring) (l : list (jsstring * A)) (a : A) :
  assoc key l = Some a -> In (key, a) l.
Proof.
  induction l as [|[k x] l IH]; simpl; [discriminate|].
  destruct (str_eqb k key) eqn:E; intros H.
  - injection H as ->. apply str_eqb_eq in E. subst. now left.
  - right. now apply IH.
Qed.

Lemma scrapeShopifyStore_failure (P : Platform) (env : TaskEnv) (key : jsstring)
  (c : StoreConfig) (d0 : N) (d query url : jsstring) :
  lookup_config key = Own c ->
  cfg_domain c = Some (d0 :: d) ->
  shopifyUrl (js "https://" ++ d0 :: d) query = Normal url ->
  transport_failure (axios_get env url) ->
  scrapeShopifyStore P env query (VStr key) = Normal [].
Proof.
  intros Hc Hd Hu Hf. unfold scrapeShopifyStore, STORE_CONFIG_get.
  simpl toString. cbn [bind]. rewrite Hc, Hd, Hu. cbn [bind].
  destruct (fetchJSON_failure P env url Hf) as [e ->]. reflexivity.
Qed.

Lemma scrapeASOS_failure (P : Platform) (env : TaskEnv) (query url : jsstring) :
  asosUrl query = Normal url -> transport_failure (axios_get env url) ->
  scrapeASOS P env query = Normal [].
Proof.
  intros Hu Hf. unfold scrapeASOS. rewrite Hu. cbn [bind].
  destruct (fetchJSON_failure P env url Hf) as [e ->]. reflexivity.
Qed.

Lemma scrapeHM_failure (P : Platform) (env : TaskEnv) (query url : jsstring) :
  hmUrl query = Normal url -> transport_failure (axios_get env url) ->
  scrapeHM P env query = Normal [].
Proof.
  intros Hu Hf. unfold scrapeHM. rewrite Hu. cbn [bind].
  destruct (fetchHTML_failure P env url Hf) as [e ->]. reflexivity.
Qed.

Lemma scrapeLulus_failure (P : Platform) (env : TaskEnv) (query url : jsstring) :
  lulusUrl query = Normal url -> transport_failure (axios_get env url) ->
  scrapeLulus P env query = Normal [].
Proof.
  intros Hu Hf. unfold scrapeLulus. rewrite Hu. cbn [bind].
  destruct (fetchHTML_failure P env url Hf) as [e ->]. reflexivity.
Qed.

Lemma scrapeNordstrom_failure (P : Platform) (env : TaskEnv) (query url : jsstring) :
  nordstromUrl query = Normal url -> transport_failure (axios_get env url) ->
  scrapeNordstrom P env query = Normal [].
Proof.
  intros Hu Hf. unfold scrapeNordstrom. rewrite Hu. cbn [bind].
  destruct (fetchHTML_failure P env url Hf) as [e ->]. reflexivity.
Qed.

Lemma scrapeShein_failure (P : Platform) (env : TaskEnv) (query url : jsstring) :
  sheinUrl query = Normal url -> transport_failure (axios_get env url) ->
  scrapeShein P env query = Normal [].
Proof.
  intros Hu Hf. unfold scrapeShein. rewrite Hu. cbn [bind].
  destruct (fetchHTML_failure P env url Hf) as [e ->]. reflexivity.
Qed.

(** The dispatch of [searchStore] on a configured store. *)
Lemma searchStore_dispatch (P : Platform) (env : TaskEnv) (key : jsstring) (c : StoreConfig)
  (query : jsstring) :
  assoc key STORE_CONFIG = Some c ->
  lookup_config key = Own c
  /\ ((exists d0 d, cfg_domain c = Some (d0 :: d)
        /\ searchStore P env (VStr key) query = scrapeShopifyStore P env query (VStr key)
        /\ requestUrl c query = shopifyUrl (js "https://" ++ d0 :: d) query)
      \/ (cfg_domain c = None /\ cfg_type c = Some (js "asos")
           /\ searchStore P env (VStr key) query = scrapeASOS P env query
           /\ requestUrl c query = asosUrl query)
      \/ (cfg_domain c = None /\ cfg_type c = Some (js "hm")
           /\ searchStore P env (VStr key) query = scrapeHM P env query
           /\ requestUrl c query = hmUrl query)
      \/ (cfg_domain c = None /\ cfg_type c = Some (js "lulus")
           /\ searchStore P env (VStr key) query = scrapeLulus P env query
           /\ requestUrl c query = lulusUrl query)
      \/ (cfg_domain c = None /\ cfg_type c = Some (js "nordstrom")
           /\ searchStore P env (VStr key) query = scrapeNordstrom P env query
           /\ requestUrl c query = nordstromUrl query)
      \/ (cfg_domain c = None /\ cfg_type c = Some (js "shein")
           /\ searchStore P env (VStr key) query = scrapeShein P env query
           /\ requestUrl c query = sheinUrl query)).
Proof.
  intros Hc.
  assert (Hl : lookup_config key = Own c) by (unfold lookup_config; now rewrite Hc).
  split; [exact Hl|].
  unfold searchStore, STORE_CONFIG_get. simpl toString. cbn [bind]. rewrite Hl.
  apply assoc_In in Hc. simpl in Hc.
  repeat (destruct Hc as [Hc|Hc];
          [injection Hc as <- <-;
           first [ left; do 2 eexists; repeat split; reflexivity
                 | right; left; repeat split; reflexivity
                 | right; right; left; repeat split; reflexivity
                 | right; right; right; left; repeat split; reflexivity
                 | right; right; right; right; left; repeat split; reflexivity
                 | right; right; right; right; right; repeat split; reflexivity ] |]).
  contradiction.
Qed.

(** C2, as the code has it. When the request of a configured store's
    adapter suffers a transport failure (no response, or a status of 400 or
    more), the adapter catches it and returns no product: the store's task
    does not reject, and its Store Result has empty [results], [error]
    [null] and [count] 0. *)
Theorem transport_failure_is_swallowed (P : Platform) (env : TaskEnv)
  (key : jsstring) (c : StoreConfig) (query url : jsstring) :
  assoc key STORE_CONFIG = Some c ->
  requestUrl c query = Normal url ->
  transport_failure (axios_get env url) ->
  searchStore P env (VStr key) query = Normal []
  /\ exists sr, storeResult (VStr key) (settle (searchStore P env (VStr key) query)) = Normal sr
                /\ results sr = [] /\ error sr = VNull /\ count sr = 0.
Proof.
  intros Hc Hu Hf.
  assert (Hs : searchStore P env (VStr key) query = Normal []).
  { destruct (searchStore_dispatch P env key c query Hc)
      as (Hl & [(d0 & d & Hd & -> & E)
            |[(_ & _ & -> & E)|[(_ & _ & -> & E)|[(_ & _ & -> & E)
            |[(_ & _ & -> & E)|(_ & _ & -> & E)]]]]]);
      rewrite E in Hu.
    - eapply scrapeShopifyStore_failure; eassumption.
    - eapply scrapeASOS_failure; eassumption.
    - eapply scrapeHM_failure; eassumption.
    - eapply scrapeLulus_failure; eassumption.
    - eapply scrapeNordstrom_failure; eassumption.
    - eapply scrapeShein_failure; eassumption. }
  split; [exact Hs|].
  rewrite Hs. unfold storeResult, STORE_CONFIG_get. simpl toString. cbn [bind].
  eexists. split; [reflexivity|]. auto.
Qed.

(* ------------------------------------------------------------------ *)
(** *** Examples *)

Lemma whitefox_search :
  handler plain_platform whitefox_world (post " <dress> " ["whitefox"%string])
  = Normal (respond 200 (SearchBody whitefox_response)).
Proof. vm_compute. reflexivity. Qed.

(** [count_is_results_length] on a search of one Tier 1 store. *)
Lemma count_is_results_length_witness :
  Forall (fun sr => count sr = List.length (results sr)) (stores whitefox_response).
Proof.
  exact (count_is_results_length plain_platform whitefox_world (post " <dress> " ["whitefox"%string])
           (respond 200 (SearchBody whitefox_response)) whitefox_response
           whitefox_search eq_refl).
Defined.

(** [final_products_carry_no_sentinel] on the same search: the product
    without a title is gone. *)
Lemma final_products_carry_no_sentinel_witness :
  Forall (fun sr => Forall no_sentinel (results sr)) (stores whitefox_response).
Proof.
  exact (final_products_carry_no_sentinel plain_platform whitefox_world
           (post " <dress> " ["whitefox"%string])
           (respond 200 (SearchBody whitefox_response)) whitefox_response
           whitefox_search eq_refl).
Defined.

(** [router_isolates_store_failures] on the three tasks. *)
Lemma router_isolates_store_failures_witness :
  exists resp,
    handler_with three_tasks midnight (post "dress" ["asos"; "lulus"; "hm"]%string)
    = Normal (respond 200 (SearchBody resp))
    /\ map store_id (stores resp) = three_stores
    /\ forall i storeId, nth_error three_stores i = Some storeId ->
         exists sr, nth_error (stores resp) i = Some sr
           /\ match three_tasks i storeId (sanitize (js "dress")) with
              | Normal products => results sr = products /\ error sr = VNull
              | Throw e => results sr = [] /\ error sr = VStr (message e)
              end.
Proof.
  apply (router_isolates_store_failures three_tasks midnight
           (post "dress" ["asos"; "lulus"; "hm"]%string)
           [ (js "query", VStr (js "dress")); (js "stores", VArr three_stores) ]
           (js "dress") three_stores).
  - reflexivity.
  - reflexivity.
  - reflexivity.
  - vm_compute. discriminate.
  - reflexivity.
  - discriminate.
  - repeat constructor; eexists; (split; [reflexivity|]); simpl; auto 20.
Defined.

(** C2, as stated, fails: the request of the store times out, and the
    Store Result of that store has [error] [null]. *)
Lemma transport_failure_error_is_null :
  shopifyUrl (js "https://www.whitefoxboutique.com") (js "dress") = Normal whitefox_url
  /\ axios_get offline whitefox_url = NetworkError (js "timeout of 15000ms exceeded")
  /\ handler plain_platform offline_world (post "dress" ["whitefox"%string])
     = Normal (respond 200 (SearchBody
         {| query := js "dress";
            category := VNull;
            timestamp := midnight;
            stores := [ {| store_id := VStr (js "whitefox");
                           store_name := VStr (js "White Fox");
                           results := [];
                           error := VNull;
                           count := 0 |} ] |})).
Proof. repeat split; vm_compute; reflexivity. Qed.

(** [transport_failure_is_swallowed] on the same timeout. *)
Lemma transport_failure_is_swallowed_witness :
  searchStore plain_platform offline (VStr (js "whitefox")) (js "dress") = Normal []
  /\ exists sr,
       storeResult (VStr (js "whitefox"))
         (settle (searchStore plain_platform offline (VStr (js "whitefox")) (js "dress")))
       = Normal sr
       /\ results sr = [] /\ error sr = VNull /\ count sr = 0.
Proof.
  apply (transport_failure_is_swallowed plain_platform offline (js "whitefox")
           (shopify "White Fox" "www.whitefoxboutique.com") (js "dress") whitefox_url).
  - reflexivity.
  - vm_compute. reflexivity.
  - exact I.
Defined.

(* ------------------------------------------------------------------ *)
(** *** Comparison of numbers *)

Lemma SFcompare_antisym (x y : spec_float) (c : comparison) :
  SFcompare x y = Some c -> SFcompare y x = Some (CompOpp c).
Proof.
  destruct x as [sx|sx| |sx mx ex], y as [sy|sy| |sy my ey]; simpl; intros H;
    try discriminate; injection H as <-;
    try (destruct sx; reflexivity); try (destruct sy; reflexivity);
    try (destruct sx, sy; reflexivity).
  assert (Hz : (ey ?= ex)%Z = CompOpp (ex ?= ey)%Z) by apply Z.compare_antisym.
  assert (Hp : Pos.compare_cont Eq my mx = CompOpp (Pos.compare_cont Eq mx my))
    by (rewrite (Pos.compare_cont_antisym mx my Eq); reflexivity).
  change (IntDef.Z.compare ey ex) with (ey ?= ex)%Z.
  change (IntDef.Z.compare ex ey) with (ex ?= ey)%Z.
  change (PosDef.Pos.compare_cont Eq my mx) with (Pos.compare_cont Eq my mx).
  change (PosDef.Pos.compare_cont Eq mx my) with (Pos.compare_cont Eq mx my).
  rewrite Hz, Hp.
  destruct sx, sy; try reflexivity;
    destruct (ex ?= ey)%Z; simpl; try reflexivity;
    destruct (Pos.compare_cont Eq mx my); reflexivity.
Qed.

Lemma leb_not_gtb (x y : Num.number) : Num.leb x y = true -> Num.gtb x y = false.
Proof.
  unfold Num.leb, Num.gtb, SFleb, SFltb.
  destruct (SFcompare x y) as [c|] eqn:E; [|discriminate].
  rewrite (SFcompare_antisym _ _ _ E). destruct c; simpl; congruence.
Qed.

Lemma geb_not_ltb (x y : Num.number) : Num.geb x y = true -> Num.ltb x y = false.
Proof.
  unfold Num.geb, Num.ltb, SFleb, SFltb.
  destruct (SFcompare y x) as [c|] eqn:E; [|discriminate].
  rewrite (SFcompare_antisym _ _ _ E). destruct c; simpl; congruence.
Qed.

(* ------------------------------------------------------------------ *)
(** *** The matcher *)

Lemma suffix_of_refl (s : jsstring) : suffix_of s s.
Proof. exists []. reflexivity. Qed.

Lemma suffix_of_cons (x : N) (s' s : jsstring) : suffix_of s' s -> suffix_of s' (x :: s).
Proof. intros [pre ->]. exists (x :: pre). reflexivity. Qed.

Lemma suffix_of_tail (x : N) (s' s : jsstring) : suffix_of (x :: s') s -> suffix_of s' s.
Proof. intros [pre ->]. exists (pre ++ [x]). now rewrite <- app_assoc. Qed.

Lemma suffix_of_trans (a b c : jsstring) : suffix_of a b -> suffix_of b c -> suffix_of a c.
Proof. intros [p ->] [q ->]. exists (q ++ p). now rewrite app_assoc. Qed.

Lemma suffix_of_In (x : N) (s' s : jsstring) : suffix_of (x :: s') s -> In x s.
Proof. intros [pre ->]. apply in_or_app. right. now left. Qed.

Lemma star_reaches (p : N -> bool) (s : jsstring) :
  forall (i : nat) (c : Re.caps) (k : Re.cont) (x : nat * Re.caps),
    Re.star p i s c k = Some x ->
    exists i' s', k i' s' c = Some x /\ suffix_of s' s.
Proof.
  induction s as [|y s IH]; simpl; intros i c k x H.
  - exists i, []. split; [exact H | apply suffix_of_refl].
  - destruct (p y).
    + destruct (Re.star p (S i) s c k) as [r|] eqn:E.
      * injection H as <-. destruct (IH _ _ _ _ E) as (i' & s' & Hk & Hs).
        exists i', s'. split; [exact Hk | now apply suffix_of_cons].
      * exists i, (y :: s). split; [exact H | apply suffix_of_refl].
    + exists i, (y :: s). split; [exact H | apply suffix_of_refl].
Qed.

Lemma star_lazy_reaches (p : N -> bool) (s : jsstring) :
  forall (i : nat) (c : Re.caps) (k : Re.cont) (x : nat * Re.caps),
    Re.star_lazy p i s c k = Some x ->
    exists i' s', k i' s' c = Some x /\ suffix_of s' s.
Proof.
  induction s as [|y s IH]; simpl; intros i c k x H.
  - destruct (k i [] c) eqn:E; [|discriminate]. injection H as <-.
    exists i, []. split; [exact E | apply suffix_of_refl].
  - destruct (k i (y :: s) c) eqn:E.
    + injection H as <-. exists i, (y :: s). split; [exact E | apply suffix_of_refl].
    + destruct (p y); [|discriminate].
      destruct (IH _ _ _ _ H) as (i' & s' & Hk & Hs).
      exists i', s'. split; [exact Hk | now apply suffix_of_cons].
Qed.

(** A successful match has called its continuation on a suffix of the
    input. *)
Lemma rmatch_reaches (r : Re.regex) :
  forall (i : nat) (s : jsstring) (c : Re.caps) (k : Re.cont) (x : nat * Re.caps),
    Re.rmatch r i s c k = Some x ->
    exists i' s' c', k i' s' c' = Some x /\ suffix_of s' s.
Proof.
  induction r as [|p|r1 IH1 r2 IH2|r1 IH1 r2 IH2|p|p|r1 IH1|n r1 IH1| |];
    simpl; intros i s c k x H.
  - exists i, s, c. split; [exact H | apply suffix_of_refl].
  - destruct s as [|y s]; [discriminate|]. destruct (p y); [|discriminate].
    exists (S i), s, c. split; [exact H | apply suffix_of_cons, suffix_of_refl].
  - destruct (IH1 _ _ _ _ _ H) as (i1 & s1 & c1 & H1 & S1).
    destruct (IH2 _ _ _ _ _ H1) as (i2 & s2 & c2 & H2 & S2).
    exists i2, s2, c2. split; [exact H2 | eapply suffix_of_trans; eassumption].
  - destruct (Re.rmatch r1 i s c k) as [y|] eqn:E.
    + injection H as <-. eapply IH1; eassumption.
    + eapply IH2; eassumption.
  - destruct (star_reaches _ _ _ _ _ _ H) as (i' & s' & Hk & Hs). eauto.
  - destruct (star_lazy_reaches _ _ _ _ _ _ H) as (i' & s' & Hk & Hs). eauto.
  - destruct (Re.rmatch r1 i s c k) as [y|] eqn:E.
    + injection H as <-. eapply IH1; eassumption.
    + exists i, s, c. split; [exact H | apply suffix_of_refl].
  - destruct (IH1 _ _ _ _ _ H) as (i1 & s1 & c1 & H1 & S1). eauto.
  - destruct i; [|discriminate]. exists 0, s, c. split; [exact H | apply suffix_of_refl].
  - destruct s; [|discriminate]. exists i, [], c. split; [exact H | apply suffix_of_refl].
Qed.

Lemma rmatch_seq (r1 r2 : Re.regex) (i : nat) (s : jsstring) (c : Re.caps) (k : Re.cont)
  (x : nat * Re.caps) :
  Re.rmatch (Re.Seq r1 r2) i s c k = Some x ->
  exists i1 s1 c1, Re.rmatch r2 i1 s1 c1 k = Some x /\ suffix_of s1 s.
Proof. cbn [Re.rmatch]. intros H. apply rmatch_reaches in H. exact H. Qed.

Lemma rmatch_cls (p : N -> bool) (i : nat) (s : jsstring) (c : Re.caps) (k : Re.cont)
  (x : nat * Re.caps) :
  Re.rmatch (Re.Cls p) i s c k = Some x ->
  exists d s', s = d :: s' /\ p d = true /\ k (S i) s' c = Some x.
Proof.
  cbn [Re.rmatch]. destruct s as [|d s']; [discriminate|].
  destruct (p d) eqn:E; [|discriminate]. eauto.
Qed.

(** A match of the price pattern holds a digit or a comma. *)
Lemma price_match_has_digit (i : nat) (s : jsstring) (x : nat * Re.caps) :
  Re.match_at re_price i s = Some x ->
  exists d, In d s /\ isDigitOrComma d = true.
Proof.
  unfold Re.match_at, re_price. cbn [Re.seq_of]. unfold Re.plus. intros H.
  apply rmatch_seq in H. destruct H as (i1 & s1 & c1 & H & S1).
  apply rmatch_seq in H. destruct H as (i2 & s2 & c2 & H & S2).
  cbn [Re.rmatch] in H.
  change (Re.rmatch (Re.Cls isDigitOrComma) i2 s2 c2
            (fun i' s' c' =>
               Re.star isDigitOrComma i' s' c'
                 (fun i'0 s'0 c'0 =>
                    Re.rmatch (Re.Seq (Re.Opt (Re.chr 46)) (Re.Star isDigit)) i'0 s'0 c'0
                      (fun j _ c => Some (j, c)))) = Some x) in H.
  apply rmatch_cls in H. destruct H as (d & s' & -> & D & _).
  exists d. split; [|exact D].
  eapply suffix_of_In. eapply suffix_of_trans; eassumption.
Qed.

Lemma search_price_none (s : jsstring) :
  (forall d, In d s -> isDigitOrComma d = false) ->
  forall i, Re.search re_price i s = None.
Proof.
  induction s as [|y s IH]; intros Hs i; cbn [Re.search].
  - destruct (Re.match_at re_price i []) as [[j c]|] eqn:E; [|reflexivity].
    destruct (price_match_has_digit _ _ _ E) as (d & [] & _).
  - destruct (Re.match_at re_price i (y :: s)) as [[j c]|] eqn:E.
    + destruct (price_match_has_digit _ _ _ E) as (d & Hd & D).
      rewrite (Hs d Hd) in D. discriminate.
    + apply IH. intros d Hd. apply Hs. now right.
Qed.

Lemma star_total (p : N -> bool) (k : Re.cont) :
  (forall i s c, k i s c <> None) ->
  forall s i c, Re.star p i s c k <> None.
Proof.
  intros Hk. induction s as [|y s IH]; simpl; intros i c; [apply Hk|].
  destruct (p y); [|apply Hk].
  destruct (Re.star p (S i) s c k); [discriminate | apply Hk].
Qed.

Lemma digit_or_comma_not_space (d : N) : isDigitOrComma d = true -> isSpace d = false.
Proof.
  unfold isDigitOrComma, isDigit, isSpace. intros H.
  apply orb_true_iff in H.
  assert (Hd : (44 <= d <= 57)%N).
  { destruct H as [H|H].
    - apply andb_true_iff in H. destruct H as [H1 H2].
      apply N.leb_le in H1. apply N.leb_le in H2. lia.
    - apply N.eqb_eq in H. lia. }
  repeat match goal with
  | |- context [(?a <=? ?b)%N] => destruct (N.leb_spec a b)
  | |- context [(?a =? ?b)%N] => destruct (N.eqb_spec a b)
  end; simpl; try reflexivity; lia.
Qed.

(** At a digit or a comma the price pattern matches. *)
Lemma price_match_at_digit (i : nat) (d : N) (s : jsstring) :
  isDigitOrComma d = true -> Re.match_at re_price i (d :: s) <> None.
Proof.
  intros D. unfold Re.match_at, re_price. cbn [Re.seq_of]. unfold Re.plus.
  set (k0 := fun (j : nat) (_ : jsstring) (c : Re.caps) => Some (j, c)).
  set (R3 := Re.Seq (Re.Opt (Re.chr 46)) (Re.Star isDigit)).
  assert (T3 : forall i s c, Re.rmatch R3 i s c k0 <> None).
  { intros i' s' c'. unfold R3. cbn [Re.rmatch].
    destruct (Re.rmatch (Re.chr 46) i' s' c' _); [discriminate|].
    apply star_total. intros; discriminate. }
  set (R2 := Re.Seq (Re.Seq (Re.Cls isDigitOrComma) (Re.Star isDigitOrComma)) R3).
  assert (T2 : Re.rmatch R2 i (d :: s) [] k0 <> None).
  { unfold R2. cbn [Re.rmatch]. rewrite D.
    apply (star_total isDigitOrComma (fun i' s' c' => Re.rmatch R3 i' s' c' k0)). exact T3. }
  assert (T1 : Re.rmatch (Re.Seq (Re.Star isSpace) R2) i (d :: s) [] k0 <> None).
  { cbn [Re.rmatch Re.star]. rewrite (digit_or_comma_not_space d D). exact T2. }
  cbn [Re.rmatch] in T1 |- *.
  match goal with
  | |- match ?m with Some y => Some y | None => _ end <> None => destruct m; [discriminate|]
  end.
  exact T1.
Qed.

Lemma search_price_some (s : jsstring) :
  forall i d, In d s -> isDigitOrComma d = true -> Re.search re_price i s <> None.
Proof.
  induction s as [|y s IH]; intros i d Hin D; [destruct Hin|].
  cbn [Re.search].
  destruct (Re.match_at re_price i (y :: s)) as [[j c]|] eqn:E; [discriminate|].
  destruct Hin as [->|Hin].
  - exfalso. exact (price_match_at_digit i d s D E).
  - eapply IH; eassumption.
Qed.

(** The price pattern matches nowhere in [s] exactly when [s] holds
    neither a digit nor a comma. *)
Lemma search_price_none_iff (s : jsstring) :
  Re.search re_price 0 s = None <-> (forall d, In d s -> isDigitOrComma d = false).
Proof.
  split.
  - intros H d Hin. destruct (isDigitOrComma d) eqn:D; [|reflexivity].
    exfalso. exact (search_price_some s 0 d Hin D H).
  - intros H. now apply search_price_none.
Qed.

(* ------------------------------------------------------------------ *)
(** *** The code units that survive the clean-up *)

Lemma In_dropWhile (p : N -> bool) (x : N) (s : jsstring) :
  In x (dropWhile p s) -> In x s.
Proof.
  induction s as [|y s IH]; simpl; [auto|].
  destruct (p y); [intros H; right; now apply IH | auto].
Qed.

Lemma In_trim (x : N) (s : jsstring) : In x (trim s) -> In x s.
Proof.
  unfold trim, trimEnd, trimStart. intros H.
  apply in_rev in H. apply In_dropWhile in H. apply in_rev in H.
  now apply In_dropWhile in H.
Qed.

Lemma In_split_head (sep : jsstring) (x : N) (s : jsstring) :
  In x (split_head sep s) -> In x s.
Proof.
  induction s as [|y s IH]; simpl; [auto|].
  destruct (startsWith sep (y :: s)); [intros []|].
  intros [->|H]; [now left | right; now apply IH].
Qed.

(** Deleting the matches of a pattern adds no code unit. *)
Lemma In_replace_go (r : Re.regex) (subject : jsstring) (x : N) (s : jsstring) :
  forall i skip, In x (Re.replace_go r [] subject i s skip) -> In x s.
Proof.
  induction s as [|y s IH]; intros i skip; cbn [Re.replace_go].
  - destruct skip; [|auto]. destruct (Re.match_at r i []) as [[j c]|]; simpl; auto.
  - destruct skip as [|n].
    + destruct (Re.match_at r i (y :: s)) as [[j c]|]; simpl.
      * destruct (Nat.eqb j i).
        -- intros [->|H]; [now left | right; eapply IH; eassumption].
        -- intros H. right. eapply IH; eassumption.
      * intros [->|H]; [now left | right; eapply IH; eassumption].
    + intros H. right. eapply IH; eassumption.
Qed.

Lemma In_delete_all (r : Re.regex) (x : N) (s : jsstring) :
  In x (Re.replace_all r [] s) -> In x s.
Proof. apply In_replace_go. Qed.

Lemma In_price_text (x : N) (s : jsstring) : In x (price_text s) -> In x s.
Proof.
  unfold price_text. intros H.
  apply In_trim, In_delete_all in H.
  destruct (includes (js "from") _) in H;
    [apply In_trim, In_delete_all in H|];
    (destruct (includes (js " - ") s) in H; [apply In_trim, In_split_head in H|]); exact H.
Qed.

(** C6. [cleanPrice] returns [null], without throwing, for every string
    in which the numeric price pattern matches nowhere (such as [Call for
    price]), and for every string whose extracted number [numVal] satisfies
    [numVal <= 0] or [numVal >= 50000]. *)
Theorem implausible_prices_are_null (s : jsstring) :
  (Re.search re_price 0 s = None -> cleanPrice (VStr s) = Normal VNull)
  /\ (forall m0 : jsstring,
        Re.match0 re_price (price_text (trim s)) = Some m0 ->
        Num.leb (price_value (price_display m0)) (Num.of_N 0) = true
        \/ Num.geb (price_value (price_display m0)) (Num.of_N 50000) = true ->
        cleanPrice (VStr s) = Normal VNull).
Proof.
  split.
  - intros H. unfold cleanPrice. destruct s as [|x s]; [reflexivity|].
    simpl truthy. simpl is_string. cbn [negb orb String_trim bind].
    unfold cleanPrice_trimmed.
    destruct (trim (x :: s)) as [|y t] eqn:T; [reflexivity|].
    assert (Hn : Re.search re_price 0 (price_text (y :: t)) = None).
    { apply search_price_none. intros d Hd.
      apply In_price_text in Hd. rewrite <- T in Hd. apply In_trim in Hd.
      exact (proj1 (search_price_none_iff (x :: s)) H d Hd). }
    unfold Re.match0. rewrite Hn. reflexivity.
  - intros m0 Hm Hv. unfold cleanPrice. destruct s as [|x s]; [reflexivity|].
    simpl truthy. simpl is_string. cbn [negb orb String_trim bind].
    unfold cleanPrice_trimmed.
    destruct (trim (x :: s)) as [|y t] eqn:T; [reflexivity|].
    rewrite Hm. cbv zeta.
    destruct Hv as [Hv|Hv].
    + rewrite (leb_not_gtb _ _ Hv). reflexivity.
    + rewrite (geb_not_ltb _ _ Hv). rewrite andb_false_r. reflexivity.
Qed.

(** [implausible_prices_are_null] on a price without digits, on a price
    of zero and on a price of fifty thousand. *)
Lemma implausible_prices_are_null_witness :
  cleanPrice (VStr (js "Call for price")) = Normal VNull
  /\ cleanPrice (VStr (js "$0.00")) = Normal VNull
  /\ cleanPrice (VStr (js "USD 50,000")) = Normal VNull.
Proof.
  split; [|split].
  - apply (proj1 (implausible_prices_are_null (js "Call for price"))).
    vm_compute. reflexivity.
  - apply (proj2 (implausible_prices_are_null (js "$0.00")) (js "$0.00")).
    + vm_compute. reflexivity.
    + left. vm_compute. reflexivity.
  - apply (proj2 (implausible_prices_are_null (js "USD 50,000")) (js "50,000")).
    + vm_compute. reflexivity.
    + right. vm_compute. reflexivity.
Defined.

(* ------------------------------------------------------------------ *)
(** *** Trimmed and collapsed strings *)

Lemma dropWhile_skipn (p : N -> bool) (s : jsstring) :
  dropWhile p s = skipn (leading p s) s.
Proof.
  induction s as [|x s IH]; simpl; [reflexivity|].
  destruct (p x); [exact IH | reflexivity].
Qed.

Lemma dropWhile_head (p : N -> bool) (s : jsstring) :
  match dropWhile p s with x :: _ => p x = false | [] => True end.
Proof.
  induction s as [|x s IH]; simpl; [exact I|].
  destruct (p x) eqn:E; [exact IH | exact E].
Qed.

Lemma dropWhile_snoc (p : N -> bool) (l : jsstring) (y : N) :
  p y = false -> dropWhile p (l ++ [y]) = dropWhile p l ++ [y].
Proof.
  intros Hy. induction l as [|x l IH]; simpl; [now rewrite Hy|].
  destruct (p x); [exact IH | reflexivity].
Qed.

Lemma trimEnd_prefix (s : jsstring) : exists n, trimEnd s = firstn n s.
Proof.
  unfold trimEnd. rewrite dropWhile_skipn.
  exists (List.length s - leading isSpace (rev s)).
  rewrite skipn_rev, rev_involutive. reflexivity.
Qed.

Lemma last_snoc (l : jsstring) (y d : N) : last (l ++ [y]) d = y.
Proof. apply last_last. Qed.

Lemma trimEnd_last (s : jsstring) :
  match trimEnd s with [] => True | _ :: _ => isSpace (last (trimEnd s) 0%N) = false end.
Proof.
  unfold trimEnd. pose proof (dropWhile_head isSpace (rev s)) as H.
  destruct (dropWhile isSpace (rev s)) as [|x l]; simpl; [exact I|].
  destruct (rev l ++ [x]) eqn:E; [exact I|]. rewrite <- E. now rewrite last_snoc.
Qed.

Lemma trimEnd_keeps_head (x : N) (s : jsstring) :
  isSpace x = false -> exists t, trimEnd (x :: s) = x :: t.
Proof.
  intros Hx. unfold trimEnd. simpl rev. rewrite dropWhile_snoc by exact Hx.
  rewrite rev_app_distr. simpl. eauto.
Qed.

Lemma trim_trimmed (s : jsstring) : trimmed (trim s).
Proof.
  unfold trim, trimStart.
  pose proof (dropWhile_head isSpace s) as H.
  destruct (dropWhile isSpace s) as [|x t]; [exact I|].
  destruct (trimEnd_keeps_head x t H) as [u E].
  pose proof (trimEnd_last (x :: t)) as L. rewrite E in L |- *.
  split; assumption.
Qed.

Lemma trimmed_trim (s : jsstring) : trimmed s -> trim s = s.
Proof.
  destruct s as [|x s]; [reflexivity|]. intros [Hx Hl].
  unfold trim, trimStart. simpl dropWhile. rewrite Hx.
  unfold trimEnd.
  destruct (exists_last (l := x :: s)) as (l & y & E); [discriminate|].
  rewrite E in Hl |- *. rewrite last_snoc in Hl.
  rewrite rev_app_distr. simpl. rewrite Hl. simpl.
  now rewrite rev_involutive.
Qed.

Lemma collapsed_tail (x : N) (s : jsstring) : collapsed (x :: s) -> collapsed s.
Proof. simpl. tauto. Qed.

Lemma collapsed_skipn (n : nat) (s : jsstring) : collapsed s -> collapsed (skipn n s).
Proof.
  revert s. induction n as [|n IH]; intros s H; [exact H|].
  destruct s as [|x s]; [exact I|]. simpl. apply IH. eapply collapsed_tail; eassumption.
Qed.

Lemma collapsed_firstn (n : nat) (s : jsstring) : collapsed s -> collapsed (firstn n s).
Proof.
  revert s. induction n as [|n IH]; intros s H; [exact I|].
  destruct s as [|x s]; [exact I|]. simpl in H |- *. destruct H as [Hx Hs].
  split; [|apply IH; exact Hs].
  intros Sx. destruct (Hx Sx) as [-> Hn]. split; [reflexivity|].
  destruct n; [exact I|]. destruct s; [exact I|exact Hn].
Qed.

Lemma collapsed_app (s t : jsstring) :
  collapsed s -> Forall (fun c => isSpace c = false) t -> collapsed (s ++ t).
Proof.
  intros Hs Ht. induction s as [|x s IH]; simpl.
  - induction Ht as [|c t Hc _ IHt]; simpl; [exact I|].
    split; [intros Sc; rewrite Sc in Hc; discriminate | exact IHt].
  - simpl in Hs. destruct Hs as [Hx Hs]. split; [|apply IH; exact Hs].
    intros Sx. destruct (Hx Sx) as [-> Hn]. split; [reflexivity|].
    destruct s as [|y s]; simpl; [|exact Hn].
    destruct Ht; [exact I | assumption].
Qed.

Lemma collapsed_trim (s : jsstring) : collapsed s -> collapsed (trim s).
Proof.
  intros H. unfold trim. destruct (trimEnd_prefix (trimStart s)) as [n ->].
  apply collapsed_firstn. unfold trimStart. rewrite dropWhile_skipn.
  now apply collapsed_skipn.
Qed.

(* ------------------------------------------------------------------ *)
(** *** The replacements of [cleanTitle] *)

Lemma star_accepts (p : N -> bool) (s : jsstring) :
  forall (i : nat) (c : Re.caps),
    Re.star p i s c (fun j _ c' => Some (j, c')) = Some (i + leading p s, c).
Proof.
  induction s as [|x s IH]; simpl; intros i c.
  - now rewrite Nat.add_0_r.
  - destruct (p x).
    + rewrite IH. f_equal. f_equal. lia.
    + now rewrite Nat.add_0_r.
Qed.

(** A run of a class, [[p]+], at the head of a string. *)
Lemma match_at_plus (p : N -> bool) (i : nat) (s : jsstring) :
  Re.match_at (Re.plus p) i s =
  match s with
  | x :: s' => if p x then Some (S i + leading p s', []) else None
  | [] => None
  end.
Proof.
  unfold Re.match_at, Re.plus. cbn [Re.rmatch].
  destruct s as [|x s']; [reflexivity|].
  destruct (p x); [|reflexivity]. apply star_accepts.
Qed.

(** Replacing the runs of white space by one blank leaves a collapsed
    string. *)
Lemma replace_spaces_collapsed (subject s : jsstring) :
  forall i,
    collapsed (Re.replace_go re_spaces space subject i s 0)
    /\ (collapsed (Re.replace_go re_spaces space subject i s (leading isSpace s))
        /\ head_not_space (Re.replace_go re_spaces space subject i s (leading isSpace s))).
Proof.
  induction s as [|x s IH]; intros i.
  - assert (E : Re.match_at re_spaces i [] = None)
      by (unfold re_spaces; exact (match_at_plus isSpace i [])).
    cbn [Re.replace_go leading]. rewrite E. simpl. auto.
  - assert (A : collapsed (Re.replace_go re_spaces space subject i (x :: s) 0)
                /\ (isSpace x = false ->
                    head_not_space (Re.replace_go re_spaces space subject i (x :: s) 0))).
    { assert (E : Re.match_at re_spaces i (x :: s) =
                  if isSpace x then Some (S i + leading isSpace s, []) else None)
        by (unfold re_spaces; exact (match_at_plus isSpace i (x :: s))).
      cbn [Re.replace_go]. rewrite E. clear E.
      destruct (isSpace x) eqn:Sx.
      - split; [|discriminate].
        replace (Nat.eqb (S i + leading isSpace s) i) with false
          by (symmetry; apply Nat.eqb_neq; lia).
        replace (S i + leading isSpace s - i - 1) with (leading isSpace s) by lia.
        destruct (IH (S i)) as (_ & C & Hd).
        unfold space, Re.expand. simpl flat_map. simpl app.
        split; [|exact C]. intros _. split; [reflexivity|].
        destruct (Re.replace_go _ _ _ _ _ _); [exact I | exact Hd].
      - destruct (IH (S i)) as (C & _). split.
        + split; [intros E; rewrite E in Sx; discriminate | exact C].
        + intros _. exact Sx. }
    split; [exact (proj1 A)|].
    cbn [leading]. destruct (isSpace x) eqn:Sx.
    + cbn [Re.replace_go]. exact (proj2 (IH (S i))).
    + split; [exact (proj1 A) | exact (proj2 A eq_refl)].
Qed.

(** On a collapsed string that replacement changes nothing. *)
Lemma replace_spaces_fixed (subject s : jsstring) :
  collapsed s -> forall i, Re.replace_go re_spaces space subject i s 0 = s.
Proof.
  induction s as [|x s IH]; intros C i; cbn [Re.replace_go].
  { assert (E : Re.match_at re_spaces i [] = None)
      by (unfold re_spaces; exact (match_at_plus isSpace i [])).
    now rewrite E. }
  assert (E : Re.match_at re_spaces i (x :: s) =
              if isSpace x then Some (S i + leading isSpace s, []) else None)
    by (unfold re_spaces; exact (match_at_plus isSpace i (x :: s))).
  rewrite E. clear E.
  simpl in C. destruct C as [Cx Cs].
  destruct (isSpace x) eqn:Sx.
  - destruct (Cx eq_refl) as [-> Hn].
    assert (L : leading isSpace s = 0).
    { destruct s as [|y s']; [reflexivity|]. simpl. now rewrite Hn. }
    rewrite L.
    replace (Nat.eqb (S i + 0) i) with false by (symmetry; apply Nat.eqb_neq; lia).
    replace (S i + 0 - i - 1) with 0 by lia.
    unfold space, Re.expand. simpl flat_map. simpl app. f_equal. apply IH. exact Cs.
  - f_equal. apply IH. exact Cs.
Qed.

(** Where a pattern matches nowhere, replacing changes nothing. *)
Lemma replace_go_no_match (r : Re.regex) (tpl : list Re.piece) (subject s : jsstring) :
  forall i, Re.search r i s = None -> Re.replace_go r tpl subject i s 0 = s.
Proof.
  induction s as [|x s IH]; intros i H; cbn [Re.replace_go Re.search] in *.
  - destruct (Re.match_at r i []) as [[j c]|]; [discriminate | reflexivity].
  - destruct (Re.match_at r i (x :: s)) as [[j c]|]; [discriminate|].
    f_equal. apply IH. exact H.
Qed.

Lemma break_is_space (c : N) : isBreak c = true -> isSpace c = true /\ c <> 32%N.
Proof.
  unfold isBreak. intros H.
  assert (Hc : c = 10%N \/ c = 13%N \/ c = 9%N).
  { apply orb_true_iff in H. destruct H as [H|H].
    - apply orb_true_iff in H. destruct H as [H|H]; apply N.eqb_eq in H; auto.
    - apply N.eqb_eq in H. auto. }
  destruct Hc as [-> | [-> | ->]]; split; try reflexivity; discriminate.
Qed.

Lemma collapsed_no_break (s : jsstring) :
  collapsed s -> forall i, Re.search re_breaks i s = None.
Proof.
  induction s as [|x s IH]; intros C i; cbn [Re.search].
  { assert (E : Re.match_at re_breaks i [] = None)
      by (unfold re_breaks; exact (match_at_plus isBreak i [])).
    now rewrite E. }
  assert (E : Re.match_at re_breaks i (x :: s) =
              if isBreak x then Some (S i + leading isBreak s, []) else None)
    by (unfold re_breaks; exact (match_at_plus isBreak i (x :: s))).
  rewrite E. clear E.
  simpl in C. destruct C as [Cx Cs].
  destruct (isBreak x) eqn:B.
  - destruct (break_is_space x B) as [Sx Nx]. destruct (Cx Sx) as [E _]. contradiction.
  - apply IH. exact Cs.
Qed.

(** A pattern anchored at the start matches at the start only. *)
Lemma anchored_match_at (r : Re.regex) (i : nat) (s : jsstring) :
  Re.match_at (Re.Seq Re.Bol r) (S i) s = None.
Proof. reflexivity. Qed.

Lemma anchored_replace_go (r : Re.regex) (subject s : jsstring) :
  forall i skip, Re.replace_go (Re.Seq Re.Bol r) [] subject (S i) s skip = skipn skip s.
Proof.
  induction s as [|x s IH]; intros i skip; cbn [Re.replace_go].
  - destruct skip; reflexivity.
  - destruct skip as [|n].
    + rewrite anchored_match_at. simpl. f_equal. apply (IH (S i) 0).
    + simpl. apply IH.
Qed.

(** Deleting the matches of an anchored pattern leaves a suffix. *)
Lemma anchored_delete_suffix (r : Re.regex) (s : jsstring) :
  exists n, Re.replace_all (Re.Seq Re.Bol r) [] s = skipn n s.
Proof.
  unfold Re.replace_all. destruct s as [|x s]; cbn [Re.replace_go].
  - exists 0. destruct (Re.match_at _ 0 []) as [[j c]|]; reflexivity.
  - destruct (Re.match_at _ 0 (x :: s)) as [[j c]|]; simpl.
    + destruct (Nat.eqb j 0).
      * exists 0. simpl. f_equal. apply (anchored_replace_go r (x :: s) s 0 0).
      * exists (S (j - 0 - 1)). simpl. apply anchored_replace_go.
    + exists 0. simpl. f_equal. apply (anchored_replace_go r (x :: s) s 0 0).
Qed.

Lemma re_promo_anchored : exists r, re_promo = Re.Seq Re.Bol r.
Proof. unfold re_promo. cbn [Re.seq_of]. eauto. Qed.

(* ------------------------------------------------------------------ *)
(** *** Titles *)

Lemma last_app_cons (l : jsstring) (y : N) (t : jsstring) (d : N) :
  last (l ++ y :: t) d = last (y :: t) d.
Proof.
  induction l as [|x l IH]; [reflexivity|].
  simpl app. rewrite <- IH. simpl. destruct (l ++ y :: t) eqn:E; [|reflexivity].
  destruct l; discriminate.
Qed.

(** What [cleanTitle] leaves of a string: collapsed, trimmed, and of at
    most 120 code units. *)
Lemma cleanTitle_trimmed_settled (s : jsstring) :
  collapsed (cleanTitle_trimmed 120 s)
  /\ trimmed (cleanTitle_trimmed 120 s)
  /\ List.length (cleanTitle_trimmed 120 s) <= 120.
Proof.
  unfold cleanTitle_trimmed.
  set (c2 := Re.replace_all re_spaces space (Re.replace_all re_breaks space s)).
  assert (C2 : collapsed c2) by (apply replace_spaces_collapsed).
  set (c3 := trim (Re.replace_all re_promo [] c2)).
  assert (C3 : collapsed c3).
  { unfold c3. apply collapsed_trim.
    destruct re_promo_anchored as [r ->].
    destruct (anchored_delete_suffix r c2) as [n ->]. now apply collapsed_skipn. }
  assert (T3 : trimmed c3) by apply trim_trimmed.
  cbv zeta. destruct (120 <? List.length c3) eqn:L.
  - apply Nat.ltb_lt in L. unfold substring0.
    split; [|split].
    + apply collapsed_app; [now apply collapsed_firstn|].
      repeat constructor.
    + destruct c3 as [|x c3']; [simpl in L; lia|].
      destruct T3 as [Hx _]. cbn [firstn app]. split; [exact Hx|].
      change (js "...") with (46%N :: [46; 46]%N).
      rewrite last_app_cons. reflexivity.
    + rewrite length_app, length_firstn.
      change (List.length (js "...")) with 3. lia.
  - apply Nat.ltb_ge in L. auto.
Qed.

(** A settled title without a promotional prefix is returned as it is. *)
Lemma cleanTitle_fixed (t : jsstring) :
  collapsed t -> trimmed t -> List.length t <= 120 -> t <> [] ->
  Re.test re_promo t = false ->
  cleanTitle (VStr t) = Normal t.
Proof.
  intros C T L Hne Hp.
  unfold cleanTitle, cleanTitle_max.
  destruct t as [|x t']; [contradiction|].
  simpl truthy. simpl is_string. cbn [negb orb String_trim bind].
  rewrite (trimmed_trim _ T).
  unfold cleanTitle_trimmed.
  assert (E1 : Re.replace_all re_breaks space (x :: t') = x :: t').
  { apply replace_go_no_match. now apply collapsed_no_break. }
  rewrite E1.
  assert (E2 : Re.replace_all re_spaces space (x :: t') = x :: t').
  { apply replace_spaces_fixed. exact C. }
  rewrite E2.
  assert (E3 : Re.replace_all re_promo [] (x :: t') = x :: t').
  { apply replace_go_no_match. unfold Re.test in Hp.
    destruct (Re.search re_promo 0 (x :: t')); [discriminate | reflexivity]. }
  rewrite E3, (trimmed_trim _ T).
  replace (120 <? List.length (x :: t')) with false
    by (symmetry; apply Nat.ltb_ge; exact L).
  reflexivity.
Qed.

(** C4, as the code has it. Normalizing a normalized title again returns
    it unchanged whenever it is not empty and does not start with a
    promotional prefix; a normalized title has at most 120 code units, so
    the second pass never truncates. *)
Theorem cleanTitle_idempotent_on_settled_titles (title : value) (t : jsstring) :
  cleanTitle title = Normal t ->
  t <> [] ->
  Re.test re_promo t = false ->
  cleanTitle (VStr t) = Normal t /\ List.length t <= 120.
Proof.
  intros H Hne Hp.
  assert (S : collapsed t /\ trimmed t /\ List.length t <= 120).
  { unfold cleanTitle, cleanTitle_max in H.
    destruct (negb (truthy title) || negb (is_string title)).
    - injection H as <-. simpl. repeat split; try discriminate; try lia.
      all: intros E; vm_compute in E; discriminate E.
    - inv_bind. apply cleanTitle_trimmed_settled. }
  destruct S as (C & T & L).
  split; [now apply cleanTitle_fixed | exact L].
Qed.

(** [cleanTitle_idempotent_on_settled_titles] on a title with a prefix, a
    line break and doubled blanks. *)
Lemma cleanTitle_idempotent_on_settled_titles_witness :
  cleanTitle (VStr (js "Floral Midi Dress")) = Normal (js "Floral Midi Dress")
  /\ List.length (js "Floral Midi Dress") <= 120.
Proof.
  apply (cleanTitle_idempotent_on_settled_titles
           (VStr (js "  SALE:  Floral" ++ [10%N] ++ js "Midi   Dress "))
           (js "Floral Midi Dress")).
  - vm_compute. reflexivity.
  - discriminate.
  - vm_compute. reflexivity.
Defined.

(** C4, as stated, fails: a second pass strips a second promotional
    prefix, and the empty title of a blank string becomes the sentinel. *)
Lemma cleanTitle_is_not_idempotent :
  cleanTitle (VStr (js "new new dress")) = Normal (js "new dress")
  /\ cleanTitle (VStr (js "new dress")) = Normal (js "dress")
  /\ js "dress" <> js "new dress"
  /\ cleanTitle (VStr (js "   ")) = Normal []
  /\ cleanTitle (VStr []) = Normal (js "Unknown Product").
Proof.
  repeat split; try (vm_compute; reflexivity). vm_compute. discriminate.
Qed.

(* ------------------------------------------------------------------ *)
(** *** Order and number of the products *)

Lemma Subseq_nil_l {A : Type} (l : list A) : Subseq [] l.
Proof. induction l; constructor; assumption. Qed.

Lemma Subseq_refl {A : Type} (l : list A) : Subseq l l.
Proof. induction l; [apply Subseq_nil | apply Subseq_keep; assumption]. Qed.

Lemma Subseq_app {A : Type} (k1 l1 k2 l2 : list A) :
  Subseq k1 l1 -> Subseq k2 l2 -> Subseq (k1 ++ k2) (l1 ++ l2).
Proof.
  induction 1; simpl; intros H2;
    [exact H2 | apply Subseq_skip; auto | apply Subseq_keep; auto].
Qed.

Lemma Subseq_firstn {A : Type} (n : nat) (kept l : list A) :
  Subseq kept (firstn n l) -> Subseq kept l.
Proof.
  revert kept l. induction n as [|n IH]; intros kept l H.
  - simpl in H. inversion H. apply Subseq_nil_l.
  - destruct l as [|x l]; [exact H|]. simpl in H.
    inversion H; subst; [apply Subseq_skip | apply Subseq_keep]; apply IH; assumption.
Qed.

Lemma Subseq_length {A : Type} (kept l : list A) :
  Subseq kept l -> List.length kept <= List.length l.
Proof. induction 1; simpl; lia. Qed.

Lemma in_order_of_nil {A : Type} (R : A -> Product -> Prop) (items : list A) :
  in_order_of R items [].
Proof. exists []. split; [apply Subseq_nil_l | constructor]. Qed.

Lemma filterValidProducts_app (a b : list (option Product)) :
  filterValidProducts (a ++ b) = filterValidProducts a ++ filterValidProducts b.
Proof.
  induction a as [|[p|] a IH]; cbn [filterValidProducts app]; auto.
  destruct (validProduct (Some p)); simpl; now rewrite IH.
Qed.

Lemma filterValidProducts_length (l : list (option Product)) :
  List.length (filterValidProducts l) <= List.length l.
Proof.
  induction l as [|[p|] l IH]; cbn [filterValidProducts List.length]; [lia| |lia].
  destruct (validProduct (Some p)); cbn [List.length]; lia.
Qed.

(** The validity filter keeps the order of what it keeps. *)
Lemma filter_in_order {A : Type} (R : A -> option Product -> Prop) (items : list A)
  (formatted : list (option Product)) :
  Forall2 R items formatted ->
  in_order_of (fun a p => R a (Some p)) items (filterValidProducts formatted).
Proof.
  induction 1 as [|a b items formatted Hab _ IH]; [apply in_order_of_nil|].
  destruct IH as (kept & Hs & Hf).
  destruct b as [p|]; cbn [filterValidProducts].
  - destruct (validProduct (Some p)).
    + exists (a :: kept). split; [apply Subseq_keep | constructor]; assumption.
    + exists kept. split; [apply Subseq_skip|]; assumption.
  - exists kept. split; [apply Subseq_skip|]; assumption.
Qed.

Lemma in_order_of_weaken {A : Type} (R : A -> Product -> Prop) (kept items : list A)
  (products : list Product) :
  Subseq kept items -> in_order_of R kept products -> in_order_of R items products.
Proof.
  intros Hs (k & Hk & Hf). exists k. split; [|exact Hf].
  clear Hf. revert k Hk. induction Hs; intros k Hk.
  - exact Hk.
  - apply Subseq_skip. now apply IHHs.
  - inversion Hk; subst; [apply Subseq_skip | apply Subseq_keep]; now apply IHHs.
Qed.

Lemma pushes_nothing (f : nat -> value -> completion (option Product)) (items : list value) :
  pushes f items (fun acc => acc).
Proof.
  intros acc. split; [|auto].
  exists [], []. rewrite app_nil_r. repeat split; [apply Subseq_nil_l | constructor].
Qed.

Lemma pushes_push_each (f : nat -> value -> completion (option Product)) (items : list value) :
  pushes f items (push_each f items).
Proof.
  induction items as [|item rest IH]; [apply pushes_nothing|].
  intros acc. cbn [push_each].
  destruct (MAX_RESULTS <=? List.length acc) eqn:Full.
  { apply (pushes_nothing f (item :: rest) acc). }
  apply Nat.leb_gt in Full.
  destruct (f (List.length acc) item) as [b|e] eqn:Hf.
  - destruct (IH (acc ++ [b])) as ((kept & new & E & Hs & Hk) & Hb).
    split.
    + exists (item :: kept), (b :: new). rewrite E, <- app_assoc.
      repeat split; [apply Subseq_keep; exact Hs | constructor; eauto].
    + intros _. apply Hb. rewrite length_app. simpl. lia.
  - apply (pushes_nothing f (item :: rest) acc).
Qed.

Lemma pushes_compose (f : nat -> value -> completion (option Product))
  (items1 items2 : list value) (step1 step2 : list (option Product) -> list (option Product)) :
  pushes f items1 step1 -> pushes f items2 step2 ->
  pushes f (items1 ++ items2) (fun acc => step2 (step1 acc)).
Proof.
  intros H1 H2 acc.
  destruct (H1 acc) as ((k1 & n1 & E1 & S1 & F1) & B1).
  destruct (H2 (step1 acc)) as ((k2 & n2 & E2 & S2 & F2) & B2).
  split; [|auto].
  exists (k1 ++ k2), (n1 ++ n2). rewrite E2, E1, <- app_assoc.
  repeat split; [now apply Subseq_app | now apply Forall2_app].
Qed.

Lemma pushes_fold {B : Type} (f : nat -> value -> completion (option Product))
  (g : B -> list value) (step : list (option Product) -> B -> list (option Product))
  (xs : list B) :
  (forall x, pushes f (g x) (fun acc => step acc x)) ->
  pushes f (flat_map g xs) (fun acc => fold_left step xs acc).
Proof.
  intros H. induction xs as [|x xs IH]; simpl; [apply pushes_nothing|].
  apply (pushes_compose f (g x) (flat_map g xs) (fun acc => step acc x)
           (fun acc => fold_left step xs acc)); [apply H | exact IH].
Qed.

(** What the validity filter returns of what was pushed from nothing. *)
Lemma pushes_result (f : nat -> value -> completion (option Product)) (items : list value)
  (step : list (option Product) -> list (option Product)) :
  pushes f items step ->
  List.length (filterValidProducts (step [])) <= MAX_RESULTS
  /\ in_order_of (made_by f) items (filterValidProducts (step [])).
Proof.
  intros H. destruct (H []) as ((kept & new & E & Hs & Hf) & Hb). split.
  - etransitivity; [apply filterValidProducts_length|]. apply Hb. simpl. unfold MAX_RESULTS. lia.
  - rewrite E. simpl. apply (in_order_of_weaken _ kept items _ Hs).
    exact (filter_in_order _ kept new Hf).
Qed.

Lemma hmScript_pushes (P : Platform) (env : TaskEnv) (sn : jsstring) (sid : value)
  (el : Elem P) :
  pushes (hmItem P env sn sid) (hmItems P el) (fun acc => hmScript P env sn sid acc el).
Proof.
  unfold hmScript, hmItems. cbv zeta.
  destruct (_ || _); [|apply pushes_nothing].
  destruct (Re.match_group re_hm_products 1 _) as [json|]; [|apply pushes_nothing].
  destruct (JSON_parse P json); [apply pushes_push_each | apply pushes_nothing].
Qed.

Lemma nordstromScript_pushes (P : Platform) (env : TaskEnv) (sn : jsstring) (sid : value)
  (el : Elem P) :
  pushes (nordstromItem P env sn sid) (nordstromItems P el)
    (fun acc => nordstromScript P env sn sid acc el).
Proof.
  unfold nordstromScript, nordstromItems, nordstromResults.
  destruct (parse_html P el); [apply pushes_push_each | apply pushes_nothing].
Qed.

Lemma sheinScript_pushes (P : Platform) (env : TaskEnv) (sn : jsstring) (sid : value)
  (el : Elem P) :
  pushes (sheinItem P env sn sid) (sheinItems P el)
    (fun acc => sheinScript P env sn sid acc el).
Proof.
  unfold sheinScript, sheinItems. cbv zeta.
  destruct (_ || _); [|apply pushes_nothing].
  fold (sheinMatches (script_text P el)).
  apply (pushes_fold (sheinItem P env sn sid)
           (fun m => match JSON_parse P m with
                     | Normal items => array_items items
                     | Throw _ => []
                     end)
           (sheinMatch P env sn sid)).
  intros m. unfold sheinMatch.
  destruct (JSON_parse P m); [apply pushes_push_each | apply pushes_nothing].
Qed.

Lemma try_catch_returns {A : Type} (c : completion (list A)) :
  exists l, try_catch c (fun _ => Normal []) = Normal l.
Proof. destruct c; simpl; eauto. Qed.

Lemma mapped_in_order (f : nat -> value -> completion (option Product)) (items : list value)
  (formatted : list (option Product)) :
  mapM f (firstn MAX_RESULTS items) = Normal formatted ->
  List.length (filterValidProducts formatted) <= MAX_RESULTS
  /\ in_order_of (made_by f) items (filterValidProducts formatted).
Proof.
  intros H. apply mapM_from_Forall2 in H. split.
  - etransitivity; [apply filterValidProducts_length|].
    rewrite <- (Forall2_length H). apply firstn_le_length.
  - apply (in_order_of_weaken _ (firstn MAX_RESULTS items)).
    + apply (Subseq_firstn MAX_RESULTS). apply Subseq_refl.
    + exact (filter_in_order _ _ _ H).
Qed.

Lemma scrapeShopifyStore_ordered (P : Platform) (env : TaskEnv) (key : jsstring)
  (c : StoreConfig) (d0 : N) (d query : jsstring) :
  lookup_config key = Own c ->
  cfg_domain c = Some (d0 :: d) ->
  exists result,
    scrapeShopifyStore P env query (VStr key) = Normal result
    /\ List.length result <= MAX_RESULTS
    /\ forall url data,
         shopifyUrl (js "https://" ++ d0 :: d) query = Normal url ->
         fetchJSON P env url = Normal data ->
         in_order_of
           (made_by (shopifyItem P env (js "https://" ++ d0 :: d) (cfg_name c) (VStr key)))
           (shopifyProducts data) result.
Proof.
  intros Hc Hd. unfold scrapeShopifyStore, STORE_CONFIG_get.
  simpl toString. cbn [bind]. rewrite Hc, Hd.
  match goal with |- exists r, try_catch ?body _ = _ /\ _ =>
    destruct (try_catch_returns body) as [l Hl]; exists l; split; [exact Hl|];
    apply try_catch_empty in Hl; destruct Hl as [Hl| ->]
  end.
  2: { split; [simpl; lia|]. intros. apply in_order_of_nil. }
  inv_bind. unfold shopifyProducts.
  destruct (or_else _ _) as [| | | | |[|i0 items]| |] eqn:Hp;
    try (injection Hl as <-; split; [simpl; lia|]; intros; apply in_order_of_nil).
  inv_bind.
  destruct (mapped_in_order _ _ _ Ha1) as [HL HO]. split; [exact HL|].
  intros url data Hu Hf. rewrite Ha in Hu. injection Hu as <-.
  rewrite Ha0 in Hf. injection Hf as <-. rewrite Hp. exact HO.
Qed.

Lemma scrapeASOS_ordered (P : Platform) (env : TaskEnv) (query : jsstring) :
  exists result,
    scrapeASOS P env query = Normal result
    /\ List.length result <= MAX_RESULTS
    /\ forall url data,
         asosUrl query = Normal url ->
         fetchJSON P env url = Normal data ->
         in_order_of (made_by (asosItem P env (js "ASOS") (VStr (js "asos"))))
           (asosProducts data) result.
Proof.
  unfold scrapeASOS. cbv zeta.
  match goal with |- exists r, try_catch ?body _ = _ /\ _ =>
    destruct (try_catch_returns body) as [l Hl]; exists l; split; [exact Hl|];
    apply try_catch_empty in Hl; destruct Hl as [Hl| ->]
  end.
  2: { split; [simpl; lia|]. intros. apply in_order_of_nil. }
  inv_bind. unfold asosProducts.
  destruct (or_else _ _) as [| | | | |[|i0 items]| |] eqn:Hp;
    try (injection Hl as <-; split; [simpl; lia|]; intros; apply in_order_of_nil).
  inv_bind.
  destruct (mapped_in_order _ _ _ Ha1) as [HL HO]. split; [exact HL|].
  intros url data Hu Hf. rewrite Ha in Hu. injection Hu as <-.
  rewrite Ha0 in Hf. injection Hf as <-. rewrite Hp. exact HO.
Qed.

Lemma scrapeHM_ordered (P : Platform) (env : TaskEnv) (query : jsstring) :
  exists result,
    scrapeHM P env query = Normal result
    /\ List.length result <= MAX_RESULTS
    /\ forall url doc,
         hmUrl query = Normal url ->
         fetchHTML P env url = Normal doc ->
         in_order_of (made_by (hmItem P env (js "H&M") (VStr (js "hm"))))
           (flat_map (hmItems P) (cheerio_select P doc (js "script"))) result.
Proof.
  unfold scrapeHM. cbv zeta.
  match goal with |- exists r, try_catch ?body _ = _ /\ _ =>
    destruct (try_catch_returns body) as [l Hl]; exists l; split; [exact Hl|];
    apply try_catch_empty in Hl; destruct Hl as [Hl| ->]
  end.
  2: { split; [simpl; lia|]. intros. apply in_order_of_nil. }
  inv_bind.
  destruct (pushes_result _ _ _
              (pushes_fold _ (hmItems P) (hmScript P env (js "H&M") (VStr (js "hm")))
                 (cheerio_select P a0 (js "script"))
                 (hmScript_pushes P env (js "H&M") (VStr (js "hm"))))) as [HL HO].
  split; [exact HL|].
  intros url doc Hu Hf. rewrite Ha in Hu. injection Hu as <-.
  rewrite Ha0 in Hf. injection Hf as <-. exact HO.
Qed.

Lemma scrapeNordstrom_ordered (P : Platform) (env : TaskEnv) (query : jsstring) :
  exists result,
    scrapeNordstrom P env query = Normal result
    /\ List.length result <= MAX_RESULTS
    /\ forall url doc,
         nordstromUrl query = Normal url ->
         fetchHTML P env url = Normal doc ->
         in_order_of (made_by (nordstromItem P env (js "Nordstrom") (VStr (js "nordstrom"))))
           (flat_map (nordstromItems P) (cheerio_select P doc nordstromSelector)) result.
Proof.
  unfold scrapeNordstrom. cbv zeta.
  match goal with |- exists r, try_catch ?body _ = _ /\ _ =>
    destruct (try_catch_returns body) as [l Hl]; exists l; split; [exact Hl|];
    apply try_catch_empty in Hl; destruct Hl as [Hl| ->]
  end.
  2: { split; [simpl; lia|]. intros. apply in_order_of_nil. }
  inv_bind.
  destruct (pushes_result _ _ _
              (pushes_fold _ (nordstromItems P)
                 (nordstromScript P env (js "Nordstrom") (VStr (js "nordstrom")))
                 (cheerio_select P a0 nordstromSelector)
                 (nordstromScript_pushes P env (js "Nordstrom") (VStr (js "nordstrom")))))
    as [HL HO].
  split; [exact HL|].
  intros url doc Hu Hf. rewrite Ha in Hu. injection Hu as <-.
  rewrite Ha0 in Hf. injection Hf as <-. exact HO.
Qed.

Lemma scrapeShein_ordered (P : Platform) (env : TaskEnv) (query : jsstring) :
  exists result,
    scrapeShein P env query = Normal result
    /\ List.length result <= MAX_RESULTS
    /\ forall url doc,
         sheinUrl query = Normal url ->
         fetchHTML P env url = Normal doc ->
         in_order_of (made_by (sheinItem P env (js "SHEIN") (VStr (js "shein"))))
           (flat_map (sheinItems P) (cheerio_select P doc (js "script"))) result.
Proof.
  unfold scrapeShein. cbv zeta.
  match goal with |- exists r, try_catch ?body _ = _ /\ _ =>
    destruct (try_catch_returns body) as [l Hl]; exists l; split; [exact Hl|];
    apply try_catch_empty in Hl; destruct Hl as [Hl| ->]
  end.
  2: { split; [simpl; lia|]. intros. apply in_order_of_nil. }
  inv_bind.
  destruct (pushes_result _ _ _
              (pushes_fold _ (sheinItems P) (sheinScript P env (js "SHEIN") (VStr (js "shein")))
                 (cheerio_select P a0 (js "script"))
                 (sheinScript_pushes P env (js "SHEIN") (VStr (js "shein"))))) as [HL HO].
  split; [exact HL|].
  intros url doc Hu Hf. rewrite Ha in Hu. injection Hu as <-.
  rewrite Ha0 in Hf. injection Hf as <-. exact HO.
Qed.

Lemma lulusElement_shape (P : Platform) (env : TaskEnv) (sn : jsstring) (sid : value)
  (k : nat) (el : Elem P) (pushed : list (option Product)) :
  lulusElement P env sn sid k el = Normal pushed ->
  pushed = [] \/ exists b, pushed = [b].
Proof.
  unfold lulusElement. cbv zeta.
  destruct (string_of (or_else (or_else (VStr (trim _)) _) _)) as [|t0 t];
    [intros H; injection H as <-; now left|].
  match goal with
  | |- match ?l with [] => _ | _ :: _ => _ end = _ -> _ => destruct l
  end; intros H; [injection H as <-; now left|].
  inv_bind. right. eauto.
Qed.

Lemma lulusEach_pushes (P : Platform) (env : TaskEnv) (sn : jsstring) (sid : value)
  (els : list (Elem P)) :
  forall (i : nat) (acc out : list (option Product)),
    lulusEach P env sn sid i els acc = Normal out ->
    exists kept new,
      out = acc ++ new
      /\ Subseq kept els
      /\ Forall2 (fun el b => exists k, lulusElement P env sn sid k el = Normal [b]) kept new
      /\ List.length new <= MAX_RESULTS - i.
Proof.
  induction els as [|el rest IH]; intros i acc out H; cbn [lulusEach] in H.
  - injection H as <-. exists [], []. rewrite app_nil_r.
    repeat split; [apply Subseq_nil | constructor | simpl; lia].
  - destruct (MAX_RESULTS <=? i) eqn:Cap.
    + destruct (IH _ _ _ H) as (kept & new & E & Hs & Hf & Hl).
      exists kept, new. repeat split; auto; [now apply Subseq_skip | lia].
    + apply Nat.leb_gt in Cap. inv_bind.
      destruct (IH _ _ _ H) as (kept & new & E & Hs & Hf & Hl).
      destruct (lulusElement_shape _ _ _ _ _ _ _ Ha) as [->|[b ->]].
      * rewrite app_nil_r in E. exists kept, new.
        repeat split; auto; [now apply Subseq_skip | lia].
      * exists (el :: kept), (b :: new). rewrite E, <- app_assoc.
        repeat split; [now apply Subseq_keep | constructor; eauto | cbn [List.length]; lia].
Qed.

Lemma lulusSelect_settled (P : Platform) (env : TaskEnv) (sn : jsstring) (sid : value)
  (doc : Doc P) (sels : list jsstring) (b : option Product) (l : list (option Product)) :
  lulusSelect P env sn sid doc sels (b :: l) = Normal (b :: l).
Proof. destruct sels; reflexivity. Qed.

Lemma lulusSelect_source (P : Platform) (env : TaskEnv) (sn : jsstring) (sid : value)
  (doc : Doc P) (sels : list jsstring) :
  forall out,
    lulusSelect P env sn sid doc sels [] = Normal out ->
    out = [] \/ exists sel, In sel sels
                  /\ lulusEach P env sn sid 0 (cheerio_select P doc sel) [] = Normal out.
Proof.
  induction sels as [|sel rest IH]; intros out H; cbn [lulusSelect] in H.
  - injection H as <-. now left.
  - inv_bind. destruct a as [|b l].
    + destruct (IH _ H) as [->|(s & Hin & Hs)]; [now left|].
      right. exists s. split; [now right | exact Hs].
    + rewrite lulusSelect_settled in H. injection H as <-.
      right. exists sel. split; [now left | exact Ha].
Qed.

Lemma scrapeLulus_ordered (P : Platform) (env : TaskEnv) (query : jsstring) :
  exists result,
    scrapeLulus P env query = Normal result
    /\ List.length result <= MAX_RESULTS
    /\ forall url doc,
         lulusUrl query = Normal url ->
         fetchHTML P env url = Normal doc ->
         exists sel, In sel lulusSelectors /\
           in_order_of
             (fun el p => exists k, lulusElement P env (js "Lulus") (VStr (js "lulus")) k el
                                    = Normal [Some p])
             (cheerio_select P doc sel) result.
Proof.
  unfold scrapeLulus. cbv zeta.
  match goal with |- exists r, try_catch ?body _ = _ /\ _ =>
    destruct (try_catch_returns body) as [l Hl]; exists l; split; [exact Hl|];
    apply try_catch_empty in Hl; destruct Hl as [Hl| ->]
  end.
  2: { split; [simpl; lia|]. intros. exists (js ".product-card").
       split; [now left | apply in_order_of_nil]. }
  inv_bind.
  destruct (lulusSelect_source _ _ _ _ _ _ _ Ha1) as [->|(sel & Hin & Hs)].
  { split; [simpl; lia|]. intros. exists (js ".product-card").
    split; [now left | apply in_order_of_nil]. }
  destruct (lulusEach_pushes _ _ _ _ _ _ _ _ Hs) as (kept & new & E & Hk & Hf & Hl).
  simpl in E. subst a1. split.
  - etransitivity; [apply filterValidProducts_length|]. lia.
  - intros url doc Hu Hd. rewrite Ha in Hu. injection Hu as <-.
    rewrite Ha0 in Hd. injection Hd as <-.
    exists sel. split; [exact Hin|].
    apply (in_order_of_weaken _ kept _ _ Hk).
    exact (filter_in_order _ kept new Hf).
Qed.

(** C9, as the code has it. The adapter of every configured store returns
    at most [MAX_RESULTS] products, made from upstream items in the order the
    adapter meets them: the order of the response for the Tier 1 stores,
    ASOS, H&M, Lulus and SHEIN, and for Nordstrom the order in which
    [Object.values] enumerates the product map. *)
Theorem adapters_cap_and_keep_order (P : Platform) (env : TaskEnv) (key : jsstring)
  (c : StoreConfig) (query : jsstring) :
  assoc key STORE_CONFIG = Some c ->
  exists result,
    searchStore P env (VStr key) query = Normal result
    /\ List.length result <= MAX_RESULTS
    /\ follows_upstream P env key c query result.
Proof.
  intros Hc.
  destruct (searchStore_dispatch P env key c query Hc)
    as (Hl & [(d0 & d & Hd & -> & _)
            |[(Hd & Ht & -> & _)|[(Hd & Ht & -> & _)|[(Hd & Ht & -> & _)
            |[(Hd & Ht & -> & _)|(Hd & Ht & -> & _)]]]]]);
    unfold follows_upstream; rewrite Hd; try rewrite Ht.
  - destruct (scrapeShopifyStore_ordered P env key c d0 d query Hl Hd) as (r & H1 & H2 & H3).
    exists r. repeat split; auto.
  - destruct (scrapeASOS_ordered P env query) as (r & H1 & H2 & H3).
    exists r. repeat split; auto.
  - destruct (scrapeHM_ordered P env query) as (r & H1 & H2 & H3).
    exists r. repeat split; auto.
  - destruct (scrapeLulus_ordered P env query) as (r & H1 & H2 & H3).
    exists r. repeat split; auto.
  - destruct (scrapeNordstrom_ordered P env query) as (r & H1 & H2 & H3).
    exists r. repeat split; auto.
  - destruct (scrapeShein_ordered P env query) as (r & H1 & H2 & H3).
    exists r. repeat split; auto.
Qed.

Lemma nordstrom_search :
  scrapeNordstrom nordstrom_platform nordstrom_page (js "dress")
  = Normal [product_ay 0; product_bee 1].
Proof. vm_compute. reflexivity. Qed.

Lemma made_from_bee (k : nat) (p : Product) :
  nordstromItem nordstrom_platform nordstrom_page (js "Nordstrom") (VStr (js "nordstrom")) k
    item_bee = Normal (Some p) ->
  title p = js "Bee Wrap Dress".
Proof. intros H. vm_compute in H. injection H as <-. reflexivity. Qed.

(** C9, as stated, fails for Nordstrom: the response lists product 20
    before product 10, and the adapter returns product 10 before product 20,
    products that are not made from the response's items in their order. *)
Lemma nordstrom_order_is_not_kept :
  JSON_parse nordstrom_platform nordstrom_text = Normal nordstrom_tree
  /\ nordstromResults nordstrom_tree = VObj [ (js "20", item_bee); (js "10", item_ay) ]
  /\ scrapeNordstrom nordstrom_platform nordstrom_page (js "dress")
     = Normal [product_ay 0; product_bee 1]
  /\ ~ in_order_of
         (made_by (nordstromItem nordstrom_platform nordstrom_page (js "Nordstrom")
                     (VStr (js "nordstrom"))))
         [item_bee; item_ay] [product_ay 0; product_bee 1].
Proof.
  split; [vm_compute; reflexivity|].
  split; [vm_compute; reflexivity|].
  split; [exact nordstrom_search|].
  intros (kept & Hs & Hf).
  inversion Hf as [|a pa kept' ps' Ha Hf' E1 E2]; subst.
  inversion Hf' as [|b pb kept'' ps'' Hb Hf'' E1 E2]; subst.
  inversion Hf''; subst.
  assert (a = item_bee).
  { inversion Hs as [|x k l H1|x k l H1]; subst; [|reflexivity].
    inversion H1 as [|x k l H2|x k l H2]; subst; inversion H2. }
  subst a. destruct Ha as [k Hk]. apply made_from_bee in Hk.
  vm_compute in Hk. discriminate Hk.
Qed.

(** [adapters_cap_and_keep_order] on a Tier 1 store whose upstream answers
    with three products. *)
Lemma adapters_cap_and_keep_order_witness :
  exists result,
    searchStore plain_platform (answering 200 catalogue) (VStr (js "whitefox")) (js "dress")
    = Normal result
    /\ List.length result <= MAX_RESULTS
    /\ follows_upstream plain_platform (answering 200 catalogue) (js "whitefox")
         (shopify "White Fox" "www.whitefoxboutique.com") (js "dress") result.
Proof.
  apply (adapters_cap_and_keep_order plain_platform (answering 200 catalogue)
           (js "whitefox") (shopify "White Fox" "www.whitefoxboutique.com") (js "dress")).
  reflexivity.
Defined.

(* ================================================================== *)
(** ** Further properties *)
(* ================================================================== *)

(* ------------------------------------------------------------------ *)
(** *** The answers of the handler *)

Lemma validStores_filter (ids : list value) :
  forall valid,
    validStores ids = Normal valid ->
    valid = filter accepted_store ids
    /\ Forall (fun storeId => exists e, STORE_CONFIG_get storeId = Normal e) valid.
Proof.
  induction ids as [|storeId ids IH]; simpl; intros valid H.
  - injection H as <-. split; constructor.
  - inv_bind. rename a into config, a0 into rest.
    destruct (IH rest Ha0) as [-> Hall].
    unfold accepted_store at 1. rewrite Ha.
    destruct config; injection H as <-; (split; [reflexivity|]); auto;
      constructor; eauto.
Qed.

Lemma entries_of_valid (search : nat -> value -> jsstring -> completion (list Product))
  (q : jsstring) (valid : list value) :
  Forall (fun storeId => exists e, STORE_CONFIG_get storeId = Normal e) valid ->
  forall (start k : nat),
  exists entries,
    mapM_from (fun _ t => storeResult (fst t) (snd t)) k
      (map (fun t => (snd t, settle (search (fst t) (snd t) q)))
           (combine (seq start (List.length valid)) valid))
    = Normal entries
    /\ Forall2 (fun storeId sr =>
                  store_id sr = storeId
                  /\ (exists e, STORE_CONFIG_get storeId = Normal e
                                /\ store_name sr = display_name e storeId)
                  /\ exists i, results sr = fst (settle (search i storeId q))
                               /\ error sr = snd (settle (search i storeId q)))
               valid entries.
Proof.
  induction 1 as [|storeId valid [e He] _ IH]; intros start k.
  - exists []. split; [reflexivity | constructor].
  - destruct (IH (S start) (S k)) as (entries & Hm & Hall).
    simpl. unfold storeResult at 1. simpl. rewrite He. cbn [bind]. rewrite Hm. cbn [bind].
    eexists. split; [reflexivity|].
    constructor; [|exact Hall]. simpl. split; [reflexivity|]. split; [eauto|]. eauto.
Qed.

(** What a Search Response holds, whatever the store tasks are. *)
Lemma handler_with_search_response
  (search : nat -> value -> jsstring -> completion (list Product))
  (now : jsstring) (req : Request) (r : HttpResponse) (resp : SearchResponse) :
  handler_with search now req = Normal r ->
  payload r = SearchBody resp ->
  exists q ids,
    get (body req) "query" = Normal (VStr q)
    /\ get (body req) "stores" = Normal (VArr ids)
    /\ query resp = sanitize q
    /\ Forall2 (fun storeId sr =>
                  store_id sr = storeId
                  /\ (exists e, STORE_CONFIG_get storeId = Normal e
                                /\ store_name sr = display_name e storeId)
                  /\ exists i, results sr = fst (settle (search i storeId (sanitize q)))
                               /\ error sr = snd (settle (search i storeId (sanitize q))))
               (filter accepted_store ids) (stores resp).
Proof.
  intros H Hp.
  destruct (handler_with_entries search now req r resp H Hp)
    as (q & ids & valid & Hq & Hids & Hv & Hquery & Hm).
  exists q, ids. repeat split; auto.
  destruct (validStores_filter ids valid Hv) as [-> Hall].
  destruct (entries_of_valid search (sanitize q) _ Hall 0 0) as (entries & Hm' & HF).
  unfold mapM in Hm. rewrite Hm' in Hm. injection Hm as <-. exact HF.
Qed.

(** X1. Every response the handler sends carries the three CORS headers,
    and its status is 200, 400 or 405: 200 without a body answers OPTIONS,
    405 any other method than POST, 400 a POST that fails validation, 200
    with a Search Response every other POST.  The answer 500 of the outer
    [catch] is never sent, whatever the store tasks do. *)
Theorem handler_never_answers_500
  (search : nat -> value -> jsstring -> completion (list Product))
  (now : jsstring) (req : Request) (r : HttpResponse) :
  handler_with search now req = Normal r ->
  headers r = CORS
  /\ match payload r with
     | NoBody => status r = 200%N /\ method req = js "OPTIONS"
     | ErrorBody msg =>
         (status r = 405%N /\ msg = js "Method not allowed"
          /\ method req <> js "OPTIONS" /\ method req <> js "POST")
         \/ (status r = 400%N /\ method req = js "POST"
             /\ (msg = js "Search query is required"
                 \/ msg = js "At least one store must be selected"))
     | SearchBody _ => status r = 200%N /\ method req = js "POST"
     end.
Proof.
  unfold handler_with. intros H.
  destruct (str_eqb (method req) (js "OPTIONS")) eqn:Ho.
  { injection H as <-. simpl. apply str_eqb_eq in Ho. auto. }
  assert (Hno : method req <> js "OPTIONS").
  { intros E. apply str_eqb_eq in E. congruence. }
  destruct (str_eqb (method req) (js "POST")) eqn:Hpost; simpl in H.
  2:{ injection H as <-. simpl. split; [reflexivity|]. left. repeat split; auto.
      intros E. apply str_eqb_eq in E. congruence. }
  apply str_eqb_eq in Hpost.
  inv_bind.
  destruct a as [| |b|n|q|items|members|f];
    try (injection H as <-; simpl; split; [reflexivity|]; right; auto).
  destruct (trim q) as [|c0 tq] eqn:Hq;
    [injection H as <-; simpl; split; [reflexivity|]; right; auto|].
  destruct a0 as [| |b'|n'|s'|ids|members'|f'];
    try (injection H as <-; simpl; split; [reflexivity|]; right; auto).
  destruct ids as [|i0 ids]; [injection H as <-; simpl; split; [reflexivity|]; right; auto|].
  inv_bind. rename a into valid.
  destruct (validStores_filter _ valid Ha2) as [_ Hall].
  destruct (entries_of_valid search (sanitize q) valid Hall 0 0) as (entries & Hm & _).
  unfold mapM in H. rewrite Hm in H. simpl in H. injection H as <-. simpl. auto.
Qed.

Lemma handler_never_answers_500_witness :
  headers (respond 200 (SearchBody whitefox_response)) = CORS
  /\ status (respond 200 (SearchBody whitefox_response)) = 200%N
  /\ method (post " <dress> " ["whitefox"%string]) = js "POST".
Proof.
  exact (handler_never_answers_500
           (fun i storeId query => searchStore plain_platform (task whitefox_world i) storeId query)
           (clock whitefox_world) (post " <dress> " ["whitefox"%string])
           (respond 200 (SearchBody whitefox_response)) whitefox_search).
Defined.

(** A POST that passes both checks throws or is answered 200. *)
Lemma handler_with_run (search : nat -> value -> jsstring -> completion (list Product))
  (now : jsstring) (req : Request) (q : jsstring) (storeId : value) (ids : list value) :
  method req = js "POST" ->
  get (body req) "query" = Normal (VStr q) ->
  trim q <> [] ->
  get (body req) "stores" = Normal (VArr (storeId :: ids)) ->
  (exists e, handler_with search now req = Throw e)
  \/ (exists resp, handler_with search now req = Normal (respond 200 (SearchBody resp))).
Proof.
  intros Hm Hq Ht Hs.
  assert (Hc : exists category, get (body req) "category" = Normal category).
  { destruct (body req); try discriminate Hq; cbn; eauto.
    destruct (own_property _ _); eauto. }
  destruct Hc as [category Hc].
  unfold handler_with. rewrite Hm, Hq, Hs, Hc. cbn [bind].
  change (str_eqb (js "POST") (js "OPTIONS")) with false.
  change (str_eqb (js "POST") (js "POST")) with true. cbn [negb].
  destruct (trim q) as [|c0 tq]; [contradiction|].
  destruct (validStores (storeId :: ids)) as [valid|e] eqn:Hv; cbn [bind]; [|eauto].
  destruct (validStores_filter _ valid Hv) as [_ Hall].
  destruct (entries_of_valid search (sanitize q) valid Hall 0 0) as (entries & Hen & _).
  unfold mapM. rewrite Hen. simpl. eauto.
Qed.

(** X2. A POST whose body is there is answered 400 with [Search query is
    required] exactly when [query] is no string with a code unit other than
    white space, and 400 with [At least one store must be selected] exactly
    when the query is fine and [stores] is no array with an element: the
    query is checked first, and no store id is looked at before both checks
    pass. *)
Theorem invalid_requests_are_answered_400
  (search : nat -> value -> jsstring -> completion (list Product))
  (now : jsstring) (req : Request) (query stores : value) :
  method req = js "POST" ->
  get (body req) "query" = Normal query ->
  get (body req) "stores" = Normal stores ->
  (handler_with search now req
     = Normal (respond 400 (ErrorBody (js "Search query is required")))
   <-> ~ (exists q, query = VStr q /\ trim q <> []))
  /\ (handler_with search now req
       = Normal (respond 400 (ErrorBody (js "At least one store must be selected")))
     <-> (exists q, query = VStr q /\ trim q <> [])
         /\ ~ (exists storeId ids, stores = VArr (storeId :: ids))).
Proof.
  intros Hm Hq Hs.
  assert (Hc : exists category, get (body req) "category" = Normal category).
  { destruct (body req); try discriminate Hq; cbn; eauto.
    destruct (own_property _ _); eauto. }
  destruct Hc as [category Hc].
  assert (Hbad : (~ exists q, query = VStr q /\ trim q <> []) ->
                 handler_with search now req
                 = Normal (respond 400 (ErrorBody (js "Search query is required")))).
  { intros Hn. unfold handler_with. rewrite Hm, Hq, Hs, Hc. cbn [bind].
    change (str_eqb (js "POST") (js "OPTIONS")) with false.
    change (str_eqb (js "POST") (js "POST")) with true. cbn [negb].
    destruct query as [| |b|n|q|items|members|f]; try reflexivity.
    destruct (trim q) as [|c0 tq] eqn:Et; [reflexivity|].
    exfalso. apply Hn. exists q. split; [reflexivity|]. rewrite Et. discriminate. }
  assert (Hempty : forall q, query = VStr q -> trim q <> [] ->
                   (~ exists storeId ids, stores = VArr (storeId :: ids)) ->
                   handler_with search now req
                   = Normal (respond 400 (ErrorBody (js "At least one store must be selected")))).
  { intros q -> Ht Hn. unfold handler_with. rewrite Hm, Hq, Hs, Hc. cbn [bind].
    change (str_eqb (js "POST") (js "OPTIONS")) with false.
    change (str_eqb (js "POST") (js "POST")) with true. cbn [negb].
    destruct (trim q) as [|c0 tq]; [contradiction|].
    destruct stores as [| |b|n|s|ids|members|f]; try reflexivity.
    destruct ids as [|storeId ids]; [reflexivity|].
    exfalso. apply Hn. eauto. }
  assert (Hcases : (~ exists q, query = VStr q /\ trim q <> [])
                   \/ exists q, query = VStr q /\ trim q <> []).
  { destruct query as [| |b|n|q|items|members|f];
      try (left; intros (q0 & E & _); discriminate E).
    destruct (trim q) as [|c0 tq] eqn:Et.
    - left. intros (q0 & E & Hne). injection E as <-. contradiction.
    - right. exists q. split; [reflexivity|]. rewrite Et. discriminate. }
  assert (Hcases2 : (~ exists storeId ids, stores = VArr (storeId :: ids))
                    \/ exists storeId ids, stores = VArr (storeId :: ids)).
  { destruct stores as [| |b|n|s|ids|members|f];
      try (left; intros (x & y & E); discriminate E).
    destruct ids as [|storeId ids]; [left; intros (x & y & E); discriminate E|].
    right. eauto. }
  split; split.
  - intros H Hex. destruct Hex as (q & -> & Ht).
    destruct Hcases2 as [Hn|(storeId & ids & ->)].
    + rewrite (Hempty q eq_refl Ht Hn) in H. discriminate H.
    + destruct (handler_with_run search now req q storeId ids Hm Hq Ht Hs)
        as [[e He]|[resp He]]; rewrite He in H; discriminate H.
  - exact Hbad.
  - intros H. destruct Hcases as [Hn|(q & -> & Ht)].
    + rewrite (Hbad Hn) in H. discriminate H.
    + split; [eauto|]. intros (storeId & ids & ->).
      destruct (handler_with_run search now req q storeId ids Hm Hq Ht Hs)
        as [[e He]|[resp He]]; rewrite He in H; discriminate H.
  - intros [(q & E & Ht) Hn]. exact (Hempty q E Ht Hn).
Qed.

Lemma invalid_requests_are_answered_400_witness :
  (handler_with three_tasks midnight (post "   " ["asos"%string])
     = Normal (respond 400 (ErrorBody (js "Search query is required")))
   <-> ~ (exists q, VStr (js "   ") = VStr q /\ trim q <> []))
  /\ (handler_with three_tasks midnight (post "   " ["asos"%string])
       = Normal (respond 400 (ErrorBody (js "At least one store must be selected")))
     <-> (exists q, VStr (js "   ") = VStr q /\ trim q <> [])
         /\ ~ (exists storeId ids, VArr [VStr (js "asos")] = VArr (storeId :: ids))).
Proof.
  exact (invalid_requests_are_answered_400 three_tasks midnight
           (post "   " ["asos"%string]) (VStr (js "   ")) (VArr [VStr (js "asos")])
           eq_refl eq_refl eq_refl).
Defined.

(** X3. A POST whose body is [undefined] or [null] is not answered by the
    handler: destructuring the body throws a TypeError before any check, so
    neither a 400 nor a 500 is sent. *)
Theorem post_without_body_throws
  (search : nat -> value -> jsstring -> completion (list Product))
  (now : jsstring) (req : Request) :
  method req = js "POST" ->
  nullish (body req) = true ->
  exists e, handler_with search now req = Throw e /\ error_name e = js "TypeError".
Proof.
  intros Hm Hb. unfold handler_with. rewrite Hm.
  change (str_eqb (js "POST") (js "OPTIONS")) with false.
  change (str_eqb (js "POST") (js "POST")) with true. cbn [negb].
  destruct (body req); try discriminate Hb; simpl; eauto.
Qed.

Lemma post_without_body_throws_witness :
  exists e, handler_with three_tasks midnight post_without_body = Throw e
            /\ error_name e = js "TypeError".
Proof. exact (post_without_body_throws three_tasks midnight post_without_body eq_refl eq_refl). Defined.

(* ------------------------------------------------------------------ *)
(** *** The sanitized query *)

(** Deleting the matches of a one-unit class leaves the other units. *)
Lemma replace_go_class (p : N -> bool) (subject s : jsstring) :
  forall i, Re.replace_go (Re.Cls p) [] subject i s 0 = filter (fun c => negb (p c)) s.
Proof.
  induction s as [|x s IH]; intros i; [reflexivity|].
  cbn [Re.replace_go]. unfold Re.match_at. cbn [Re.rmatch filter].
  destruct (p x); cbn [negb].
  - cbn [Re.expand flat_map app]. rewrite (proj2 (Nat.eqb_neq (S i) i)) by lia.
    replace (S i - i - 1) with 0 by lia. apply IH.
  - f_equal. apply IH.
Qed.

Lemma sanitize_filter (q : jsstring) :
  sanitize q =
  firstn 200 (filter (fun c => negb ((c =? 60) || (c =? 62) || (c =? 123) || (c =? 125))%N)
                     (trim q)).
Proof. unfold sanitize, substring0, Re.replace_all, re_brackets. rewrite replace_go_class. reflexivity. Qed.

Lemma In_firstn {A : Type} (n : nat) (x : A) (l : list A) : In x (firstn n l) -> In x l.
Proof.
  revert l. induction n as [|n IH]; intros [|y l] H; simpl in *; try contradiction.
  destruct H as [->|H]; auto.
Qed.

(** X4. The query a Search Response echoes, which is also the query every
    store task was given, has at most 200 code units and none of the four
    characters the handler strips (angle brackets and braces); each of its
    code units comes from the query of the request. *)
Theorem sanitized_query_is_bounded
  (search : nat -> value -> jsstring -> completion (list Product))
  (now : jsstring) (req : Request) (r : HttpResponse) (resp : SearchResponse) :
  handler_with search now req = Normal r ->
  payload r = SearchBody resp ->
  List.length (query resp) <= 200
  /\ Forall (fun c => c <> 60 /\ c <> 62 /\ c <> 123 /\ c <> 125)%N (query resp)
  /\ exists q, get (body req) "query" = Normal (VStr q)
               /\ forall c, In c (query resp) -> In c q.
Proof.
  intros H Hp.
  destruct (handler_with_search_response search now req r resp H Hp)
    as (q & ids & Hq & _ & -> & _).
  rewrite sanitize_filter. split; [apply firstn_le_length|]. split.
  - apply Forall_forall. intros c Hc. apply In_firstn, filter_In in Hc.
    destruct Hc as [_ Hc]. apply negb_true_iff in Hc.
    repeat (apply orb_false_iff in Hc; destruct Hc as [Hc ?]).
    repeat split; apply N.eqb_neq; assumption.
  - exists q. split; [exact Hq|]. intros c Hc.
    apply In_firstn, filter_In in Hc. apply In_trim. tauto.
Qed.

Lemma sanitized_query_is_bounded_witness :
  List.length (query whitefox_response) <= 200
  /\ Forall (fun c => c <> 60 /\ c <> 62 /\ c <> 123 /\ c <> 125)%N (query whitefox_response)
  /\ exists q, get (body (post " <dress> " ["whitefox"%string])) "query" = Normal (VStr q)
               /\ forall c, In c (query whitefox_response) -> In c q.
Proof.
  exact (sanitized_query_is_bounded
           (fun i storeId query => searchStore plain_platform (task whitefox_world i) storeId query)
           (clock whitefox_world) (post " <dress> " ["whitefox"%string])
           (respond 200 (SearchBody whitefox_response)) whitefox_response
           whitefox_search eq_refl).
Defined.

(* ------------------------------------------------------------------ *)
(** *** The stores of a response *)

Lemma existsb_str_eqb (key : jsstring) (l : list jsstring) :
  existsb (str_eqb key) l = true <-> In key l.
Proof.
  rewrite existsb_exists. split.
  - intros (x & Hx & E). apply str_eqb_eq in E. subst. exact Hx.
  - intros H. exists key. split; [exact H | apply str_eqb_eq; reflexivity].
Qed.

Lemma assoc_some_iff {A : Type} (key : jsstring) (l : list (jsstring * A)) :
  (exists a, assoc key l = Some a) <-> In key (map fst l).
Proof.
  induction l as [|[k a] l IH]; simpl.
  - split; [intros [a H]; discriminate | contradiction].
  - destruct (str_eqb k key) eqn:E.
    + apply str_eqb_eq in E. split; eauto.
    + split.
      * intros H. right. apply IH. exact H.
      * intros [H|H]; [apply str_eqb_eq in H; congruence | apply IH; exact H].
Qed.

Lemma accepted_store_string (key : jsstring) :
  accepted_store (VStr key) = true
  <-> In key (map fst STORE_CONFIG) \/ In key OBJECT_PROTOTYPE.
Proof.
  unfold accepted_store, STORE_CONFIG_get, lookup_config. cbn [toString bind].
  destruct (assoc key STORE_CONFIG) as [c|] eqn:E.
  - split; [|reflexivity]. intros _. left. apply assoc_some_iff. eauto.
  - destruct (existsb (str_eqb key) OBJECT_PROTOTYPE) eqn:Ex.
    + split; [|reflexivity]. intros _. right. apply existsb_str_eqb. exact Ex.
    + split; [discriminate|]. intros [H|H].
      * apply assoc_some_iff in H. destruct H as [a H]. congruence.
      * apply existsb_str_eqb in H. congruence.
Qed.

(** X5. A store id the configuration does not know is dropped without an
    error: the Search Response holds one Store Result for each requested id
    at which [STORE_CONFIG] has a truthy property, in request order and with
    repetitions, and none for any other id.  For a string id that is the
    case when it is one of the thirteen keys, and also when it names a
    member [STORE_CONFIG] inherits from [Object.prototype]. *)
Theorem unknown_stores_are_dropped
  (search : nat -> value -> jsstring -> completion (list Product))
  (now : jsstring) (req : Request) (r : HttpResponse) (resp : SearchResponse) :
  handler_with search now req = Normal r ->
  payload r = SearchBody resp ->
  (exists ids, get (body req) "stores" = Normal (VArr ids)
               /\ map store_id (stores resp) = filter accepted_store ids)
  /\ forall key, accepted_store (VStr key) = true
                 <-> In key (map fst STORE_CONFIG) \/ In key OBJECT_PROTOTYPE.
Proof.
  intros H Hp. split; [|exact accepted_store_string].
  destruct (handler_with_search_response search now req r resp H Hp)
    as (q & ids & _ & Hids & _ & HF).
  exists ids. split; [exact Hids|].
  induction HF as [|storeId sr valid entries (E & _) _ IH]; [reflexivity|].
  simpl. rewrite E, IH. reflexivity.
Qed.

(** A search of one known store, one unknown store and one inherited
    name. *)
Lemma mixed_search :
  handler plain_platform offline_world (post "dress" ["nope"; "lulus"; "constructor"]%string)
  = Normal (respond 200 (SearchBody mixed_response)).
Proof. vm_compute. reflexivity. Qed.

Lemma unknown_stores_are_dropped_witness :
  (exists ids,
      get (body (post "dress" ["nope"; "lulus"; "constructor"]%string)) "stores"
      = Normal (VArr ids)
      /\ map store_id (stores mixed_response) = filter accepted_store ids)
  /\ forall key, accepted_store (VStr key) = true
                 <-> In key (map fst STORE_CONFIG) \/ In key OBJECT_PROTOTYPE.
Proof.
  exact (unknown_stores_are_dropped
           (fun i storeId query => searchStore plain_platform (task offline_world i) storeId query)
           (clock offline_world)
           (post "dress" ["nope"; "lulus"; "constructor"]%string)
           (respond 200 (SearchBody mixed_response)) mixed_response mixed_search eq_refl).
Defined.

Lemma searchStore_returns (P : Platform) (env : TaskEnv) (storeId : value) (q : jsstring)
  (e : config_entry) :
  STORE_CONFIG_get storeId = Normal e ->
  exists l, searchStore P env storeId q = Normal l.
Proof.
  intros He. unfold searchStore. rewrite He. cbn [bind].
  destruct e as [c|key|]; eauto.
  destruct (cfg_domain c) as [[|d0 d]|] eqn:Hd.
  2:{ unfold scrapeShopifyStore. rewrite He. cbn [bind]. rewrite Hd.
      apply try_catch_returns. }
  all: destruct (cfg_type c) as [t|]; eauto;
       repeat (case_if; [first [ apply try_catch_returns | eauto ] |]); eauto.
Qed.

(** X6. No Store Result of a response of the handler carries an error:
    every adapter catches what it throws, so no store task rejects and
    [error] is [null] in every entry, whatever the upstreams answer. *)
Theorem store_errors_are_always_null (P : Platform) (w : World) (req : Request)
  (r : HttpResponse) (resp : SearchResponse) :
  handler P w req = Normal r ->
  payload r = SearchBody resp ->
  Forall (fun sr => error sr = VNull) (stores resp).
Proof.
  intros H Hp.
  destruct (handler_with_search_response _ _ _ _ _ H Hp) as (q & ids & _ & _ & _ & HF).
  induction HF as [|storeId sr valid entries (_ & (e & He & _) & (i & _ & Hr)) _ IH];
    constructor; [|exact IH].
  destruct (searchStore_returns P (task w i) storeId (sanitize q) e He) as [l Hl].
  rewrite Hr, Hl. reflexivity.
Qed.

Lemma store_errors_are_always_null_witness :
  Forall (fun sr => error sr = VNull) (stores mixed_response).
Proof.
  exact (store_errors_are_always_null plain_platform offline_world
           (post "dress" ["nope"; "lulus"; "constructor"]%string)
           (respond 200 (SearchBody mixed_response)) mixed_response mixed_search eq_refl).
Defined.

(* ------------------------------------------------------------------ *)
(** *** What a match consists of *)







(* ------------------------------------------------------------------ *)
(** *** The shape of a normalized price *)
















(* ------------------------------------------------------------------ *)
(** *** The normal form of a title, an image URL and a product *)

(** X8. Whatever it is given, [cleanTitle] returns a title of at most 120
    code units that neither starts nor ends with white space and in which
    every white space is one U+0020 between two other code units: no tab, no
    line break and no run of blanks survives. *)
Theorem cleanTitle_normal_form (title : value) :
  exists t, cleanTitle title = Normal t
            /\ List.length t <= 120 /\ trimmed t /\ collapsed t.
Proof.
  unfold cleanTitle, cleanTitle_max.
  destruct (negb (truthy title) || negb (is_string title)) eqn:E.
  - eexists. split; [reflexivity|]. split; [vm_compute; lia|].
    split; [split; reflexivity|]. cbn. repeat split; discriminate.
  - destruct title as [| |b|n|s|items|members|f];
      cbn [truthy is_string negb] in E; rewrite ?orb_true_r in E; try discriminate E.
    cbn [String_trim bind]. eexists. split; [reflexivity|].
    destruct (cleanTitle_trimmed_settled (trim s)) as (C & T & L). auto.
Qed.

(** X9. An image URL [cleanImageUrl] returns is the trimmed input, with
    [https:] put before a protocol-relative one; the [URL] constructor
    accepts it, it is no [data:] URL, it does not start with two slashes,
    and it names no placeholder, blank or spacer image. *)
Theorem cleanImageUrl_result (P : Platform) (url : value) (u : jsstring) :
  cleanImageUrl P url = Normal (VStr u) ->
  (exists s, url = VStr s
             /\ u = if startsWith (js "//") (trim s) then js "https:" ++ trim s else trim s)
  /\ new_URL P u = Normal tt
  /\ startsWith (js "data:") u = false
  /\ startsWith (js "//") u = false
  /\ Re.test re_placeholder u = false.
Proof.
  unfold cleanImageUrl. intros H.
  destruct (negb (truthy url) || negb (is_string url)) eqn:E; [discriminate|].
  destruct url as [| |b|n|s|items|members|f];
    cbn [truthy is_string negb] in E; rewrite ?orb_true_r in E; try discriminate E.
  cbn [String_trim bind] in H.
  set (cleaned := if startsWith (js "//") (trim s) then js "https:" ++ trim s else trim s) in *.
  destruct (startsWith (js "data:") cleaned) eqn:Hd; [discriminate|].
  destruct (Re.test re_placeholder cleaned) eqn:Hp; [discriminate|].
  destruct (new_URL P cleaned) as [[]|e] eqn:Hu; [|discriminate].
  cbn in H. injection H as <-.
  split; [eauto|]. repeat split; auto.
  unfold cleaned. destruct (startsWith (js "//") (trim s)) eqn:Hs; [reflexivity | exact Hs].
Qed.

Lemma cleanImageUrl_result_witness :
  (exists s, VStr (js " //cdn.shopify.com/a.jpg ") = VStr s
             /\ js "https://cdn.shopify.com/a.jpg"
                = if startsWith (js "//") (trim s) then js "https:" ++ trim s else trim s)
  /\ new_URL plain_platform (js "https://cdn.shopify.com/a.jpg") = Normal tt
  /\ startsWith (js "data:") (js "https://cdn.shopify.com/a.jpg") = false
  /\ startsWith (js "//") (js "https://cdn.shopify.com/a.jpg") = false
  /\ Re.test re_placeholder (js "https://cdn.shopify.com/a.jpg") = false.
Proof.
  apply (cleanImageUrl_result plain_platform (VStr (js " //cdn.shopify.com/a.jpg "))).
  vm_compute. reflexivity.
Defined.

Lemma placeholder_image_nonempty : PLACEHOLDER_IMAGE <> [].
Proof. unfold PLACEHOLDER_IMAGE. discriminate. Qed.

Lemma truthy_or_else_default (a b : value) : truthy b = true -> truthy (or_else a b) = true.
Proof. intros H. unfold or_else. destruct (truthy a) eqn:E; assumption. Qed.

Lemma image_default_nonempty (i : value) :
  match i with
  | VStr s => match s with [] => PLACEHOLDER_IMAGE | _ :: _ => s end
  | _ => PLACEHOLDER_IMAGE
  end <> [].
Proof.
  destruct i as [| |b|n|s|items|members|f]; try exact placeholder_image_nonempty.
  destruct s; [exact placeholder_image_nonempty | discriminate].
Qed.

Lemma title_default_length (t : jsstring) :
  List.length t <= 120 ->
  1 <= List.length (match t with [] => js "Unknown Product" | _ :: _ => t end) <= 120.
Proof. intros H. destruct t; [vm_compute; lia | simpl in *; lia]. Qed.

(** X10. [formatProduct] never throws.  It returns [null] exactly when
    the record has neither a truthy title nor a truthy link; otherwise it
    returns a Product that carries the given identifier, store id and store
    name and in which no field is empty: a title of 1 to 120 code units, a
    truthy price, a non-empty image and a truthy link. *)
Theorem formatProduct_fills_every_field (P : Platform) (fresh : jsstring) (data : Candidate)
  (name : jsstring) (storeId : value) :
  (truthy (data_title data) = false /\ truthy (data_link data) = false
   /\ formatProduct P fresh data name storeId = Normal None)
  \/ ((truthy (data_title data) = true \/ truthy (data_link data) = true)
      /\ exists p, formatProduct P fresh data name storeId = Normal (Some p)
           /\ id p = fresh /\ store p = storeId /\ storeName p = name
           /\ 1 <= List.length (title p) <= 120
           /\ truthy (price p) = true
           /\ image p <> []
           /\ truthy (link p) = true).
Proof.
  unfold formatProduct.
  destruct (negb (truthy (data_title data)) && negb (truthy (data_link data))) eqn:E.
  - left. apply andb_true_iff in E. destruct E as [E1 E2].
    apply negb_true_iff in E1, E2. auto.
  - right. split.
    { apply andb_false_iff in E. destruct E as [E|E]; apply negb_false_iff in E; auto. }
    destruct (cleanTitle_normal_form (data_title data)) as (t & Et & Lt & _).
    assert (Ep : exists p, cleanPrice (data_price data) = Normal p).
    { destruct (cleanPrice_returns (data_price data)) as [Ep | (p & Ep)]; eauto. }
    assert (Ei : exists i, cleanImageUrl P (data_image data) = Normal i).
    { destruct (cleanImageUrl_returns P (data_image data)) as [Ei | (u & Ei)]; eauto. }
    destruct Ep as [p Ep], Ei as [i Ei]. rewrite Et, Ep, Ei. cbn [bind].
    eexists. split; [reflexivity|].
    cbn [id store storeName title price image link].
    split; [reflexivity|]. split; [reflexivity|]. split; [reflexivity|].
    split; [apply title_default_length; exact Lt|].
    split; [apply truthy_or_else_default; reflexivity|].
    split; [apply image_default_nonempty|].
    apply truthy_or_else_default. reflexivity.
Qed.

(* ------------------------------------------------------------------ *)
(** *** The responses the fetchers accept *)

(** X11. [fetchJSON] and [fetchHTML] return only from a response whose
    status is below 400.  [fetchJSON] then returns what [JSON.parse] reads
    from a body that is a string and any other body as it is; [fetchHTML]
    returns the document cheerio loads from the body. *)
Theorem fetchers_need_a_status_below_400 (P : Platform) (env : TaskEnv) (url : jsstring) :
  (forall data, fetchJSON P env url = Normal data ->
     exists status body,
       axios_get env url = Response status body /\ (status < 400)%N
       /\ match body with
          | VStr s => JSON_parse P s = Normal data
          | _ => data = body
          end)
  /\ (forall doc, fetchHTML P env url = Normal doc ->
        exists status body,
          axios_get env url = Response status body /\ (status < 400)%N
          /\ cheerio_load P body = Normal doc).
Proof.
  unfold fetchJSON, fetchHTML, axios_request.
  destruct (axios_get env url) as [msg|status body]; cbn [bind].
  { split; intros x H; discriminate H. }
  destruct (500 <=? status)%N; cbn [bind].
  { split; intros x H; discriminate H. }
  destruct (400 <=? status)%N eqn:E.
  { split; intros x H; discriminate H. }
  apply N.leb_gt in E.
  split; intros x H; exists status, body; (split; [reflexivity|]); (split; [exact E|]).
  - destruct body; try (injection H as <-; reflexivity). exact H.
  - exact H.
Qed.

Lemma fetchers_need_a_status_below_400_witness :
  exists status body,
    axios_get (answering 200 catalogue) whitefox_url = Response status body
    /\ (status < 400)%N
    /\ match body with
       | VStr s => JSON_parse plain_platform s = Normal catalogue
       | _ => catalogue = body
       end.
Proof.
  exact (proj1 (fetchers_need_a_status_below_400 plain_platform (answering 200 catalogue)
                  whitefox_url) catalogue eq_refl).
Defined.

(* ------------------------------------------------------------------ *)
(** *** The query in the requested URL *)









Lemma STORE_CONFIG_get_own (key : jsstring) (c : StoreConfig) :
  lookup_config key = Own c -> STORE_CONFIG_get (VStr key) = Normal (Own c).
Proof. intros H. unfold STORE_CONFIG_get. cbn [toString bind]. rewrite H. reflexivity. Qed.

(** X13. A query that is no well-formed UTF-16 (a lone surrogate) cannot
    be encoded: [encodeURIComponent] throws a URIError, the adapter of every
    configured store catches it, and the store answers the empty list
    whatever the network would have answered. *)
Theorem malformed_query_yields_no_product (P : Platform) (env : TaskEnv) (key : jsstring)
  (c : StoreConfig) (query : jsstring) (e : js_error) :
  assoc key STORE_CONFIG = Some c ->
  encodeURIComponent query = Throw e ->
  searchStore P env (VStr key) query = Normal [].
Proof.
  intros Hc He.
  destruct (searchStore_dispatch P env key c query Hc)
    as (Hl & [(d0 & d & Hd & -> & _)
            |[(_ & _ & -> & _)|[(_ & _ & -> & _)|[(_ & _ & -> & _)
            |[(_ & _ & -> & _)|(_ & _ & -> & _)]]]]]).
  - unfold scrapeShopifyStore. rewrite (STORE_CONFIG_get_own key c Hl). cbn [bind].
    rewrite Hd. unfold shopifyUrl. rewrite He. reflexivity.
  - unfold scrapeASOS, asosUrl. rewrite He. reflexivity.
  - unfold scrapeHM, hmUrl. rewrite He. reflexivity.
  - unfold scrapeLulus, lulusUrl. rewrite He. reflexivity.
  - unfold scrapeNordstrom, nordstromUrl. rewrite He. reflexivity.
  - unfold scrapeShein, sheinUrl. rewrite He. reflexivity.
Qed.

Lemma malformed_query_yields_no_product_witness :
  searchStore plain_platform (answering 200 catalogue) (VStr (js "whitefox")) lone_surrogate
  = Normal [].
Proof.
  exact (malformed_query_yields_no_product plain_platform (answering 200 catalogue)
           (js "whitefox") (shopify "White Fox" "www.whitefoxboutique.com") lone_surrogate
           (URIError "URI malformed") eq_refl eq_refl).
Defined.

(* ------------------------------------------------------------------ *)
(** *** One item that cannot be mapped *)

Lemma mapM_from_throws {A B : Type} (f : nat -> A -> completion B) (l : list A) :
  forall (i k : nat) (a : A) (e : js_error),
    nth_error l k = Some a ->
    f (i + k) a = Throw e ->
    exists e', mapM_from f i l = Throw e'.
Proof.
  induction l as [|x l IH]; intros i k a e Hn Hf; [destruct k; discriminate|].
  destruct k as [|k]; simpl in Hn.
  - injection Hn as ->. rewrite Nat.add_0_r in Hf. cbn [mapM_from]. rewrite Hf.
    cbn [bind]. eauto.
  - cbn [mapM_from]. destruct (f i x) as [b|e0]; cbn [bind]; [|eauto].
    rewrite <- plus_n_Sm in Hf. destruct (IH (S i) k a e Hn Hf) as [e' ->].
    cbn [bind]. eauto.
Qed.

Lemma nth_error_items (v : value) (n k : nat) (item : value) :
  nth_error (firstn n (array_items v)) k = Some item ->
  exists i0 items, v = VArr (i0 :: items).
Proof.
  destruct v as [| | | | |[|i0 items]| |]; simpl; rewrite ?firstn_nil;
    try (destruct k; discriminate). eauto.
Qed.

(** X14. The Tier 1 and the ASOS adapter map the first [MAX_RESULTS]
    products inside one [try]: when the callback throws on one of them (as
    it does on a [null] entry, or on an [image] that is no string), the
    adapter returns no product at all, the products before and after that
    entry included. *)
Theorem one_unmappable_item_empties_the_result (P : Platform) (env : TaskEnv)
  (query url : jsstring) (data : value) (k : nat) (item : value) (e : js_error) :
  (forall key c domain,
      assoc key STORE_CONFIG = Some c ->
      cfg_domain c = Some domain ->
      shopifyUrl (js "https://" ++ domain) query = Normal url ->
      fetchJSON P env url = Normal data ->
      nth_error (firstn MAX_RESULTS (shopifyProducts data)) k = Some item ->
      shopifyItem P env (js "https://" ++ domain) (cfg_name c) (VStr key) k item = Throw e ->
      searchStore P env (VStr key) query = Normal [])
  /\ (asosUrl query = Normal url ->
      fetchJSON P env url = Normal data ->
      nth_error (firstn MAX_RESULTS (asosProducts data)) k = Some item ->
      asosItem P env (js "ASOS") (VStr (js "asos")) k item = Throw e ->
      searchStore P env (VStr (js "asos")) query = Normal []).
Proof.
  split.
  - intros key c domain Hc Hd Hu Hf Hn He.
    destruct (searchStore_dispatch P env key c query Hc)
      as (Hl & [(d0 & d & Hd' & -> & _)
              |[(Hd' & _)|[(Hd' & _)|[(Hd' & _)|[(Hd' & _)|(Hd' & _)]]]]]);
      try congruence.
    rewrite Hd in Hd'. injection Hd' as ->.
    unfold scrapeShopifyStore. rewrite (STORE_CONFIG_get_own key c Hl). cbn [bind].
    rewrite Hd, Hu. cbn [bind]. rewrite Hf. cbn [bind].
    unfold shopifyProducts in Hn.
    destruct (nth_error_items _ _ _ _ Hn) as (i0 & items & Hp).
    rewrite Hp in Hn |- *. cbn [array_items] in Hn.
    destruct (mapM_from_throws _ _ 0 k item e Hn He) as [e' He'].
    unfold mapM. rewrite He'. reflexivity.
  - intros Hu Hf Hn He.
    change (searchStore P env (VStr (js "asos")) query) with (scrapeASOS P env query).
    unfold scrapeASOS. rewrite Hu. cbn [bind]. rewrite Hf. cbn [bind].
    unfold asosProducts in Hn.
    destruct (nth_error_items _ _ _ _ Hn) as (i0 & items & Hp).
    rewrite Hp in Hn |- *. cbn [array_items] in Hn.
    destruct (mapM_from_throws _ _ 0 k item e Hn He) as [e' He'].
    unfold mapM. rewrite He'. reflexivity.
Qed.

Lemma one_unmappable_item_empties_the_result_witness :
  searchStore plain_platform (answering 200 broken_catalogue) (VStr (js "whitefox")) (js "dress")
  = Normal [].
Proof.
  exact (proj1 (one_unmappable_item_empties_the_result plain_platform
                  (answering 200 broken_catalogue) (js "dress") whitefox_url broken_catalogue
                  1 VNull (TypeError "Cannot read properties of undefined or null"))
           (js "whitefox") (shopify "White Fox" "www.whitefoxboutique.com")
           (js "www.whitefoxboutique.com") eq_refl eq_refl eq_refl eq_refl eq_refl eq_refl).
Defined.

(* ------------------------------------------------------------------ *)
(** *** Where a product comes from *)

Lemma formatProduct_tags (P : Platform) (fresh : jsstring) (data : Candidate)
  (sn : jsstring) (sid : value) (p : Product) :
  formatProduct P fresh data sn sid = Normal (Some p) ->
  store p = sid /\ storeName p = sn /\ link p = or_else (data_link data) (VStr (js "#")).
Proof.
  unfold formatProduct. intros H.
  destruct (negb _ && negb _); [discriminate|].
  inv_bind. auto.
Qed.

Lemma formatProduct_from_store (P : Platform) (fresh : jsstring) (data : Candidate)
  (sn : jsstring) (sid : value) (site l : jsstring) (p : Product) :
  formatProduct P fresh data sn sid = Normal (Some p) ->
  data_link data = VStr l ->
  l = [] \/ (exists rest, l = site ++ rest) ->
  from_store sid sn site p.
Proof.
  intros H Hl Hs. destruct (formatProduct_tags _ _ _ _ _ _ H) as (H1 & H2 & H3).
  split; [exact H1|]. split; [exact H2|]. rewrite H3, Hl.
  destruct Hs as [->|[rest ->]]; [left; reflexivity|].
  destruct (site ++ rest) eqn:E; [left; reflexivity|]. right. exists rest. rewrite E. reflexivity.
Qed.

(** Closes the goal on the link an item callback computed. *)
Ltac link_shape :=
  repeat match goal with
  | Hx : (if ?b then _ else _) = Normal _ |- _ => destruct b; inv_bind
  end;
  first [ left; reflexivity
        | right; eexists; reflexivity
        | right; eexists; rewrite <- app_assoc; reflexivity ].

Lemma shopifyItem_from_store (P : Platform) (env : TaskEnv) (baseUrl sn : jsstring)
  (sid : value) (k : nat) (item : value) (p : Product) :
  shopifyItem P env baseUrl sn sid k item = Normal (Some p) -> from_store sid sn baseUrl p.
Proof.
  unfold shopifyItem. intros H. inv_bind.
  eapply formatProduct_from_store; [exact H | reflexivity | right; eauto].
Qed.

Lemma asosItem_from_store (P : Platform) (env : TaskEnv) (sn : jsstring)
  (sid : value) (k : nat) (item : value) (p : Product) :
  asosItem P env sn sid k item = Normal (Some p) ->
  from_store sid sn (js "https://www.asos.com/") p.
Proof.
  unfold asosItem. intros H. inv_bind.
  eapply formatProduct_from_store; [exact H | reflexivity | right; eauto].
Qed.

Lemma hmItem_from_store (P : Platform) (env : TaskEnv) (sn : jsstring)
  (sid : value) (k : nat) (item : value) (p : Product) :
  hmItem P env sn sid k item = Normal (Some p) ->
  from_store sid sn (js "https://www2.hm.com") p.
Proof.
  unfold hmItem. intros H. inv_bind.
  eapply formatProduct_from_store; [exact H | reflexivity |].
  clear H. link_shape.
Qed.

Lemma nordstromItem_from_store (P : Platform) (env : TaskEnv) (sn : jsstring)
  (sid : value) (k : nat) (item : value) (p : Product) :
  nordstromItem P env sn sid k item = Normal (Some p) ->
  from_store sid sn (js "https://www.nordstrom.com") p.
Proof.
  unfold nordstromItem. intros H. inv_bind.
  eapply formatProduct_from_store; [exact H | reflexivity |].
  clear H. link_shape.
Qed.

Lemma sheinItem_from_store (P : Platform) (env : TaskEnv) (sn : jsstring)
  (sid : value) (k : nat) (item : value) (p : Product) :
  sheinItem P env sn sid k item = Normal (Some p) ->
  from_store sid sn (js "https://us.shein.com/") p.
Proof.
  unfold sheinItem. intros H. inv_bind.
  eapply formatProduct_from_store; [exact H | reflexivity |].
  clear H. link_shape.
Qed.

Lemma startsWith_prefix (p s : jsstring) :
  startsWith p s = true -> exists rest, s = p ++ rest.
Proof.
  revert s. induction p as [|x p IH]; intros s H; [exists s; reflexivity|].
  destruct s as [|y s]; [discriminate|]. simpl in H.
  apply andb_true_iff in H. destruct H as [E H]. apply N.eqb_eq in E. subst.
  destruct (IH s H) as [rest ->]. exists rest. reflexivity.
Qed.

Lemma lulusElement_from_store (P : Platform) (env : TaskEnv) (sn : jsstring)
  (sid : value) (k : nat) (el : Elem P) (p : Product) :
  lulusElement P env sn sid k el = Normal [Some p] ->
  from_store sid sn (js "http") p.
Proof.
  unfold lulusElement. cbv zeta.
  set (href := string_of (or_else (or_else (first_attr _ _ "href") _) _)). clearbody href.
  set (t := string_of (or_else (or_else (VStr (trim _)) _) _)). clearbody t.
  intros H.
  destruct t as [|t0 t']; [discriminate H|].
  destruct href as [|h0 h']; [discriminate H|].
  cbv beta iota in H.
  match type of H with
  | match ?x with [] => _ | _ :: _ => _ end = _ => remember x as lk eqn:Elk
  end.
  destruct lk as [|l0 l']; [discriminate H|].
  inv_bind.
  eapply formatProduct_from_store; [eassumption | reflexivity | right].
  rewrite Elk. destruct (negb (startsWith (js "http") (h0 :: h'))) eqn:Es.
  - exists (js "s://www.lulus.com" ++ h0 :: h'). reflexivity.
  - apply negb_false_iff in Es. apply startsWith_prefix. exact Es.
Qed.

Lemma in_order_of_Forall {A : Type} (R : A -> Product -> Prop) (Q : Product -> Prop)
  (items : list A) (l : list Product) :
  in_order_of R items l -> (forall a p, R a p -> Q p) -> Forall Q l.
Proof.
  intros (kept & _ & HF) HQ. induction HF as [|a p kept l Hr _ IH]; constructor; eauto.
Qed.

Lemma scrapeShopifyStore_from_store (P : Platform) (env : TaskEnv) (key : jsstring)
  (c : StoreConfig) (d0 : N) (d query : jsstring) (l : list Product) :
  lookup_config key = Own c ->
  cfg_domain c = Some (d0 :: d) ->
  scrapeShopifyStore P env query (VStr key) = Normal l ->
  Forall (from_store (VStr key) (cfg_name c) (js "https://" ++ d0 :: d)) l.
Proof.
  intros Hl Hd H.
  destruct (scrapeShopifyStore_ordered P env key c d0 d query Hl Hd) as (r & Hr & _ & HO).
  rewrite Hr in H. injection H as <-.
  destruct (shopifyUrl (js "https://" ++ d0 :: d) query) as [url|e] eqn:Hu.
  - destruct (fetchJSON P env url) as [data|e] eqn:Hf.
    + apply (in_order_of_Forall _ _ _ _ (HO url data eq_refl Hf)).
      intros a p [k Hk]. exact (shopifyItem_from_store _ _ _ _ _ _ _ _ Hk).
    + unfold scrapeShopifyStore in Hr. rewrite (STORE_CONFIG_get_own key c Hl) in Hr.
      cbn [bind] in Hr. rewrite Hd, Hu in Hr. cbn [bind] in Hr. rewrite Hf in Hr.
      injection Hr as <-. constructor.
  - unfold scrapeShopifyStore in Hr. rewrite (STORE_CONFIG_get_own key c Hl) in Hr.
    cbn [bind] in Hr. rewrite Hd, Hu in Hr. injection Hr as <-. constructor.
Qed.

Lemma scrapeASOS_from_store (P : Platform) (env : TaskEnv) (query : jsstring)
  (l : list Product) :
  scrapeASOS P env query = Normal l ->
  Forall (from_store (VStr (js "asos")) (js "ASOS") (js "https://www.asos.com/")) l.
Proof.
  intros H. destruct (scrapeASOS_ordered P env query) as (r & Hr & _ & HO).
  rewrite Hr in H. injection H as <-.
  destruct (asosUrl query) as [url|e] eqn:Hu.
  - destruct (fetchJSON P env url) as [data|e] eqn:Hf.
    + apply (in_order_of_Forall _ _ _ _ (HO url data eq_refl Hf)).
      intros a p [k Hk]. exact (asosItem_from_store _ _ _ _ _ _ _ Hk).
    + unfold scrapeASOS in Hr. rewrite Hu in Hr. cbn [bind] in Hr. rewrite Hf in Hr.
      injection Hr as <-. constructor.
  - unfold scrapeASOS in Hr. rewrite Hu in Hr. injection Hr as <-. constructor.
Qed.

Lemma scrapeHM_from_store (P : Platform) (env : TaskEnv) (query : jsstring)
  (l : list Product) :
  scrapeHM P env query = Normal l ->
  Forall (from_store (VStr (js "hm")) (js "H&M") (js "https://www2.hm.com")) l.
Proof.
  intros H. destruct (scrapeHM_ordered P env query) as (r & Hr & _ & HO).
  rewrite Hr in H. injection H as <-.
  destruct (hmUrl query) as [url|e] eqn:Hu.
  - destruct (fetchHTML P env url) as [doc|e] eqn:Hf.
    + apply (in_order_of_Forall _ _ _ _ (HO url doc eq_refl Hf)).
      intros a p [k Hk]. exact (hmItem_from_store _ _ _ _ _ _ _ Hk).
    + unfold scrapeHM in Hr. rewrite Hu in Hr. cbn [bind] in Hr. rewrite Hf in Hr.
      injection Hr as <-. constructor.
  - unfold scrapeHM in Hr. rewrite Hu in Hr. injection Hr as <-. constructor.
Qed.

Lemma scrapeLulus_from_store (P : Platform) (env : TaskEnv) (query : jsstring)
  (l : list Product) :
  scrapeLulus P env query = Normal l ->
  Forall (from_store (VStr (js "lulus")) (js "Lulus") (js "http")) l.
Proof.
  intros H. destruct (scrapeLulus_ordered P env query) as (r & Hr & _ & HO).
  rewrite Hr in H. injection H as <-.
  destruct (lulusUrl query) as [url|e] eqn:Hu.
  - destruct (fetchHTML P env url) as [doc|e] eqn:Hf.
    + destruct (HO url doc eq_refl Hf) as (sel & _ & Hin).
      apply (in_order_of_Forall _ _ _ _ Hin).
      intros a p [k Hk]. exact (lulusElement_from_store _ _ _ _ _ _ _ Hk).
    + unfold scrapeLulus in Hr. rewrite Hu in Hr. cbn [bind] in Hr. rewrite Hf in Hr.
      injection Hr as <-. constructor.
  - unfold scrapeLulus in Hr. rewrite Hu in Hr. injection Hr as <-. constructor.
Qed.

Lemma scrapeNordstrom_from_store (P : Platform) (env : TaskEnv) (query : jsstring)
  (l : list Product) :
  scrapeNordstrom P env query = Normal l ->
  Forall (from_store (VStr (js "nordstrom")) (js "Nordstrom") (js "https://www.nordstrom.com")) l.
Proof.
  intros H. destruct (scrapeNordstrom_ordered P env query) as (r & Hr & _ & HO).
  rewrite Hr in H. injection H as <-.
  destruct (nordstromUrl query) as [url|e] eqn:Hu.
  - destruct (fetchHTML P env url) as [doc|e] eqn:Hf.
    + apply (in_order_of_Forall _ _ _ _ (HO url doc eq_refl Hf)).
      intros a p [k Hk]. exact (nordstromItem_from_store _ _ _ _ _ _ _ Hk).
    + unfold scrapeNordstrom in Hr. rewrite Hu in Hr. cbn [bind] in Hr. rewrite Hf in Hr.
      injection Hr as <-. constructor.
  - unfold scrapeNordstrom in Hr. rewrite Hu in Hr. injection Hr as <-. constructor.
Qed.

Lemma scrapeShein_from_store (P : Platform) (env : TaskEnv) (query : jsstring)
  (l : list Product) :
  scrapeShein P env query = Normal l ->
  Forall (from_store (VStr (js "shein")) (js "SHEIN") (js "https://us.shein.com/")) l.
Proof.
  intros H. destruct (scrapeShein_ordered P env query) as (r & Hr & _ & HO).
  rewrite Hr in H. injection H as <-.
  destruct (sheinUrl query) as [url|e] eqn:Hu.
  - destruct (fetchHTML P env url) as [doc|e] eqn:Hf.
    + apply (in_order_of_Forall _ _ _ _ (HO url doc eq_refl Hf)).
      intros a p [k Hk]. exact (sheinItem_from_store _ _ _ _ _ _ _ Hk).
    + unfold scrapeShein in Hr. rewrite Hu in Hr. cbn [bind] in Hr. rewrite Hf in Hr.
      injection Hr as <-. constructor.
  - unfold scrapeShein in Hr. rewrite Hu in Hr. injection Hr as <-. constructor.
Qed.

(** What each store's adapter returns comes from that store. *)
Lemma searchStore_from_store (P : Platform) (env : TaskEnv) (key : jsstring)
  (c : StoreConfig) (query : jsstring) (l : list Product) :
  assoc key STORE_CONFIG = Some c ->
  searchStore P env (VStr key) query = Normal l ->
  Forall (from_store (VStr key) (cfg_name c) (store_site c)) l.
Proof.
  intros Hc H.
  destruct (searchStore_dispatch P env key c query Hc)
    as (Hl & [(d0 & d & Hd & E & _)
            |[(Hd & Ht & E & _)|[(Hd & Ht & E & _)|[(Hd & Ht & E & _)
            |[(Hd & Ht & E & _)|(Hd & Ht & E & _)]]]]]);
    rewrite E in H; unfold store_site; rewrite Hd; try rewrite Ht.
  - exact (scrapeShopifyStore_from_store P env key c d0 d query l Hl Hd H).
  - apply assoc_In in Hc. simpl in Hc.
    repeat (destruct Hc as [Hc|Hc];
            [injection Hc as <- <-; try discriminate Hd; try discriminate Ht|]);
      try contradiction.
    exact (scrapeASOS_from_store P env query l H).
  - apply assoc_In in Hc. simpl in Hc.
    repeat (destruct Hc as [Hc|Hc];
            [injection Hc as <- <-; try discriminate Hd; try discriminate Ht|]);
      try contradiction.
    exact (scrapeHM_from_store P env query l H).
  - apply assoc_In in Hc. simpl in Hc.
    repeat (destruct Hc as [Hc|Hc];
            [injection Hc as <- <-; try discriminate Hd; try discriminate Ht|]);
      try contradiction.
    exact (scrapeLulus_from_store P env query l H).
  - apply assoc_In in Hc. simpl in Hc.
    repeat (destruct Hc as [Hc|Hc];
            [injection Hc as <- <-; try discriminate Hd; try discriminate Ht|]);
      try contradiction.
    exact (scrapeNordstrom_from_store P env query l H).
  - apply assoc_In in Hc. simpl in Hc.
    repeat (destruct Hc as [Hc|Hc];
            [injection Hc as <- <-; try discriminate Hd; try discriminate Ht|]);
      try contradiction.
    exact (scrapeShein_from_store P env query l H).
Qed.

Lemma lookup_config_own (key : jsstring) (c : StoreConfig) :
  assoc key STORE_CONFIG = Some c -> lookup_config key = Own c.
Proof. intros H. unfold lookup_config. rewrite H. reflexivity. Qed.

Lemma configured_name_nonempty (key : jsstring) (c : StoreConfig) :
  assoc key STORE_CONFIG = Some c -> cfg_name c <> [].
Proof.
  intros Hc. apply assoc_In in Hc. simpl in Hc.
  repeat (destruct Hc as [Hc|Hc]; [injection Hc as <- <-; discriminate|]).
  contradiction.
Qed.

(** The Store Result of a configured store in a response of the handler. *)
Lemma handler_results_from_store (P : Platform) (w : World) (req : Request)
  (r : HttpResponse) (resp : SearchResponse) :
  handler P w req = Normal r ->
  payload r = SearchBody resp ->
  Forall (fun sr => forall key c,
            store_id sr = VStr key ->
            assoc key STORE_CONFIG = Some c ->
            store_name sr = VStr (cfg_name c)
            /\ Forall (from_store (VStr key) (cfg_name c) (store_site c)) (results sr))
         (stores resp).
Proof.
  intros H Hp.
  destruct (handler_with_search_response _ _ _ _ _ H Hp) as (q & ids & _ & _ & _ & HF).
  induction HF as [|storeId sr valid entries (Hid & (e & He & Hn) & (i & Hr & _)) _ IH];
    constructor; [|exact IH].
  intros key c Hk Hc. rewrite Hid in Hk. rewrite Hk in He, Hn, Hr. clear Hk Hid.
  rewrite (STORE_CONFIG_get_own key c (lookup_config_own key c Hc)) in He.
  injection He as <-. split.
  - rewrite Hn. cbn [display_name]. unfold or_else. cbn [truthy].
    pose proof (configured_name_nonempty key c Hc) as Hne.
    destruct (cfg_name c); [contradiction | reflexivity].
  - destruct (searchStore_returns P (task w i) (VStr key) (sanitize q) (Own c)
                (STORE_CONFIG_get_own key c (lookup_config_own key c Hc))) as [l Hl].
    rewrite Hr, Hl. cbn [settle fst].
    exact (searchStore_from_store P (task w i) key c (sanitize q) l Hc Hl).
Qed.

(** X15. In every response of the handler, the Store Result of a
    configured store carries the name the configuration gives the store, and
    every product in it is tagged with that store: its [store] is the store
    id and its [storeName] that name, also for the five adapters that write
    both as literals. *)
Theorem products_are_tagged_with_their_store (P : Platform) (w : World) (req : Request)
  (r : HttpResponse) (resp : SearchResponse) :
  handler P w req = Normal r ->
  payload r = SearchBody resp ->
  Forall (fun sr => forall key c,
            store_id sr = VStr key ->
            assoc key STORE_CONFIG = Some c ->
            store_name sr = VStr (cfg_name c)
            /\ Forall (fun p => store p = store_id sr /\ VStr (storeName p) = store_name sr)
                      (results sr))
         (stores resp).
Proof.
  intros H Hp. pose proof (handler_results_from_store P w req r resp H Hp) as HF.
  eapply Forall_impl; [|exact HF]. intros sr Hsr key c Hk Hc.
  destruct (Hsr key c Hk Hc) as [Hn Hall]. split; [exact Hn|].
  eapply Forall_impl; [|exact Hall]. intros p (H1 & H2 & _).
  rewrite Hk, Hn, H1, H2. auto.
Qed.


Lemma products_are_tagged_with_their_store_witness :
  Forall (fun sr => forall key c,
            store_id sr = VStr key ->
            assoc key STORE_CONFIG = Some c ->
            store_name sr = VStr (cfg_name c)
            /\ Forall (fun p => store p = store_id sr /\ VStr (storeName p) = store_name sr)
                      (results sr))
         (stores whitefox_response).
Proof.
  exact (products_are_tagged_with_their_store plain_platform whitefox_world
           (post " <dress> " ["whitefox"%string])
           (respond 200 (SearchBody whitefox_response)) whitefox_response
           whitefox_search eq_refl).
Defined.

